(** * Authorization core of the CASL plugin: rule utilities, adapters and middleware

    A shallow embedding of [packages/plugins/authorization/src/utils.ts],
    of the field-level decision of [handlers/generic/check-permission.ts],
    of the batch, cascade and creation operations of
    [adapter/permission-adapter.ts] and of the permission-set adapter,
    and of the route middleware of [middleware.ts], followed by the
    properties proved about them. *)

From Stdlib Require Import ZArith List Bool Ascii String Sorted Permutation Lia.
From Stdlib Require Import Floats.SpecFloat.
From stdpp Require Import gmap strings sorting.
Import ListNotations.

Set Warnings "-register-all".

Local Open Scope string_scope.
Local Open Scope list_scope.
Local Open Scope Z_scope.

(* ===================================================================== *)
(** * Part I. The model *)
(* ===================================================================== *)

(** ** JavaScript values

    The closed variant of loosely typed condition and context trees
    ([TemplateValue] in [types.ts], widened by [JOther] for the values a
    [Record<string, unknown>] may also hold: functions, symbols, bigints).
    An object is the list of its own enumerable entries in [Object.entries]
    order. Numbers are only passed through, never computed with. *)

Inductive JsValue : Type :=
| JNull
| JUndefined
| JBool (b : bool)
| JNumber (n : Z)
| JString (s : string)
| JArray (items : list JsValue)
| JObject (entries : list (string * JsValue))
| JOther (typeofTag : string).

(** [typeof value === "string" || ... "number" || ... "boolean" || value === null] *)
Definition isPrimitiveOrNull (value : JsValue) : bool :=
  match value with
  | JString _ | JNumber _ | JBool _ | JNull => true
  | _ => false
  end.

(** [value && typeof value === "object" && !Array.isArray(value)] *)
Definition isPlainObject (value : JsValue) : bool :=
  match value with
  | JObject _ => true
  | _ => false
  end.

(** JavaScript truthiness ([NaN] is not represented). *)
Definition truthy (value : JsValue) : bool :=
  match value with
  | JNull | JUndefined => false
  | JBool b => b
  | JNumber n => negb (Z.eqb n 0)
  | JString s => negb (String.eqb s "")
  | JArray _ | JObject _ | JOther _ => true
  end.

(** [Object.keys(value)] for a value that is not [null] or [undefined];
    array and string indices are abstracted by their count. *)
Definition objectKeysLength (value : JsValue) : Z :=
  match value with
  | JObject entries => Z.of_nat (List.length entries)
  | JArray items => Z.of_nat (List.length items)
  | JString s => Z.of_nat (String.length s)
  | _ => 0
  end.

(** ** Outcomes of calls that may throw *)

Inductive Outcome (E A : Type) : Type :=
| Returned (a : A)
| Thrown (e : E).
Arguments Returned {E A} a.
Arguments Thrown {E A} e.

(** ** String primitives *)

(** [haystack.includes(needle)] *)
Fixpoint includes (haystack needle : string) : bool :=
  String.prefix needle haystack
  || match haystack with
     | EmptyString => false
     | String _ rest => includes rest needle
     end.

(** White space and line terminators stripped by [String.prototype.trim],
    among the code units below 256. *)
Definition isWhiteSpace (c : ascii) : bool :=
  let n := nat_of_ascii c in
  (Nat.eqb n 9 || Nat.eqb n 10 || Nat.eqb n 11 || Nat.eqb n 12
   || Nat.eqb n 13 || Nat.eqb n 32 || Nat.eqb n 160)%bool.

Fixpoint trimStart (s : string) : string :=
  match s with
  | String c rest => if isWhiteSpace c then trimStart rest else s
  | EmptyString => EmptyString
  end.

Fixpoint trimEnd (s : string) : string :=
  match s with
  | String c rest =>
      match trimEnd rest with
      | EmptyString => if isWhiteSpace c then EmptyString else String c EmptyString
      | kept => String c kept
      end
  | EmptyString => EmptyString
  end.

(** [s.trim()] *)
Definition trim (s : string) : string := trimEnd (trimStart s).

Definition lowerChar (c : ascii) : ascii :=
  let n := nat_of_ascii c in
  if ((Nat.leb 65 n && Nat.leb n 90)
      || (Nat.leb 192 n && Nat.leb n 222 && negb (Nat.eqb n 215)))%bool
  then ascii_of_nat (n + 32) else c.

(** [s.toLowerCase()] on the code units below 256. *)
Fixpoint toLowerCase (s : string) : string :=
  match s with
  | String c rest => String (lowerChar c) (toLowerCase rest)
  | EmptyString => EmptyString
  end.

(** ** Thrown values

    What a [catch (error)] clause may receive: an [APIError] of
    better-auth, any other object with a [message] property (carrying
    [String(error.message)]), or anything else. *)

Inductive JsError : Type :=
| APIError (status : string) (message : string)
| RawError (message : string)
| OtherThrown.

(** ** Objects as records of own properties *)

Abbreviation JsObject := (list (string * JsValue)).

(** Defining or overwriting the own property [key]. *)
Fixpoint objSet (o : JsObject) (key : string) (v : JsValue) : JsObject :=
  match o with
  | [] => [(key, v)]
  | (k, w) :: rest =>
      if String.eqb k key then (k, v) :: rest else (k, w) :: objSet rest key v
  end.

(** [o[key] = v] on an object created by the literal [{}]: the key
    [__proto__] reaches the accessor of [Object.prototype], which never
    creates an own property. *)
Definition assignProperty (o : JsObject) (key : string) (v : JsValue) : JsObject :=
  if String.eqb key "__proto__" then o else objSet o key v.

Definition objectKeys (o : JsObject) : list string := map fst o.

(** [typeof value] *)
Definition typeOf (value : JsValue) : string :=
  match value with
  | JNull | JArray _ | JObject _ => "object"
  | JUndefined => "undefined"
  | JBool _ => "boolean"
  | JNumber _ => "number"
  | JString _ => "string"
  | JOther tag => tag
  end.

(** ** Template variable validation *)

Definition DISALLOWED_TEMPLATE_VARIABLES : gset string := {[ "process.env" ]}.
Definition DANGEROUS_TEMPLATE_KEYS : gset string :=
  {[ "__proto__"; "constructor"; "prototype" ]}.

(** [set.has(key)] *)
Definition setHas (set : gset string) (key : string) : bool :=
  bool_decide (key ∈ set).

Definition isCloseBrace (c : ascii) : bool := Ascii.eqb c "}"%char.

(** The longest prefix of characters accepted by [[^}]]. *)
Fixpoint takeNonBrace (s : string) : string :=
  match s with
  | String c rest => if isCloseBrace c then EmptyString else String c (takeNonBrace rest)
  | EmptyString => EmptyString
  end.

Fixpoint dropNonBrace (s : string) : string :=
  match s with
  | String c rest => if isCloseBrace c then s else dropNonBrace rest
  | EmptyString => EmptyString
  end.

(** A match of [/\{\{([^}]+)\}\}/] anchored at the start of [s], as its
    capture group. The greedy run [[^}]+] is the only candidate: a shorter
    run is followed by a character other than [}]. *)
Definition matchAt (s : string) : option string :=
  match s with
  | String c1 (String c2 rest) =>
      if (Ascii.eqb c1 "{" && Ascii.eqb c2 "{")%bool then
        let inner := takeNonBrace rest in
        if (negb (String.eqb inner "") && String.prefix "}}" (dropNonBrace rest))%bool
        then Some inner else None
      else None
  | _ => None
  end.

(** The successive [templateRegex.exec(template)] of the global pattern:
    each start position from [lastIndex] on is tried in turn, and a match
    moves [lastIndex] past itself ([skip] counts the characters still
    below [lastIndex]). *)
Fixpoint execFrom (s : string) (skip : nat) : list string :=
  match s with
  | EmptyString => []
  | String _ rest =>
      match skip with
      | S k => execFrom rest k
      | O =>
          match matchAt s with
          | Some inner => inner :: execFrom rest (String.length inner + 3)
          | None => execFrom rest 0
          end
      end
  end.

Definition templateMatches (template : string) : list string := execFrom template 0.

Definition variableErrors (variable : string) : list string :=
  ((if setHas DISALLOWED_TEMPLATE_VARIABLES variable
    then ["Unauthorized template variable: " +:+ variable] else [])
   ++ (if (includes variable ".." || includes variable "/" || includes variable "\")%bool
       then ["Invalid template variable format: " +:+ variable] else [])
   ++ (if (includes variable "(" || includes variable ")"
           || includes variable "[" || includes variable "]")%bool
       then ["Template variable cannot contain function calls or array access: " +:+ variable]
       else []))%list.

Definition validateTemplateVariables (template : string) : list string :=
  flat_map (fun inner => variableErrors (trim inner)) (templateMatches template).

(** ** Canonical rules *)

Inductive PermissionSource : Type :=
| USER_DIRECT
| USER_PERMISSION_SET
| MEMBER_DIRECT
| MEMBER_PERMISSION_SET.

(** [CaslPermission] of [types.ts]. Dates are their [getTime()] in
    milliseconds; an optional property that is absent is [None]. *)
Module CaslPermission.
Record t : Type := mk {
  action : string;
  conditions : option JsValue;
  createdAt : Z;
  expiresAt : option Z;
  fields : option (list string);
  id : string;
  inverted : bool;
  name : string;
  organizationId : option string;
  reason : option string;
  source : PermissionSource;
  subject : string;
  updatedAt : option Z
}.

(** [{ ...rule, conditions: c }] *)
Definition withConditions (rule : t) (c : JsValue) : t :=
  {| action := action rule; conditions := Some c; createdAt := createdAt rule;
     expiresAt := expiresAt rule; fields := fields rule; id := id rule;
     inverted := inverted rule; name := name rule;
     organizationId := organizationId rule; reason := reason rule;
     source := source rule; subject := subject rule; updatedAt := updatedAt rule |}.
End CaslPermission.

Abbreviation Rule := CaslPermission.t.

(** ** Secure template interpolation *)

Section Interpolation.

(** [Mustache.render(template, view)] of the mustache package: returns a
    value or throws. *)
Variable Mustache_render : string -> JsObject -> Outcome JsError JsValue.

Fixpoint secureInterpolateObject (value : JsValue) (context : JsObject)
  : Outcome JsError JsValue :=
  match value with
  | JNull | JUndefined => Returned JNull
  | JString s =>
      if negb (includes s "{{") then Returned value
      else
        match validateTemplateVariables s with
        | _ :: _ => Returned value
        | [] =>
            (* try { ... } catch (error) { return value } *)
            match Mustache_render s context with
            | Returned (JString interpolated) => Returned (JString interpolated)
            | Returned _ => Returned value
            | Thrown _ => Returned value
            end
        end
  | JArray items =>
      (* value.map((item) => secureInterpolateObject(item, context)) *)
      match
        (fix mapItems (l : list JsValue) : Outcome JsError (list JsValue) :=
           match l with
           | [] => Returned []
           | item :: rest =>
               match secureInterpolateObject item context with
               | Thrown e => Thrown e
               | Returned v =>
                   match mapItems rest with
                   | Thrown e => Thrown e
                   | Returned vs => Returned (v :: vs)
                   end
               end
           end) items
      with
      | Thrown e => Thrown e
      | Returned vs => Returned (JArray vs)
      end
  | JObject entries =>
      (* for (const [key, val] of Object.entries(value)) ... *)
      match
        (fix loop (es : JsObject) (result : JsObject) : Outcome JsError JsObject :=
           match es with
           | [] => Returned result
           | (key, val) :: rest =>
               if setHas DANGEROUS_TEMPLATE_KEYS key then loop rest result
               else
                 match secureInterpolateObject val context with
                 | Thrown e => Thrown e
                 | Returned v => loop rest (assignProperty result key v)
                 end
           end) entries []
      with
      | Thrown e => Thrown e
      | Returned result => Returned (JObject result)
      end
  | JBool _ | JNumber _ | JOther _ => Returned value
  end.

(** The two loops of [secureInterpolateObject], named. *)
Definition interpolateItems (context : JsObject)
  : list JsValue -> Outcome JsError (list JsValue) :=
  fix mapItems (l : list JsValue) : Outcome JsError (list JsValue) :=
    match l with
    | [] => Returned []
    | item :: rest =>
        match secureInterpolateObject item context with
        | Thrown e => Thrown e
        | Returned v =>
            match mapItems rest with
            | Thrown e => Thrown e
            | Returned vs => Returned (v :: vs)
            end
        end
    end.

Definition interpolateEntries (context : JsObject)
  : JsObject -> JsObject -> Outcome JsError JsObject :=
  fix loop (es : JsObject) (result : JsObject) : Outcome JsError JsObject :=
    match es with
    | [] => Returned result
    | (key, val) :: rest =>
        if setHas DANGEROUS_TEMPLATE_KEYS key then loop rest result
        else
          match secureInterpolateObject val context with
          | Thrown e => Thrown e
          | Returned v => loop rest (assignProperty result key v)
          end
    end.

(** [interpolateConditions(rule, context)]; the outer [try]/[catch]
    returns [rule] when the interpolation throws. *)
Definition interpolateConditions (rule : Rule) (context : JsObject) : Outcome JsError Rule :=
  match CaslPermission.conditions rule with
  | None => Returned rule
  | Some c =>
      if negb (truthy c) then Returned rule
      else
        match secureInterpolateObject c context with
        | Returned interpolatedConditions =>
            Returned (CaslPermission.withConditions rule interpolatedConditions)
        | Thrown _ => Returned rule
        end
  end.

End Interpolation.

(** ** Context sanitizer *)

Record ContextValidation : Type := {
  errors : list string;
  isValid : bool;
  sanitizedContext : JsObject
}.

(** The innermost loop of [sanitizeNestedObject], over the entries of an
    object found inside a nested object. *)
Definition sanitizeInnerEntry (nestedSanitized : JsObject) (entry : string * JsValue)
  : JsObject :=
  let '(nestedKey, nestedValue) := entry in
  if setHas DANGEROUS_TEMPLATE_KEYS nestedKey then
    if isPrimitiveOrNull nestedValue
    then assignProperty nestedSanitized nestedKey nestedValue
    else nestedSanitized
  else nestedSanitized.

Definition sanitizeNestedEntry (sanitized : JsObject) (entry : string * JsValue)
  : JsObject :=
  let '(key, value) := entry in
  if setHas DANGEROUS_TEMPLATE_KEYS key then sanitized
  else if isPrimitiveOrNull value then assignProperty sanitized key value
  else
    match value with
    | JObject inner =>
        assignProperty sanitized key (JObject (fold_left sanitizeInnerEntry inner []))
    | _ => sanitized
    end.

Definition sanitizeNestedObject (obj : JsObject) : JsObject :=
  fold_left sanitizeNestedEntry obj [].

Definition validateContextEntry (acc : list string * JsObject) (entry : string * JsValue)
  : list string * JsObject :=
  let '(errs, sanitized) := acc in
  let '(key, value) := entry in
  if setHas DANGEROUS_TEMPLATE_KEYS key
  then ((errs ++ ["Dangerous context key: " +:+ key])%list, sanitized)
  else
    match value with
    | JObject nested => (errs, assignProperty sanitized key (JObject (sanitizeNestedObject nested)))
    | _ =>
        if isPrimitiveOrNull value then (errs, assignProperty sanitized key value)
        else ((errs ++ ["Invalid context value type for key " +:+ key +:+ ": " +:+ typeOf value])%list,
              sanitized)
    end.

Definition validateAndSanitizeContext (context : JsObject) : ContextValidation :=
  let '(errs, sanitized) := fold_left validateContextEntry context ([], []) in
  {| errors := errs;
     isValid := Nat.eqb (List.length errs) 0;
     sanitizedContext := sanitized |}.

(** ** Priority sorter *)

(** [Array.prototype.sort(comparefn)]: a stable sort. With a consistent
    comparator every stable sort returns the same array; insertion from
    the right is the one written here. *)
Section ArraySort.
Context {T : Type}.
Variable comparefn : T -> T -> Z.

Fixpoint insertSorted (x : T) (sorted : list T) : list T :=
  match sorted with
  | [] => [x]
  | y :: rest =>
      if comparefn x y <=? 0 then x :: y :: rest else y :: insertSorted x rest
  end.

Definition arraySort (array : list T) : list T :=
  fold_right insertSorted [] array.
End ArraySort.

Definition sourcePriority (s : PermissionSource) : Z :=
  match s with
  | MEMBER_PERMISSION_SET => 1
  | MEMBER_DIRECT => 2
  | USER_PERMISSION_SET => 3
  | USER_DIRECT => 4
  end.

Definition getSpecificity (p : Rule) : Z :=
  let specificity := 0 in
  let specificity :=
    match CaslPermission.conditions p with
    | Some c => if (truthy c && (0 <? objectKeysLength c))%bool
                then specificity + 2 else specificity
    | None => specificity
    end in
  let specificity :=
    match CaslPermission.fields p with
    | Some fs => if 0 <? Z.of_nat (List.length fs) then specificity + 1 else specificity
    | None => specificity
    end in
  specificity.

(** [new Date(p.updatedAt || p.createdAt).getTime()]; a [Date] is truthy. *)
Definition getTimestamp (p : Rule) : Z :=
  match CaslPermission.updatedAt p with
  | Some updated => updated
  | None => CaslPermission.createdAt p
  end.

Section PrioritySorter.

(** [a.localeCompare(b)]: negative, zero or positive. *)
Variable localeCompare : string -> string -> Z.

(** The comparator handed to [permissions.sort]. *)
Definition comparePermissions (a b : Rule) : Z :=
  let aSourcePriority := sourcePriority (CaslPermission.source a) in
  let bSourcePriority := sourcePriority (CaslPermission.source b) in
  if negb (aSourcePriority =? bSourcePriority) then aSourcePriority - bSourcePriority
  else if negb (Bool.eqb (CaslPermission.inverted a) (CaslPermission.inverted b))
  then (if CaslPermission.inverted a then 1 else -1)
  else
    let aSpecificity := getSpecificity a in
    let bSpecificity := getSpecificity b in
    if negb (aSpecificity =? bSpecificity) then aSpecificity - bSpecificity
    else
      let aTimestamp := getTimestamp a in
      let bTimestamp := getTimestamp b in
      if negb (aTimestamp =? bTimestamp) then aTimestamp - bTimestamp
      else localeCompare (CaslPermission.id a) (CaslPermission.id b).

Definition sortPermissionsByPriority (permissions : list Rule) : list Rule :=
  arraySort comparePermissions permissions.

End PrioritySorter.

(** ** Flattening grouped records *)

Section FlattenGroupedRecords.
Context {T : Type}.
(** [item.id] of [T extends { id: string }] *)
Variable getId : T -> string.

Definition flattenItem (state : list T * gset string) (item : T) : list T * gset string :=
  let '(result, seen) := state in
  if setHas seen (getId item) then (result, seen)
  else ((result ++ [item])%list, {[ getId item ]} ∪ seen).

(** [recordOfArrays] lists the properties of the record in
    [Object.values] order. *)
Definition flattenGroupedRecords (recordOfArrays : list (string * list T)) : list T :=
  fst (fold_left (fun state items => fold_left flattenItem items state)
                 (map snd recordOfArrays) ([], ∅)).

(** [item] is the first element of [items] that carries its identifier. *)
Definition firstWithItsId (items : list T) (item : T) : Prop :=
  exists before after,
    items = before ++ item :: after
    /\ forall y, y ∈ before -> getId y <> getId item.
End FlattenGroupedRecords.

(** ** Chunking *)

Definition BATCH_CHUNK_SIZE : Z := 100.

(** [array.slice(start, end)] *)
Definition slice {T : Type} (array : list T) (start finish : Z) : list T :=
  let len := Z.of_nat (List.length array) in
  let k := if start <? 0 then Z.max (len + start) 0 else Z.min start len in
  let final := if finish <? 0 then Z.max (len + finish) 0 else Z.min finish len in
  firstn (Z.to_nat (final - k)) (skipn (Z.to_nat k) array).

(** [for (let i = 0; i < array.length; i += chunkSize) chunks.push(...)];
    [None] when [fuel] iterations do not reach the end of the loop. *)
Fixpoint chunkLoop {T : Type} (fuel : nat) (array : list T) (chunkSize i : Z)
  (chunks : list (list T)) : option (list (list T)) :=
  if i <? Z.of_nat (List.length array) then
    match fuel with
    | O => None
    | S fuel' =>
        chunkLoop fuel' array chunkSize (i + chunkSize)
                  (chunks ++ [slice array i (i + chunkSize)])%list
    end
  else Some chunks.

(** [chunkArray(array, chunkSize = BATCH_CHUNK_SIZE)] at a chunk size
    that is an integer, where the counter of the loop is an integer as
    well; the loop is given one iteration per element. The batch
    operations are modelled at such a size. [chunkArrayNumber] below is
    the function at any number, and the two agree where both apply
    (lemma [chunkArray_chunkArrayNumber]). *)
Definition chunkArray {T : Type} (array : list T) (chunkSize : option Z)
  : option (Outcome JsError (list (list T))) :=
  let chunkSize := match chunkSize with Some n => n | None => BATCH_CHUNK_SIZE end in
  if Nat.eqb (List.length array) 0 then Some (Returned [])
  else if chunkSize <=? 0 then Some (Thrown (RawError "Chunk size must be greater than 0"))
  else
    match chunkLoop (List.length array) array chunkSize 0 [] with
    | Some chunks => Some (Returned chunks)
    | None => None
    end.

(** ** Numbers

    A JavaScript number is an IEEE 754 binary64 value; the operations are
    those of the specification of binary floating point of the standard
    library, at 53 bits of precision. *)

Definition number : Type := spec_float.

(** The number an integer literal or an integer-valued property stands
    for: the integer rounded to the nearest number. *)
Definition numberOfZ (z : Z) : number := binary_normalize 53 1024 z 0 false.

(** The number a decimal literal stands for, such as [0.5] for one half:
    the fraction rounded to the nearest number. *)
Definition numberOfRatio (numerator denominator : Z) : number :=
  SFdiv 53 1024 (numberOfZ numerator) (numberOfZ denominator).

(** The values of the type that are numbers: the mantissa and the
    exponent of a finite one are in the ranges of binary64. *)
Definition numberIsValid (x : number) : bool := valid_binary 53 1024 x.

(** [x + y], [x < y] and [x <= y] *)
Definition numberAdd (x y : number) : number := SFadd 53 1024 x y.
Definition numberLt (x y : number) : bool := SFltb x y.
Definition numberLe (x y : number) : bool := SFleb x y.

(** [ToIntegerOrInfinity(x)]: not-a-number counts as zero, a finite
    number loses its fraction. *)
Inductive IntegerOrInfinity : Type :=
| Integer (z : Z)
| PlusInfinity
| MinusInfinity.

Definition toIntegerOrInfinity (x : number) : IntegerOrInfinity :=
  match x with
  | S754_nan | S754_zero _ => Integer 0
  | S754_infinity false => PlusInfinity
  | S754_infinity true => MinusInfinity
  | S754_finite sign m e => Integer (cond_Zopp sign (Z.shiftl (Z.pos m) e))
  end.

(** [Number.isInteger(x)] *)
Definition numberIsInteger (x : number) : bool :=
  match x with
  | S754_zero _ => true
  | S754_finite _ m e => (0 <=? e) || (Z.pos m mod 2 ^ (- e) =? 0)
  | S754_infinity _ | S754_nan => false
  end.

(** The number of binary digits of a positive integer. *)
Definition digits (p : positive) : Z := Z.pos (digits2_pos p).

(** The number that holds the integer [s] exactly. *)
Definition wholeNumber (s : positive) : number :=
  S754_finite false (Z.to_pos (Z.pos s * 2 ^ (53 - digits s))) (digits s - 53).

(** ** Chunking at any number *)

(** The index [array.slice] derives from an argument, for an array of
    [len] elements. *)
Definition relativeIndex (len : Z) (relative : IntegerOrInfinity) : Z :=
  match relative with
  | MinusInfinity => 0
  | Integer z => if z <? 0 then Z.max (len + z) 0 else Z.min z len
  | PlusInfinity => len
  end.

(** [array.slice(start, end)] with numbers as arguments. *)
Definition sliceNumber {T : Type} (array : list T) (start finish : number) : list T :=
  let len := Z.of_nat (List.length array) in
  slice array (relativeIndex len (toIntegerOrInfinity start))
              (relativeIndex len (toIntegerOrInfinity finish)).

(** [for (let i = 0; i < array.length; i += chunkSize) chunks.push(...)]
    with [i] and [chunkSize] numbers; [None] when [fuel] iterations do not
    reach the end of the loop. *)
Fixpoint chunkLoopNumber {T : Type} (fuel : nat) (array : list T) (chunkSize i : number)
  (chunks : list (list T)) : option (list (list T)) :=
  if numberLt i (numberOfZ (Z.of_nat (List.length array))) then
    match fuel with
    | O => None
    | S fuel' =>
        chunkLoopNumber fuel' array chunkSize (numberAdd i chunkSize)
                        (chunks ++ [sliceNumber array i (numberAdd i chunkSize)])%list
    end
  else Some chunks.

(** [chunkArray(array, chunkSize = BATCH_CHUNK_SIZE)] for any number as
    chunk size. *)
Definition chunkArrayNumber {T : Type} (fuel : nat) (array : list T)
    (chunkSize : option number) : option (Outcome JsError (list (list T))) :=
  let chunkSize := match chunkSize with
                   | Some n => n
                   | None => numberOfZ BATCH_CHUNK_SIZE
                   end in
  if Nat.eqb (List.length array) 0 then Some (Returned [])
  else if numberLe chunkSize (numberOfZ 0)
       then Some (Thrown (RawError "Chunk size must be greater than 0"))
  else
    match chunkLoopNumber fuel array chunkSize (numberOfZ 0) [] with
    | Some chunks => Some (Returned chunks)
    | None => None
    end.

(** ** Field-level decision of the check-permission handler *)

Record CheckPermissionMeta : Type := {
  hasPermissions : bool;
  metaSource : string;
  totalPermissions : Z
}.

Record CheckPermissionResponse : Type := {
  allowed : bool;
  meta : CheckPermissionMeta;
  reason : option string
}.

(** [s.replace(pattern, replacement)] with a string pattern: the first
    occurrence only (replacement patterns such as [$&] are not modelled). *)
Fixpoint replaceFirst (s pattern replacement : string) : string :=
  if String.prefix pattern s
  then replacement +:+ String.substring (String.length pattern)
                                        (String.length s - String.length pattern) s
  else
    match s with
    | String c rest => String c (replaceFirst rest pattern replacement)
    | EmptyString => EmptyString
    end.

Definition ACCESS_DENIED_ACTION : string :=
  "Access denied for action '{{action}}' on '{{subject}}'".

Section CheckPermission.

(** The subject handed to the ability: the subject type, tagged with the
    resource instance when one is supplied ([subjectHelper]). *)
Definition SubjectInstance : Type := string * option JsObject.

(** [ability.can(action, subject, field?)] of the ability built by
    [createAbilityFromPermissions] (the capability engine of CASL). *)
Variable ability_can : string -> SubjectInstance -> option string -> bool.

(** The part of [checkPermissionHandler] after the ability is built. *)
Definition checkPermissionHandler (sortedPermissions : list Rule)
    (action : string) (subject : option string) (resource : option JsObject)
    (fields : option (list string)) : CheckPermissionResponse :=
  let subjectToCheck := match subject with Some s => s | None => "all" end in
  let subjectInstance : SubjectInstance := (subjectToCheck, resource) in
  let allowed :=
    match fields with
    | Some (f :: fs) =>
        forallb (fun field => ability_can action subjectInstance (Some field)) (f :: fs)
    | _ => ability_can action subjectInstance None
    end in
  {| allowed := allowed;
     meta := {| hasPermissions := 0 <? Z.of_nat (List.length sortedPermissions);
                metaSource := "ability";
                totalPermissions := Z.of_nat (List.length sortedPermissions) |};
     reason := if allowed then None
               else Some (replaceFirst
                            (replaceFirst ACCESS_DENIED_ACTION "{{action}}" action)
                            "{{subject}}" subjectToCheck) |}.

End CheckPermission.

(** ** Duplicate-key classification *)

Definition isDuplicateKeyError (error : JsError) : bool :=
  match error with
  | APIError status message =>
      (String.eqb status "CONFLICT"
       || includes message "duplicate"
       || includes message "unique"
       || includes message "UNIQUE constraint failed"
       || includes message "duplicate key value")%bool
  | RawError message =>
      let message := toLowerCase message in
      (includes message "duplicate"
       || includes message "unique"
       || includes message "constraint"
       || includes message "already exists")%bool
  | OtherThrown => false
  end.

(** ** Store adapter

    The [Adapter] of better-auth is an external collaborator: the code is
    written against its interface, and so is the model. Rows are records
    of string fields; the filters are the two forms the cascade uses. *)

Abbreviation Row := (gmap string string).

Inductive Where : Type :=
| WhereEq (field : string) (value : string)
| WhereIn (field : string) (values : list string).

Definition matchesWhere (w : Where) (row : Row) : bool :=
  match w with
  | WhereEq field value => bool_decide (row !! field = Some value)
  | WhereIn field values =>
      match row !! field with
      | Some v => bool_decide (v ∈ values)
      | None => false
      end
  end.

(** Clauses are joined by the default connector [AND]. *)
Definition matchesAll (clauses : list Where) (row : Row) : bool :=
  forallb (fun w => matchesWhere w row) clauses.

Inductive AdapterCall : Type :=
| CallCreate (model : string) (data : Row)
| CallDeleteMany (model : string) (clauses : list Where)
| CallDelete (model : string) (clauses : list Where).

Record Adapter (S : Type) : Type := {
  adapter_create : string -> Row -> S -> Outcome JsError Row * S;
  adapter_deleteMany : string -> list Where -> S -> Outcome JsError JsValue * S;
  adapter_delete : string -> list Where -> S -> Outcome JsError JsValue * S;
  (** ["transaction" in adapter] *)
  hasTransaction : bool
}.
Arguments adapter_create {S} _ _ _ _.
Arguments adapter_deleteMany {S} _ _ _ _.
Arguments adapter_delete {S} _ _ _ _.
Arguments hasTransaction {S} _.

(** The store together with the calls issued to it so far. *)
Record World (S : Type) : Type := {
  store : S;
  calls : list AdapterCall
}.
Arguments store {S} _.
Arguments calls {S} _.

(** Asynchronous adapter code: state passing with exceptions. *)
Definition M (S A : Type) : Type := World S -> Outcome JsError A * World S.

Definition ret {S A : Type} (a : A) : M S A := fun w => (Returned a, w).

Definition throw {S A : Type} (e : JsError) : M S A := fun w => (Thrown e, w).

Definition bind {S A B : Type} (m : M S A) (k : A -> M S B) : M S B :=
  fun w =>
    match m w with
    | (Returned a, w') => k a w'
    | (Thrown e, w') => (Thrown e, w')
    end.

(** [try { m } catch (error) { handler(error) }] *)
Definition tryCatch {S A : Type} (m : M S A) (handler : JsError -> M S A) : M S A :=
  fun w =>
    match m w with
    | (Returned a, w') => (Returned a, w')
    | (Thrown e, w') => handler e w'
    end.

(** Modelled from the spec: [adapter.transaction(callback)] of the Store
    Adapter, which is not part of this repository. What the callback did
    is kept when it returns; when it throws, the transaction is aborted,
    the store is left as it was before and the error is thrown again. *)
Definition transaction {S A : Type} (callback : M S A) : M S A :=
  fun w =>
    match callback w with
    | (Returned a, w') => (Returned a, w')
    | (Thrown e, w') => (Thrown e, {| store := store w; calls := calls w' |})
    end.

Notation "x <- m ;; k" := (bind m (fun x => k))
  (at level 100, m at next level, right associativity).

Definition AUTHORIZATION_ERROR_CODES_CONSTRAINT_VIOLATION : string :=
  "Database constraint violation".
Definition AUTHORIZATION_ERROR_CODES_DATABASE_ERROR : string :=
  "Database operation failed".

Section AdapterCode.
Context {S : Type}.
Variable adapter : Adapter S.

Definition issue {A : Type} (call : AdapterCall) (op : S -> Outcome JsError A * S)
  : M S A :=
  fun w =>
    let '(r, s') := op (store w) in
    (r, {| store := s'; calls := calls w ++ [call] |}).

Definition callCreate (model : string) (data : Row) : M S Row :=
  issue (CallCreate model data) (adapter_create adapter model data).

Definition callDeleteMany (model : string) (clauses : list Where) : M S JsValue :=
  issue (CallDeleteMany model clauses) (adapter_deleteMany adapter model clauses).

Definition callDelete (model : string) (clauses : list Where) : M S JsValue :=
  issue (CallDelete model clauses) (adapter_delete adapter model clauses).

(** The transaction callback and the plain branch run the same
    statements, on [tx] and on [adapter]. *)
Definition withOptionalTransaction {A : Type} (body : M S A) : M S A :=
  if hasTransaction adapter then transaction body else body.

Definition handleIdempotentJunctionAssignment (model : string) (data : Row) : M S unit :=
  withOptionalTransaction
    (tryCatch
       (_ <- callCreate model data ;; ret tt)
       (fun error => if isDuplicateKeyError error then ret tt else throw error)).

Definition rethrowClassified {A : Type} (error : JsError) : M S A :=
  if isDuplicateKeyError error
  then throw (APIError "CONFLICT" AUTHORIZATION_ERROR_CODES_CONSTRAINT_VIOLATION)
  else throw (APIError "INTERNAL_SERVER_ERROR" AUTHORIZATION_ERROR_CODES_DATABASE_ERROR).

Definition batchDeletePermissions (ids : list string) : M S Z :=
  if Nat.eqb (List.length ids) 0 then ret 0
  else
    tryCatch
      (withOptionalTransaction
         (_ <- callDeleteMany "userPermission" [WhereIn "permissionId" ids] ;;
          _ <- callDeleteMany "memberPermission" [WhereIn "permissionId" ids] ;;
          _ <- callDeleteMany "permissionPermissionSet" [WhereIn "permissionId" ids] ;;
          result <- callDeleteMany "permission" [WhereIn "id" ids] ;;
          ret (match result with JNumber n => n | _ => 0 end)))
      rethrowClassified.

Definition deletePermission (id : string) : M S bool :=
  tryCatch
    (withOptionalTransaction
       (_ <- callDeleteMany "userPermission" [WhereEq "permissionId" id] ;;
        _ <- callDeleteMany "memberPermission" [WhereEq "permissionId" id] ;;
        _ <- callDeleteMany "permissionPermissionSet" [WhereEq "permissionId" id] ;;
        result <- callDelete "permission" [WhereEq "id" id] ;;
        ret (match result with JNull | JUndefined => false | _ => true end)))
    rethrowClassified.

End AdapterCode.

(** Modelled from the spec: the contract of the Store Adapter, which is
    not part of this repository. [deleteMany] and [delete] remove the rows
    of the named relation that satisfy the filter and leave every other
    relation alone; [deleteMany] answers with the number of rows removed. *)
Record ConformingAdapter {S : Type} (adapter : Adapter S)
    (rowsOf : S -> string -> list Row) : Prop := {
  deleteMany_conforms : forall model clauses s,
    exists s',
      adapter_deleteMany adapter model clauses s
      = (Returned (JNumber (Z.of_nat (List.length
                                        (List.filter (matchesAll clauses) (rowsOf s model))))), s')
      /\ rowsOf s' model
         = List.filter (fun r => negb (matchesAll clauses r)) (rowsOf s model)
      /\ forall other, other <> model -> rowsOf s' other = rowsOf s other;
  delete_conforms : forall model clauses s,
    exists s',
      adapter_delete adapter model clauses s = (Returned JUndefined, s')
      /\ rowsOf s' model
         = List.filter (fun r => negb (matchesAll clauses r)) (rowsOf s model)
      /\ forall other, other <> model -> rowsOf s' other = rowsOf s other
}.

(** The rows of a junction relation that carry the pair [data]. *)
Definition junctionRows (data : Row) (rows : list Row) : list Row :=
  List.filter (fun r => bool_decide (data ⊆ r)) rows.

(** Modelled from the spec: a store that keeps junction rows unique. An
    insert of a pair that is present fails with an error that
    [isDuplicateKeyError] recognises and changes nothing; an insert of an
    absent pair appends one row carrying it. *)
Record UniqueJunctionStore {S : Type} (adapter : Adapter S)
    (rowsOf : S -> string -> list Row) : Prop := {
  create_absent : forall model data s,
    junctionRows data (rowsOf s model) = [] ->
    exists row s',
      adapter_create adapter model data s = (Returned row, s')
      /\ data ⊆ row
      /\ rowsOf s' model = rowsOf s model ++ [row];
  create_present : forall model data s,
    junctionRows data (rowsOf s model) <> [] ->
    exists e,
      adapter_create adapter model data s = (Thrown e, s)
      /\ isDuplicateKeyError e = true
}.

(** An in-memory adapter: relations by name, junction pairs unique. *)
Abbreviation MemoryStore := (gmap string (list Row)).

Definition memoryRows (s : MemoryStore) (model : string) : list Row :=
  match s !! model with
  | Some rows => rows
  | None => []
  end.

Definition memoryCreate (model : string) (data : Row) (s : MemoryStore)
  : Outcome JsError Row * MemoryStore :=
  match junctionRows data (memoryRows s model) with
  | [] => (Returned data, <[ model := memoryRows s model ++ [data] ]> s)
  | _ :: _ => (Thrown (RawError "UNIQUE constraint failed"), s)
  end.

Definition memoryRemove (model : string) (clauses : list Where) (s : MemoryStore)
  : MemoryStore :=
  <[ model := List.filter (fun r => negb (matchesAll clauses r)) (memoryRows s model) ]> s.

Definition memoryAdapter (withTransaction : bool) : Adapter MemoryStore :=
  {| adapter_create := memoryCreate;
     adapter_deleteMany := fun model clauses s =>
       (Returned (JNumber (Z.of_nat (List.length
                                       (List.filter (matchesAll clauses) (memoryRows s model))))),
        memoryRemove model clauses s);
     adapter_delete := fun model clauses s =>
       (Returned JUndefined, memoryRemove model clauses s);
     hasTransaction := withTransaction |}.

(** ** Batch operations of the permission adapter *)

(** [await Promise.all(operations)] on the operations one [map] has
    created: every operation is started, in array order, and runs to its
    end whether or not an earlier one has failed; the [await] throws the
    first rejection. The store performs the calls one at a time, in the
    order they were issued. *)
Fixpoint promiseAll {S A : Type} (operations : list (M S A)) : M S (list A) :=
  match operations with
  | [] => ret []
  | operation :: rest =>
      fun w =>
        let '(r, w1) := operation w in
        let '(rs, w2) := promiseAll rest w1 in
        (match r, rs with
         | Thrown e, _ => Thrown e
         | Returned _, Thrown e => Thrown e
         | Returned a, Returned others => Returned (a :: others)
         end, w2)
  end.

Definition AUTHORIZATION_ERROR_CODES_DUPLICATE_ENTRY : string := "Duplicate entry".

Section BatchAdapterCode.
Context {S : Type}.
Variable adapter : Adapter S.
(** [options.batch.chunkSize] *)
Variable chunkSize : Z.

(** [chunkArrayWithOptions(array)], called inside a [try] block. The
    loop of [chunkArray] always ends within its fuel (lemma
    [chunkArray_ends]), so the last branch is never taken. *)
Definition chunkArrayWithOptions {T : Type} (array : list T) : M S (list (list T)) :=
  match chunkArray array (Some chunkSize) with
  | Some (Returned chunks) => ret chunks
  | Some (Thrown e) => throw e
  | None => throw OtherThrown
  end.

(** [for (const item of items) { await body(item) }] *)
Fixpoint forOf {T : Type} (items : list T) (body : T -> M S unit) : M S unit :=
  match items with
  | [] => ret tt
  | item :: rest => _ <- body item ;; forOf rest body
  end.

(** [if (error instanceof APIError) throw error;
     throw new APIError("INTERNAL_SERVER_ERROR", ...)] *)
Definition rethrowApiError {A : Type} (error : JsError) : M S A :=
  match error with
  | APIError _ _ => throw error
  | _ => throw (APIError "INTERNAL_SERVER_ERROR" AUTHORIZATION_ERROR_CODES_DATABASE_ERROR)
  end.

(** The body the batch assignments share: the junction rows [dataOf id]
    of the relation [model], asserted chunk by chunk. *)
Definition batchAssign (model : string) (dataOf : string -> Row) (ids : list string)
  : M S unit :=
  if Nat.eqb (List.length ids) 0 then ret tt
  else
    tryCatch
      (chunks <- chunkArrayWithOptions ids ;;
       forOf chunks
         (fun chunk =>
            _ <- promiseAll
                   (map (fun id => handleIdempotentJunctionAssignment adapter model (dataOf id))
                        chunk) ;;
            ret tt))
      rethrowApiError.

Definition batchAssignMembersToPermission (permissionId : string) (memberIds : list string)
  : M S unit :=
  batchAssign "memberPermission"
              (fun memberId => {[ "memberId" := memberId; "permissionId" := permissionId ]})
              memberIds.

Definition batchAssignUsersToPermission (permissionId : string) (userIds : list string)
  : M S unit :=
  batchAssign "userPermission"
              (fun userId => {[ "permissionId" := permissionId; "userId" := userId ]})
              userIds.




(** The body the batch removals share; the transaction callback and the
    plain branch run the same statement. *)
Definition batchRemove (model : string) (whereOf : string -> list Where) (ids : list string)
  : M S unit :=
  if Nat.eqb (List.length ids) 0 then ret tt
  else
    tryCatch
      (withOptionalTransaction adapter
         (_ <- promiseAll (map (fun id => callDeleteMany adapter model (whereOf id)) ids) ;;
          ret tt))
      (fun _ => throw (APIError "INTERNAL_SERVER_ERROR"
                                AUTHORIZATION_ERROR_CODES_DATABASE_ERROR)).

Definition batchRemoveMembersFromPermission (permissionId : string)
    (memberIds : list string) : M S unit :=
  batchRemove "memberPermission"
              (fun memberId => [WhereEq "permissionId" permissionId;
                                WhereEq "memberId" memberId])
              memberIds.

Definition batchRemoveUsersFromPermission (permissionId : string) (userIds : list string)
  : M S unit :=
  batchRemove "userPermission"
              (fun userId => [WhereEq "permissionId" permissionId; WhereEq "userId" userId])
              userIds.

(** The three removals of the permission-set adapter. *)
Definition batchRemoveMembersFromPermissionSet (permissionSetId : string)
    (memberIds : list string) : M S unit :=
  batchRemove "memberPermissionSet"
              (fun memberId => [WhereEq "permissionSetId" permissionSetId;
                                WhereEq "memberId" memberId])
              memberIds.

Definition batchRemovePermissionsFromPermissionSet (permissionSetId : string)
    (permissionIds : list string) : M S unit :=
  batchRemove "permissionPermissionSet"
              (fun permissionId => [WhereEq "permissionSetId" permissionSetId;
                                    WhereEq "permissionId" permissionId])
              permissionIds.

Definition batchRemoveUsersFromPermissionSet (permissionSetId : string)
    (userIds : list string) : M S unit :=
  batchRemove "userPermissionSet"
              (fun userId => [WhereEq "permissionSetId" permissionSetId;
                              WhereEq "userId" userId])
              userIds.

Definition rethrowDuplicateEntry {A : Type} (error : JsError) : M S A :=
  if isDuplicateKeyError error
  then throw (APIError "CONFLICT" AUTHORIZATION_ERROR_CODES_DUPLICATE_ENTRY)
  else throw (APIError "INTERNAL_SERVER_ERROR" AUTHORIZATION_ERROR_CODES_DATABASE_ERROR).

(** With a transaction the result is awaited inside the [try] block;
    without one the promise of [Promise.all] is returned as it is, and
    settles after the [try] block has been left. *)
Definition batchCreatePermissions (permissions : list Row) : M S (list Row) :=
  if Nat.eqb (List.length permissions) 0 then ret []
  else if hasTransaction adapter then
    tryCatch
      (transaction (promiseAll (map (callCreate adapter "permission") permissions)))
      rethrowDuplicateEntry
  else promiseAll (map (callCreate adapter "permission") permissions).

(** [const [result] = await batchCreatePermissions([data]); return result] *)
Definition createPermission (data : Row) : M S (option Row) :=
  tryCatch
    (results <- batchCreatePermissions [data] ;; ret (head results))
    rethrowDuplicateEntry.

(** [typeof result === "number" ? result : 0] *)
Definition numberOrZero (result : JsValue) : Z :=
  match result with
  | JNumber n => n
  | _ => 0
  end.

Definition batchDeletePermissionSets (ids : list string) : M S Z :=
  if Nat.eqb (List.length ids) 0 then ret 0
  else
    tryCatch
      (withOptionalTransaction adapter
         (_ <- callDeleteMany adapter "userPermissionSet" [WhereIn "permissionSetId" ids] ;;
          _ <- callDeleteMany adapter "memberPermissionSet" [WhereIn "permissionSetId" ids] ;;
          _ <- callDeleteMany adapter "permissionPermissionSet"
                              [WhereIn "permissionSetId" ids] ;;
          result <- callDeleteMany adapter "permissionSet" [WhereIn "id" ids] ;;
          ret (numberOrZero result)))
      rethrowClassified.

Definition deletePermissionSet (id : string) : M S Z :=
  tryCatch
    (withOptionalTransaction adapter
       (_ <- callDeleteMany adapter "userPermissionSet" [WhereEq "permissionSetId" id] ;;
        _ <- callDeleteMany adapter "memberPermissionSet" [WhereEq "permissionSetId" id] ;;
        _ <- callDeleteMany adapter "permissionPermissionSet"
                            [WhereEq "permissionSetId" id] ;;
        result <- callDeleteMany adapter "permissionSet" [WhereEq "id" id] ;;
        ret (numberOrZero result)))
    rethrowClassified.

End BatchAdapterCode.

(** ** Building the ability *)

(** The calls made on CASL's [AbilityBuilder]: [can(action, subject,
    fields, conditions)] and
    [cannot(action, subject, fields, conditions).because(reason)]. *)
Inductive Registration : Type :=
| RegisterCan (action subject : string) (fields : option (list string))
              (conditions : option JsValue)
| RegisterCannot (action subject : string) (fields : option (list string))
                 (conditions : option JsValue) (reason : string).

Section CreateAbility.

Variable Mustache_render : string -> JsObject -> Outcome JsError JsValue.

(** The builder is CASL's: a registration returns or throws, and leaves
    the builder in some state [B]. *)
Context {B : Type}.
Variable register : Registration -> B -> Outcome JsError unit * B.

(** The builder with the registrations attempted on it so far. *)
Definition Building : Type := B * list Registration.

(** [applyPermissionRule(rule, can, cannot)]; [action] and [subject] are
    strings, so each of the two loops runs once. *)
Definition ruleRegistration (rule : Rule) : Registration :=
  let subj := if negb (String.eqb (CaslPermission.subject rule) "")
              then CaslPermission.subject rule else "all" in
  if CaslPermission.inverted rule
  then RegisterCannot (CaslPermission.action rule) subj (CaslPermission.fields rule)
                      (CaslPermission.conditions rule)
                      (match CaslPermission.reason rule with
                       | Some reason => reason
                       | None => ""
                       end)
  else RegisterCan (CaslPermission.action rule) subj (CaslPermission.fields rule)
                   (CaslPermission.conditions rule).

Definition applyPermissionRule (rule : Rule) (building : Building)
  : Outcome JsError unit * Building :=
  let '(builder, attempted) := building in
  let '(r, builder') := register (ruleRegistration rule) builder in
  (r, (builder', attempted ++ [ruleRegistration rule])).

(** One turn of the loop over the permissions, with its [try]/[catch]. *)
Definition processPermission (sanitizedContext : option JsObject) (building : Building)
    (permission : Rule) : Building :=
  match
    match sanitizedContext with
    | Some context => interpolateConditions Mustache_render permission context
    | None => Returned permission
    end
  with
  | Returned rule => snd (applyPermissionRule rule building)
  | Thrown _ => building
  end.

(** [createAbilityFromPermissions(permissions, context)] up to the final
    [build()]: the builder as the loop leaves it. *)
Definition createAbilityFromPermissions (permissions : list Rule)
    (context : option JsObject) (building : Building) : Building :=
  let sanitizedContext :=
    match context with
    | Some context => Some (sanitizedContext (validateAndSanitizeContext context))
    | None => None
    end in
  fold_left (processPermission sanitizedContext) permissions building.

End CreateAbility.

(** ** Pagination of the permission listing *)

Record Pagination : Type := {
  currentPage : Z;
  hasNext : bool;
  hasPrev : bool;
  total : Z;
  totalPages : Z
}.

(** [(currentPage - 1) * limit], the offset handed to [findMany]. *)
Definition pageOffset (currentPage limit : Z) : Z := (currentPage - 1) * limit.

(** The [pagination] object of [getPermissionsByOrganizationId] and
    [getPermissionsWith], for integers; [Math.ceil(total / limit)] is the
    least integer not below the quotient. [None] when [limit] is zero:
    the quotient is then [Infinity] or [NaN]. *)
Definition paginationOf (currentPage limit total : Z) : option Pagination :=
  if limit =? 0 then None
  else
    let totalPages := - ((- total) / limit) in
    Some {| currentPage := currentPage;
            hasNext := currentPage <? totalPages;
            hasPrev := 1 <? currentPage;
            total := total;
            totalPages := totalPages |}.

(** ** Collecting the permissions of a user and of a member *)

Inductive AuthorizationMode : Type :=
| ModeUser
| ModeMember
| ModeBoth.

(** [{ ...p, source: s }] *)
Definition withSource (p : Rule) (s : PermissionSource) : Rule :=
  {| CaslPermission.action := CaslPermission.action p;
     CaslPermission.conditions := CaslPermission.conditions p;
     CaslPermission.createdAt := CaslPermission.createdAt p;
     CaslPermission.expiresAt := CaslPermission.expiresAt p;
     CaslPermission.fields := CaslPermission.fields p;
     CaslPermission.id := CaslPermission.id p;
     CaslPermission.inverted := CaslPermission.inverted p;
     CaslPermission.name := CaslPermission.name p;
     CaslPermission.organizationId := CaslPermission.organizationId p;
     CaslPermission.reason := CaslPermission.reason p;
     CaslPermission.source := s;
     CaslPermission.subject := CaslPermission.subject p;
     CaslPermission.updatedAt := CaslPermission.updatedAt p |}.

(** The reads of the [AuthorizationAdapter] that [fetchSortedPermissions]
    may issue. *)
Inductive PermissionRead : Type :=
| ReadUserPermissions (userId : string)
| ReadUserPermissionSets (userId : string)
| ReadMemberPermissions (memberId : string)
| ReadMemberPermissionSets (memberId : string)
| ReadPermissionsForPermissionSets (permissionSetIds : list string).

(** The part of the [AuthorizationAdapter] that is read here. A stored
    permission [P] is a [Permission<O>]; the rows of the two junction
    relations are given by their [permissionSetId]. *)
Record AuthorizationAdapter (P : Type) : Type := {
  getUserPermissions : string -> Outcome JsError (list Rule);
  getUserPermissionSets : string -> Outcome JsError (list string);
  getMemberPermissions : string -> Outcome JsError (list Rule);
  getMemberPermissionSets : string -> Outcome JsError (list string);
  batchGetPermissionsForPermissionSets :
    list string -> Outcome JsError (list (string * list P))
}.
Arguments getUserPermissions {P} _ _.
Arguments getUserPermissionSets {P} _ _.
Arguments getMemberPermissions {P} _ _.
Arguments getMemberPermissionSets {P} _ _.
Arguments batchGetPermissionsForPermissionSets {P} _ _.

(** Reads in sequence: the reads issued so far, and exceptions. *)
Definition Reading (A : Type) : Type :=
  list PermissionRead -> Outcome JsError A * list PermissionRead.

Definition readRet {A : Type} (a : A) : Reading A := fun issued => (Returned a, issued).

Definition readBind {A B : Type} (m : Reading A) (k : A -> Reading B) : Reading B :=
  fun issued =>
    match m issued with
    | (Returned a, issued') => k a issued'
    | (Thrown e, issued') => (Thrown e, issued')
    end.

Definition awaitRead {A : Type} (call : PermissionRead) (result : Outcome JsError A)
  : Reading A :=
  fun issued => (result, issued ++ [call]).

(** A string that is present and not empty. *)
Definition truthyString (s : option string) : bool :=
  match s with
  | Some text => negb (String.eqb text "")
  | None => false
  end.

(** [mode === m] *)
Definition modeIs (mode : option AuthorizationMode) (m : AuthorizationMode) : bool :=
  match mode, m with
  | Some ModeUser, ModeUser | Some ModeMember, ModeMember | Some ModeBoth, ModeBoth => true
  | _, _ => false
  end.

Section FetchSortedPermissions.
Variable localeCompare : string -> string -> Z.
Context {P : Type}.
(** [p.id] of a stored permission *)
Variable getId : P -> string.
(** The object literal
    [{ ...p, fields: safeJSONParse(p.fields) ?? undefined,
       conditions: safeJSONParse(p.conditions) ?? undefined, source }]
    that turns a stored permission into a rule. *)
Variable fromStored : P -> PermissionSource -> Rule.
Variable adapter : AuthorizationAdapter P.

(** One of the two blocks of [fetchSortedPermissions]: what it pushes
    onto [allPermissions]. The record of arrays that the batch read
    returns is an object, hence truthy. *)
Definition collectPermissions (readPermissions : Reading (list Rule))
    (readPermissionSets : Reading (list string))
    (direct fromSet : PermissionSource) : Reading (list Rule) :=
  readBind readPermissions (fun permissions =>
  readBind readPermissionSets (fun permissionSetIds =>
  if 0 <? Z.of_nat (List.length permissionSetIds) then
    readBind (awaitRead (ReadPermissionsForPermissionSets permissionSetIds)
                        (batchGetPermissionsForPermissionSets adapter permissionSetIds))
             (fun batched =>
                readRet (map (fun p => withSource p direct) permissions
                         ++ map (fun p => fromStored p fromSet)
                                (flattenGroupedRecords getId batched)))
  else readRet (map (fun p => withSource p direct) permissions))).

(** [(mode === "user" || mode === "both") && userId], and the same for
    members. *)
Definition fetchSortedPermissions (mode : option AuthorizationMode)
    (userId memberId : option string) : Reading (list Rule) :=
  readBind
    (match userId with
     | Some user =>
         if (modeIs mode ModeUser || modeIs mode ModeBoth) && truthyString userId then
           collectPermissions
             (awaitRead (ReadUserPermissions user) (getUserPermissions adapter user))
             (awaitRead (ReadUserPermissionSets user) (getUserPermissionSets adapter user))
             USER_DIRECT USER_PERMISSION_SET
         else readRet []
     | None => readRet []
     end)
    (fun ofUser =>
  readBind
    (match memberId with
     | Some member =>
         if (modeIs mode ModeMember || modeIs mode ModeBoth) && truthyString memberId then
           collectPermissions
             (awaitRead (ReadMemberPermissions member) (getMemberPermissions adapter member))
             (awaitRead (ReadMemberPermissionSets member)
                        (getMemberPermissionSets adapter member))
             MEMBER_DIRECT MEMBER_PERMISSION_SET
         else readRet []
     | None => readRet []
     end)
    (fun ofMember =>
  readRet (sortPermissionsByPriority localeCompare (ofUser ++ ofMember)))).

End FetchSortedPermissions.

(** ** Route middleware *)

(** [Object.values(ROUTES)] *)
Definition routeValues : list string :=
  [ "/assign-members-to-permission"; "/assign-users-to-permission";
    "/create-permission"; "/create-permissions";
    "/delete-permission"; "/delete-permissions";
    "/download-permissions-csv"; "/get-permission"; "/list-permissions";
    "/remove-members-from-permission"; "/remove-users-from-permission";
    "/update-permission"; "/upload-permissions-csv";
    "/assign-members-to-permission-set"; "/assign-permissions-to-permission-set";
    "/assign-users-to-permission-set";
    "/create-permission-set"; "/create-permission-sets";
    "/delete-permission-set"; "/delete-permission-sets";
    "/download-permission-sets-csv"; "/get-permission-set"; "/list-permission-sets";
    "/remove-members-from-permission-set"; "/remove-permissions-from-permission-set";
    "/remove-users-from-permission-set";
    "/update-permission-set"; "/upload-permission-sets-csv";
    "/check-permission"; "/get-ability" ].

Definition MIDDLEWARE_MESSAGES_INVALID_SESSION : string :=
  "Valid session required for authorization".
Definition MIDDLEWARE_MESSAGES_INVALID_ORGANIZATION_CONTEXT : string :=
  "Active Organization context required for member-only authorization mode".
Definition MIDDLEWARE_MESSAGES_ACCESS_DENIED_ROUTE : string :=
  "Access denied for this route".
Definition MIDDLEWARE_MESSAGES_AUTHORIZATION_FAILED : string :=
  "Authorization failed".

(** [protectedRoutes: ProtectedRoutes[] | "all"] *)
Inductive ProtectedRoutes : Type :=
| ProtectAll
| ProtectListed (routes : list string).

(** [ability.can], as the route callback receives it. *)
Definition AbilityCan : Type := string -> SubjectInstance -> option string -> bool.

Record RouteMiddlewareConfig : Type := {
  callback : AbilityCan -> string -> Outcome JsError JsValue;
  protectedRoutes : ProtectedRoutes
}.

Record MiddlewareOptions : Type := {
  mode : option AuthorizationMode;
  routeMiddleware : option RouteMiddlewareConfig
}.

Record Member : Type := {
  memberId : string;
  memberOrganizationId : string;
  memberRole : string;
  memberUserId : string
}.

(** The session of the request: [session.session.userId],
    [session.session.activeOrganizationId] and [session.user]. *)
Record MiddlewareSession : Type := {
  sessionUserId : option string;
  activeOrganizationId : option string;
  sessionUser : option JsObject
}.

(** [o[key]]; [undefined] when the property is absent. *)
Fixpoint getProperty (o : JsObject) (key : string) : JsValue :=
  match o with
  | [] => JUndefined
  | (k, v) :: rest => if String.eqb k key then v else getProperty rest key
  end.

(** [{ ...target, ...source }] *)
Definition spread (target source : JsObject) : JsObject :=
  fold_left (fun acc entry => objSet acc (fst entry) (snd entry)) source target.

(** [protectedRoutes.includes(route)]: the method of the array, or the
    one of the string ["all"]. *)
Definition protectedRoutesIncludes (protected : ProtectedRoutes) (route : string) : bool :=
  match protected with
  | ProtectAll => includes "all" route
  | ProtectListed routes => existsb (String.eqb route) routes
  end.

(** [session.user?.isSuperAdmin] *)
Definition superAdminFlag (session : MiddlewareSession) : JsValue :=
  match sessionUser session with
  | Some user => getProperty user "isSuperAdmin"
  | None => JUndefined
  end.

Definition memberObject (member : Member) : JsValue :=
  JObject [("id", JString (memberId member));
           ("organizationId", JString (memberOrganizationId member));
           ("role", JString (memberRole member));
           ("userId", JString (memberUserId member))].

Section Middleware.
Context {Ability : Type}.

(** [ctx.context.adapter.findOne<Member>] on the member of a user in an
    organization. *)
Variable findMember : string -> string -> Outcome JsError (option Member).
(** [fetchSortedPermissions] on the authorization adapter of the
    request. *)
Variable fetchPermissions :
  option AuthorizationMode -> option string -> option string -> Outcome JsError (list Rule).
(** [createAbilityFromPermissions], which ends with the [build()] of
    CASL, and the [can] of the ability built. *)
Variable createAbility : list Rule -> JsObject -> Outcome JsError Ability.
Variable abilityCan : Ability -> AbilityCan.

Record AuthorizationContext : Type := {
  contextAbility : option Ability;
  contextMember : option Member
}.

(** The route decision at the head of the middleware:
    [shouldProtectRoute] and [routeCallback]. The left operand of [??]
    is a boolean, so the right one is never evaluated. *)
Definition routeDecision (options : MiddlewareOptions) (route : string)
  : bool * option (AbilityCan -> string -> Outcome JsError JsValue) :=
  let isAuthRoute := existsb (String.eqb route) routeValues in
  match routeMiddleware options with
  | Some config =>
      if isAuthRoute
      then (protectedRoutesIncludes (protectedRoutes config) route, Some (callback config))
      else (false, None)
  | None => (false, None)
  end.

Definition evaluationContext (session : MiddlewareSession) (userId : string)
    (member : option Member) : JsObject :=
  [("member", match member with
              | Some m => memberObject m
              | None => JUndefined
              end);
   ("organization", if truthyString (activeOrganizationId session)
                    then JObject [("id", JString (match activeOrganizationId session with
                                                  | Some organization => organization
                                                  | None => ""
                                                  end))]
                    else JUndefined);
   ("user", JObject (spread [("id", JString userId)]
                            (match sessionUser session with
                             | Some user => user
                             | None => []
                             end)))].

(** The handler of [createAuthorizationMiddleware(options)], on a
    request that carries a URL; [origin] is [ctx.context.baseURL]. *)
Definition authorizationMiddleware (options : MiddlewareOptions)
    (session : MiddlewareSession) (requestUrl origin : string)
  : Outcome JsError AuthorizationContext :=
  match sessionUserId session with
  | None => Thrown (APIError "UNAUTHORIZED" MIDDLEWARE_MESSAGES_INVALID_SESSION)
  | Some userId =>
      if negb (truthyString (sessionUserId session))
      then Thrown (APIError "UNAUTHORIZED" MIDDLEWARE_MESSAGES_INVALID_SESSION)
      else
        let route := replaceFirst requestUrl origin "" in
        let '(shouldProtectRoute, routeCallback) := routeDecision options route in
        if (negb shouldProtectRoute || truthy (superAdminFlag session))%bool
        then Returned {| contextAbility := None; contextMember := None |}
        else
          match
            match activeOrganizationId session with
            | Some organization =>
                if truthyString (activeOrganizationId session)
                then findMember userId organization
                else Returned None
            | None => Returned None
            end
          with
          | Thrown e => Thrown e
          | Returned member =>
              if (modeIs (mode options) ModeMember
                  && match member with Some _ => false | None => true end)%bool
              then Thrown (APIError "FORBIDDEN"
                                    MIDDLEWARE_MESSAGES_INVALID_ORGANIZATION_CONTEXT)
              else
                match fetchPermissions (mode options) (Some userId)
                                       (match member with
                                        | Some m => Some (memberId m)
                                        | None => None
                                        end)
                with
                | Thrown e => Thrown e
                | Returned permissions =>
                    match createAbility permissions
                                        (evaluationContext session userId member)
                    with
                    | Thrown e => Thrown e
                    | Returned ability =>
                        let granted :=
                          Returned {| contextAbility := Some ability;
                                      contextMember := member |} in
                        match routeCallback with
                        | None => granted
                        | Some routeCallback =>
                            match routeCallback (abilityCan ability) route with
                            | Returned (JBool true) => granted
                            | Returned _ =>
                                Thrown (APIError "FORBIDDEN"
                                                 MIDDLEWARE_MESSAGES_ACCESS_DENIED_ROUTE)
                            | Thrown (APIError status message) =>
                                Thrown (APIError status message)
                            | Thrown _ =>
                                Thrown (APIError "FORBIDDEN"
                                                 MIDDLEWARE_MESSAGES_AUTHORIZATION_FAILED)
                            end
                        end
                    end
                end
          end
  end.

End Middleware.

(** ** The ordering cascade as the specification words it

    Source rank, then allow before deny, then specificity, then timestamp,
    then the identifier: each comparator is consulted only when the
    previous ones report equality. *)

Definition specSourceRank (s : PermissionSource) : Z :=
  match s with
  | MEMBER_PERMISSION_SET => 1
  | MEMBER_DIRECT => 2
  | USER_PERMISSION_SET => 3
  | USER_DIRECT => 4
  end.

(** Allow ([inverted = false]) before deny ([inverted = true]). *)
Definition specDenyRank (p : Rule) : Z :=
  if CaslPermission.inverted p then 1 else 0.

(** [2·(conditions non-empty) + 1·(fields non-empty)] *)
Definition specSpecificity (p : Rule) : Z :=
  2 * (match CaslPermission.conditions p with
       | Some (JObject (_ :: _)) => 1
       | _ => 0
       end)
  + 1 * (match CaslPermission.fields p with
         | Some (_ :: _) => 1
         | _ => 0
         end).

(** [updatedAt] if present, else [createdAt]. *)
Definition specTimestamp (p : Rule) : Z :=
  match CaslPermission.updatedAt p with
  | Some updated => updated
  | None => CaslPermission.createdAt p
  end.

Definition cascadeBefore (localeCompare : string -> string -> Z) (a b : Rule) : Prop :=
  let ra := specSourceRank (CaslPermission.source a) in
  let rb := specSourceRank (CaslPermission.source b) in
  ra < rb
  \/ (ra = rb
      /\ (specDenyRank a < specDenyRank b
          \/ (specDenyRank a = specDenyRank b
              /\ (specSpecificity a < specSpecificity b
                  \/ (specSpecificity a = specSpecificity b
                      /\ (specTimestamp a < specTimestamp b
                          \/ (specTimestamp a = specTimestamp b
                              /\ localeCompare (CaslPermission.id a) (CaslPermission.id b)
                                 <= 0))))))).

(** The type of [conditions]: absent, or a record. *)
Definition conditionsAreRecord (p : Rule) : Prop :=
  match CaslPermission.conditions p with
  | None | Some (JObject _) => True
  | Some _ => False
  end.

(** A consistent comparator on identifiers, as [localeCompare] is for a
    fixed locale. *)
Record ConsistentComparator (localeCompare : string -> string -> Z) : Prop := {
  compare_antisymmetric : forall a b, Z.sgn (localeCompare b a) = - Z.sgn (localeCompare a b);
  compare_transitive : forall a b c,
    localeCompare a b <= 0 -> localeCompare b c <= 0 -> localeCompare a c <= 0
}.

(** Comparison by code units: the collation of identifiers written in
    digits or in letters of one case. *)
Fixpoint codeUnitCompare (a b : string) : Z :=
  match a, b with
  | EmptyString, EmptyString => 0
  | EmptyString, String _ _ => -1
  | String _ _, EmptyString => 1
  | String x a', String y b' =>
      let d := Z.of_nat (nat_of_ascii x) - Z.of_nat (nat_of_ascii y) in
      if d =? 0 then codeUnitCompare a' b' else d
  end.

(** Rules used in the examples. *)
Definition exampleRule (id name : string) (source : PermissionSource) (inverted : bool)
  : Rule :=
  {| CaslPermission.action := "read";
     CaslPermission.conditions := None;
     CaslPermission.createdAt := 1704067200000;
     CaslPermission.expiresAt := None;
     CaslPermission.fields := None;
     CaslPermission.id := id;
     CaslPermission.inverted := inverted;
     CaslPermission.name := name;
     CaslPermission.organizationId := None;
     CaslPermission.reason := Some "";
     CaslPermission.source := source;
     CaslPermission.subject := "post";
     CaslPermission.updatedAt := None |}.

(** The variable names the interpolator refuses, as the specification
    lists them: a blacklisted name, a path-traversal sequence, or call or
    subscript syntax. *)
Definition forbiddenSyntax (variable : string) : Prop :=
  includes variable ".." = true
  \/ includes variable "/" = true
  \/ includes variable "\" = true
  \/ includes variable "(" = true
  \/ includes variable ")" = true
  \/ includes variable "[" = true
  \/ includes variable "]" = true.

Definition rejectedVariable (variable : string) : Prop :=
  variable ∈ DISALLOWED_TEMPLATE_VARIABLES \/ forbiddenSyntax variable.

(** ** Vocabulary of the properties *)

(** [x] may stand before [y] under the comparator. *)
Definition notAfter {T : Type} (comparefn : T -> T -> Z) (x y : T) : Prop :=
  comparefn x y <= 0.

(** The comparator, read as the lexicographic order of its five keys. *)
Definition comparatorKeysBefore (localeCompare : string -> string -> Z) (a b : Rule) : Prop :=
  let s x := sourcePriority (CaslPermission.source x) in
  let d x := if CaslPermission.inverted x then 1 else 0 in
  s a < s b
  \/ (s a = s b
      /\ (d a < d b
          \/ (d a = d b
              /\ (getSpecificity a < getSpecificity b
                  \/ (getSpecificity a = getSpecificity b
                      /\ (getTimestamp a < getTimestamp b
                          \/ (getTimestamp a = getTimestamp b
                              /\ localeCompare (CaslPermission.id a) (CaslPermission.id b)
                                 <= 0))))))).

(** No row of [rows] holds one of [ids] in [field]. *)
Definition noRowWith (field : string) (ids : list string) (rows : list Row) : Prop :=
  forall r id, In r rows -> In id ids -> r !! field <> Some id.

(** The state a cascade over [ids] must reach. *)
Definition permissionsGone {S : Type} (rowsOf : S -> string -> list Row)
    (ids : list string) (s : S) : Prop :=
  noRowWith "permissionId" ids (rowsOf s "userPermission")
  /\ noRowWith "permissionId" ids (rowsOf s "memberPermission")
  /\ noRowWith "permissionId" ids (rowsOf s "permissionPermissionSet")
  /\ noRowWith "id" ids (rowsOf s "permission").



(** The pair of a user and a permission, and of a member and a
    permission, as the batch assignments write them. *)
Definition userPermissionData (permissionId userId : string) : Row :=
  {[ "permissionId" := permissionId; "userId" := userId ]}.


(** The rows of [rows] that none of the filters [whereOf id] selects. *)
Definition rowsOutside (whereOf : string -> list Where) (ids : list string)
    (rows : list Row) : list Row :=
  List.filter (fun r => negb (existsb (fun id => matchesAll (whereOf id) r) ids)) rows.

(** The rows the filter [clauses] does not select. *)
Definition rowsNotMatching (clauses : list Where) (rows : list Row) : list Row :=
  List.filter (fun r => negb (matchesAll clauses r)) rows.

(** The state a cascade over permission sets must reach. *)
Definition permissionSetsGone {S : Type} (rowsOf : S -> string -> list Row)
    (ids : list string) (s : S) : Prop :=
  noRowWith "permissionSetId" ids (rowsOf s "userPermissionSet")
  /\ noRowWith "permissionSetId" ids (rowsOf s "memberPermissionSet")
  /\ noRowWith "permissionSetId" ids (rowsOf s "permissionPermissionSet")
  /\ noRowWith "id" ids (rowsOf s "permissionSet").

(** No object inside [value], at any depth, has a dangerous key. *)
Fixpoint freeOfDangerousKeys (value : JsValue) : bool :=
  match value with
  | JArray items => forallb freeOfDangerousKeys items
  | JObject entries =>
      forallb (fun entry : string * JsValue =>
                 let '(key, val) := entry in
                 (negb (setHas DANGEROUS_TEMPLATE_KEYS key) && freeOfDangerousKeys val)%bool)
              entries
  | _ => true
  end.

(** The conditions a registration hands to the builder. *)
Definition registeredConditions (registration : Registration) : option JsValue :=
  match registration with
  | RegisterCan _ _ _ conditions => conditions
  | RegisterCannot _ _ _ conditions _ => conditions
  end.

(** A top-level entry of a context that the validator accepts. *)
Definition acceptedEntry (entry : string * JsValue) : bool :=
  let '(key, value) := entry in
  (negb (setHas DANGEROUS_TEMPLATE_KEYS key)
   && (isPlainObject value || isPrimitiveOrNull value))%bool.

(** An entry with a safe key whose value is a primitive, [null] or a
    plain object. *)
Definition safeEntry (entry : string * JsValue) : Prop :=
  setHas DANGEROUS_TEMPLATE_KEYS (fst entry) = false
  /\ (isPrimitiveOrNull (snd entry) = true \/ isPlainObject (snd entry) = true).

(** A top-level entry of a sanitized context: a safe key with a
    primitive or [null], or with an object of safe entries. *)
Definition cleanEntry (entry : string * JsValue) : Prop :=
  setHas DANGEROUS_TEMPLATE_KEYS (fst entry) = false
  /\ match snd entry with
     | JObject nested => Forall safeEntry nested
     | value => isPrimitiveOrNull value = true
     end.

(** The two sources of the user side; the other two are the member's. *)
Definition isUserSource (s : PermissionSource) : bool :=
  match s with
  | USER_DIRECT | USER_PERMISSION_SET => true
  | _ => false
  end.

(** The reads that name a user, and those that name a member. *)
Definition isUserRead (call : PermissionRead) : bool :=
  match call with
  | ReadUserPermissions _ | ReadUserPermissionSets _ => true
  | _ => false
  end.

Definition isMemberRead (call : PermissionRead) : bool :=
  match call with
  | ReadMemberPermissions _ | ReadMemberPermissionSets _ => true
  | _ => false
  end.


(** [run] removes from the relation [model] the rows that one of the
    filters [whereOf id] selects, and nothing else. *)
Definition RemovesExactly {S : Type} (rowsOf : S -> string -> list Row)
    (model : string) (whereOf : string -> list Where) (run : list string -> M S unit)
  : Prop :=
  forall ids w,
  exists w',
    run ids w = (Returned tt, w')
    /\ rowsOf (store w') model = rowsOutside whereOf ids (rowsOf (store w) model)
    /\ forall other, other <> model -> rowsOf (store w') other = rowsOf (store w) other.

(** ** Data of the examples *)

(** An ability that allows reading the title of a post and nothing else. *)
Definition titleOnlyAbility (action : string) (subject : SubjectInstance)
    (field : option string) : bool :=
  (String.eqb action "read" && String.eqb (fst subject) "post"
   && match field with
      | Some f => String.eqb f "title"
      | None => true
      end)%bool.

(** A rule of [USER_DIRECT] with the given field and condition
    restrictions and timestamps. *)
Definition specificRule (id name : string) (fields : option (list string))
    (conditions : option JsValue) (createdAt : Z) (updatedAt : option Z) : Rule :=
  {| CaslPermission.action := "read";
     CaslPermission.conditions := conditions;
     CaslPermission.createdAt := createdAt;
     CaslPermission.expiresAt := None;
     CaslPermission.fields := fields;
     CaslPermission.id := id;
     CaslPermission.inverted := false;
     CaslPermission.name := name;
     CaslPermission.organizationId := None;
     CaslPermission.reason := Some "";
     CaslPermission.source := USER_DIRECT;
     CaslPermission.subject := "post";
     CaslPermission.updatedAt := updatedAt |}.

(** One rule per source, as the handler may collect them. *)
Definition onePerSource : list Rule :=
  [ exampleRule "4" "user-direct" USER_DIRECT false;
    exampleRule "1" "member-permission-set" MEMBER_PERMISSION_SET false;
    exampleRule "3" "user-permission-set" USER_PERMISSION_SET false;
    exampleRule "2" "member-direct" MEMBER_DIRECT false ].

(** Two rules that tie on every key of the cascade and differ by name. *)
Definition tiedRules : list Rule :=
  [ exampleRule "1" "first" USER_DIRECT false;
    exampleRule "1" "second" USER_DIRECT false ].

Definition tiedRulesSwapped : list Rule :=
  [ exampleRule "1" "second" USER_DIRECT false;
    exampleRule "1" "first" USER_DIRECT false ].

(** The pair of a user and a permission, as a junction row. *)
Definition userPermissionPair : Row :=
  {[ "permissionId" := "p1"; "userId" := "u1" ]}.

Definition emptyWorld : World MemoryStore := {| store := ∅; calls := [] |}.

(** A store in which permission [p1] is assigned to a user, to a member
    and to a permission set, next to an unrelated permission [p2]. *)
Definition seededStore : MemoryStore :=
  {[ "permission" := [ {[ "id" := "p1" ]}; {[ "id" := "p2" ]} ] : list Row;
     "userPermission" := [ {[ "permissionId" := "p1"; "userId" := "u1" ]};
                           {[ "permissionId" := "p2"; "userId" := "u1" ]} ] : list Row;
     "memberPermission" := [ {[ "permissionId" := "p1"; "memberId" := "m1" ]} ] : list Row;
     "permissionPermissionSet" :=
       [ {[ "permissionId" := "p1"; "permissionSetId" := "s1" ]} ] : list Row ]}.

Definition seededWorld : World MemoryStore := {| store := seededStore; calls := [] |}.

(** The memory adapter with a [deleteMany] that fails on the relation
    [broken]. *)
Definition failingAdapter (broken : string) (withTransaction : bool)
  : Adapter MemoryStore :=
  {| adapter_create := memoryCreate;
     adapter_deleteMany := fun model clauses s =>
       if String.eqb model broken then (Thrown (RawError "connection reset"), s)
       else adapter_deleteMany (memoryAdapter withTransaction) model clauses s;
     adapter_delete := adapter_delete (memoryAdapter withTransaction);
     hasTransaction := withTransaction |}.

(** A store with two permission sets, the first assigned to a user and
    holding permission [p1]. *)
Definition seededSetStore : MemoryStore :=
  {[ "permission" := [ {[ "id" := "p1" ]} ] : list Row;
     "permissionSet" := [ {[ "id" := "s1" ]}; {[ "id" := "s2" ]} ] : list Row;
     "userPermissionSet" :=
       [ {[ "permissionSetId" := "s1"; "userId" := "u1" ]};
         {[ "permissionSetId" := "s2"; "userId" := "u1" ]} ] : list Row;
     "permissionPermissionSet" :=
       [ {[ "permissionId" := "p1"; "permissionSetId" := "s1" ]} ] : list Row ]}.

Definition seededSetWorld : World MemoryStore := {| store := seededSetStore; calls := [] |}.

(** A templating engine that answers only for templates that passed the
    validation. *)
Definition guardedRender (template : string) (view : JsObject) : Outcome JsError JsValue :=
  match validateTemplateVariables template with
  | [] => Returned (JString "rendered")
  | _ :: _ => Thrown (RawError "unvalidated template")
  end.

(** A builder that refuses rules on the subject [secret]. *)
Definition pickyRegister (registration : Registration) (count : nat)
  : Outcome JsError unit * nat :=
  match registration with
  | RegisterCan _ "secret" _ _ | RegisterCannot _ "secret" _ _ _ =>
      (Thrown (RawError "refused"), count)
  | _ => (Returned tt, Datatypes.S count)
  end.

(** An adapter over fixed data: user [u1] holds one permission directly
    (read with a source that the collection overwrites) and belongs to
    the sets [s1] and [s2], which share a permission; member [m1] holds
    one permission directly. *)
Definition exampleAuthorizationAdapter : AuthorizationAdapter (string * string) :=
  {| getUserPermissions := fun userId =>
       Returned (if String.eqb userId "u1"
                 then [exampleRule "p1" "direct" MEMBER_DIRECT false] else []);
     getUserPermissionSets := fun userId =>
       Returned (if String.eqb userId "u1" then ["s1"; "s2"] else []);
     getMemberPermissions := fun memberId =>
       Returned (if String.eqb memberId "m1"
                 then [exampleRule "p9" "member" MEMBER_DIRECT false] else []);
     getMemberPermissionSets := fun _ => Returned [];
     batchGetPermissionsForPermissionSets := fun _ =>
       Returned [("s1", [("p2", "shared")]); ("s2", [("p2", "shared"); ("p3", "extra")])] |}.

(** Stored permissions of the example: an identifier and a name. *)
Definition exampleFromStored (p : string * string) (s : PermissionSource) : Rule :=
  exampleRule (fst p) (snd p) s false.

(** A configuration whose callback asks the ability whether posts may
    be read, over the given protected routes. *)
Definition exampleRouteMiddleware (protected : ProtectedRoutes) : MiddlewareOptions :=
  {| mode := Some ModeUser;
     routeMiddleware :=
       Some {| callback := fun can _ => Returned (JBool (can "read" ("post", None) None));
               protectedRoutes := protected |} |}.

(** The session of user [u1], outside any organization. *)
Definition exampleSession : MiddlewareSession :=
  {| sessionUserId := Some "u1";
     activeOrganizationId := None;
     sessionUser := Some [("id", JString "u1")] |}.

(** An ability that allows nothing. *)
Definition denyingAbility (action : string) (subject : SubjectInstance)
    (field : option string) : bool := false.

(** A store that enforces the references of the schema: an insert whose
    [permissionId] names no row of [permission] fails with the message of
    SQLite for a violated reference. *)
Definition referencingCreate (model : string) (data : Row) (s : MemoryStore)
  : Outcome JsError Row * MemoryStore :=
  match data !! "permissionId" with
  | Some id =>
      if existsb (fun row => bool_decide (row !! "id" = Some id)) (memoryRows s "permission")
      then memoryCreate model data s
      else (Thrown (RawError "FOREIGN KEY constraint failed"), s)
  | None => memoryCreate model data s
  end.

Definition referencingAdapter (withTransaction : bool) : Adapter MemoryStore :=
  {| adapter_create := referencingCreate;
     adapter_deleteMany := adapter_deleteMany (memoryAdapter withTransaction);
     adapter_delete := adapter_delete (memoryAdapter withTransaction);
     hasTransaction := withTransaction |}.

(** A store as the schema of the plugin declares it, where no junction
    relation has a uniqueness constraint: every insert appends its row. *)
Definition plainCreate (model : string) (data : Row) (s : MemoryStore)
  : Outcome JsError Row * MemoryStore :=
  (Returned data, <[ model := memoryRows s model ++ [data] ]> s).

Definition plainAdapter (withTransaction : bool) : Adapter MemoryStore :=
  {| adapter_create := plainCreate;
     adapter_deleteMany := adapter_deleteMany (memoryAdapter withTransaction);
     adapter_delete := adapter_delete (memoryAdapter withTransaction);
     hasTransaction := withTransaction |}.

(** The pair of a user and a permission that does not exist. *)
Definition danglingPair : Row :=
  {[ "permissionId" := "p9"; "userId" := "u1" ]}.

(* ===================================================================== *)
(** * Part II. Properties *)
(* ===================================================================== *)

(** ** Priority sorter *)

Section ArraySortProperties.
Context {T : Type}.
Variable comparefn : T -> T -> Z.

Hypothesis comparefn_total :
  forall x y, notAfter comparefn x y \/ notAfter comparefn y x.
Hypothesis comparefn_transitive :
  forall x y z, notAfter comparefn x y -> notAfter comparefn y z -> notAfter comparefn x z.

Lemma insertSorted_permutation (x : T) (sorted : list T) :
  Permutation (insertSorted comparefn x sorted) (x :: sorted).
Proof.
  induction sorted as [|y rest IH]; simpl.
  - reflexivity.
  - destruct (comparefn x y <=? 0).
    + reflexivity.
    + rewrite IH. apply perm_swap.
Qed.

Lemma arraySort_permutation (array : list T) :
  Permutation (arraySort comparefn array) array.
Proof.
  induction array as [|x array IH]; simpl.
  - reflexivity.
  - rewrite insertSorted_permutation. by constructor.
Qed.

Lemma insertSorted_sorted (x : T) (sorted : list T) :
  StronglySorted (notAfter comparefn) sorted ->
  StronglySorted (notAfter comparefn) (insertSorted comparefn x sorted).
Proof.
  induction 1 as [|y rest Hrest IH Hy]; simpl.
  - repeat constructor.
  - destruct (Z.leb_spec (comparefn x y) 0) as [Hle|Hgt].
    + constructor; [by constructor|]. constructor; [exact Hle|].
      eapply Forall_impl; [exact Hy|]. intros z Hz.
      by apply (comparefn_transitive x y z).
    + constructor; [exact IH|].
      rewrite insertSorted_permutation. constructor; [|exact Hy].
      destruct (comparefn_total x y) as [Hxy|Hyx]; [unfold notAfter in Hxy; lia|exact Hyx].
Qed.

Lemma arraySort_sorted (array : list T) :
  StronglySorted (notAfter comparefn) (arraySort comparefn array).
Proof.
  induction array as [|x array IH]; simpl.
  - constructor.
  - by apply insertSorted_sorted.
Qed.

End ArraySortProperties.

Section ArraySortStability.
Context {T : Type}.
Variable comparefn : T -> T -> Z.

(** A sorted array is left as it is, ties included. *)
Lemma arraySort_of_sorted (array : list T) :
  StronglySorted (notAfter comparefn) array -> arraySort comparefn array = array.
Proof.
  induction 1 as [|x rest Hrest IH Hx]; simpl.
  - reflexivity.
  - rewrite IH. destruct rest as [|y rest']; [reflexivity|]. simpl.
    apply Forall_cons in Hx as [Hxy _]. unfold notAfter in Hxy.
    destruct (Z.leb_spec (comparefn x y) 0); [reflexivity|lia].
Qed.

End ArraySortStability.

Lemma StronglySorted_weaken {T : Type} (R R' : T -> T -> Prop) (P : T -> Prop)
    (l : list T) :
  StronglySorted R l -> Forall P l ->
  (forall x y, P x -> P y -> R x y -> R' x y) ->
  StronglySorted R' l.
Proof.
  intros Hsorted Hall Himpl.
  induction Hsorted as [|x rest Hrest IH Hx]; constructor.
  - apply IH. by apply Forall_cons in Hall as [_ ?].
  - apply Forall_cons in Hall as [Hpx Hrest'].
    rewrite Forall_forall in Hx, Hrest'. apply Forall_forall. intros y Hy.
    apply Himpl; auto.
Qed.

Lemma getSpecificity_spec (p : Rule) :
  conditionsAreRecord p -> getSpecificity p = specSpecificity p.
Proof.
  unfold conditionsAreRecord, getSpecificity, specSpecificity.
  destruct (CaslPermission.conditions p) as [[| | | | | |entries|]|];
    try contradiction; intros _;
    destruct (CaslPermission.fields p) as [[|f fs]|];
    try destruct entries; simpl; try reflexivity; lia.
Qed.

Section SorterProperties.
Variable localeCompare : string -> string -> Z.
Hypothesis consistent : ConsistentComparator localeCompare.

Lemma comparePermissions_keys (a b : Rule) :
  comparePermissions localeCompare a b <= 0 <-> comparatorKeysBefore localeCompare a b.
Proof.
  unfold comparePermissions, comparatorKeysBefore.
  destruct (Z.eqb_spec (sourcePriority (CaslPermission.source a))
                       (sourcePriority (CaslPermission.source b))) as [Hs|Hs];
    simpl; [|lia].
  destruct (CaslPermission.inverted a), (CaslPermission.inverted b); simpl; try lia;
    (destruct (Z.eqb_spec (getSpecificity a) (getSpecificity b)) as [Hp|Hp];
     simpl; [|lia];
     destruct (Z.eqb_spec (getTimestamp a) (getTimestamp b)) as [Ht|Ht];
     simpl; [|lia]; intuition lia).
Qed.

Lemma comparePermissions_antisymmetric (a b : Rule) :
  Z.sgn (comparePermissions localeCompare b a)
  = - Z.sgn (comparePermissions localeCompare a b).
Proof.
  unfold comparePermissions.
  rewrite (Z.eqb_sym (sourcePriority (CaslPermission.source b))).
  destruct (Z.eqb_spec (sourcePriority (CaslPermission.source a))
                       (sourcePriority (CaslPermission.source b))) as [Hs|Hs];
    simpl; [|lia].
  destruct (CaslPermission.inverted a), (CaslPermission.inverted b); simpl; try lia;
    (rewrite (Z.eqb_sym (getSpecificity b));
     destruct (Z.eqb_spec (getSpecificity a) (getSpecificity b)) as [Hp|Hp];
     simpl; [|lia];
     rewrite (Z.eqb_sym (getTimestamp b));
     destruct (Z.eqb_spec (getTimestamp a) (getTimestamp b)) as [Ht|Ht];
     simpl; [|lia]; apply (compare_antisymmetric _ consistent)).
Qed.

Lemma comparePermissions_total (a b : Rule) :
  notAfter (comparePermissions localeCompare) a b
  \/ notAfter (comparePermissions localeCompare) b a.
Proof.
  unfold notAfter. pose proof (comparePermissions_antisymmetric a b). lia.
Qed.

Lemma comparePermissions_transitive (a b c : Rule) :
  notAfter (comparePermissions localeCompare) a b ->
  notAfter (comparePermissions localeCompare) b c ->
  notAfter (comparePermissions localeCompare) a c.
Proof.
  unfold notAfter. rewrite !comparePermissions_keys. unfold comparatorKeysBefore.
  intros Hab Hbc.
  assert (Hid : localeCompare (CaslPermission.id a) (CaslPermission.id b) <= 0 ->
                localeCompare (CaslPermission.id b) (CaslPermission.id c) <= 0 ->
                localeCompare (CaslPermission.id a) (CaslPermission.id c) <= 0)
    by apply (compare_transitive _ consistent).
  destruct (CaslPermission.inverted a), (CaslPermission.inverted b),
    (CaslPermission.inverted c); intuition lia.
Qed.

Lemma comparePermissions_cascade (a b : Rule) :
  conditionsAreRecord a -> conditionsAreRecord b ->
  notAfter (comparePermissions localeCompare) a b -> cascadeBefore localeCompare a b.
Proof.
  intros Ha Hb. unfold notAfter. rewrite comparePermissions_keys.
  unfold comparatorKeysBefore, cascadeBefore, specDenyRank, specTimestamp.
  rewrite <- (getSpecificity_spec a Ha), <- (getSpecificity_spec b Hb).
  tauto.
Qed.

(** C1. The sorter returns the rules it was given, arranged so that any
    rule stands before every later one in the cascade: source rank, then
    allow before deny, then specificity, then timestamp, then identifier. *)
Theorem sortPermissionsByPriority_cascade (permissions : list Rule) :
  Forall conditionsAreRecord permissions ->
  Permutation (sortPermissionsByPriority localeCompare permissions) permissions
  /\ StronglySorted (cascadeBefore localeCompare)
                    (sortPermissionsByPriority localeCompare permissions).
Proof.
  intros Htyped. unfold sortPermissionsByPriority.
  pose proof (arraySort_permutation (comparePermissions localeCompare) permissions) as Hperm.
  split; [exact Hperm|].
  pose proof (arraySort_sorted (comparePermissions localeCompare)
                comparePermissions_total comparePermissions_transitive permissions)
    as Hsorted.
  assert (Htyped' : Forall conditionsAreRecord
                           (arraySort (comparePermissions localeCompare) permissions))
    by (by rewrite Hperm).
  eapply StronglySorted_weaken; [exact Hsorted|exact Htyped'|].
  intros x y Hx Hy. by apply comparePermissions_cascade.
Qed.

End SorterProperties.

Lemma codeUnitCompare_consistent : ConsistentComparator codeUnitCompare.
Proof.
  split.
  - induction a as [|x a IH]; destruct b as [|y b]; simpl; try reflexivity.
    destruct (Z.eqb_spec (Z.of_nat (nat_of_ascii x) - Z.of_nat (nat_of_ascii y)) 0),
      (Z.eqb_spec (Z.of_nat (nat_of_ascii y) - Z.of_nat (nat_of_ascii x)) 0);
      try lia. apply IH.
  - induction a as [|x a IH]; destruct b as [|y b]; destruct c as [|z c]; simpl;
      try lia.
    destruct (Z.eqb_spec (Z.of_nat (nat_of_ascii x) - Z.of_nat (nat_of_ascii y)) 0),
      (Z.eqb_spec (Z.of_nat (nat_of_ascii y) - Z.of_nat (nat_of_ascii z)) 0),
      (Z.eqb_spec (Z.of_nat (nat_of_ascii x) - Z.of_nat (nat_of_ascii z)) 0);
      try lia. apply IH.
Qed.

Lemma sortPermissionsByPriority_cascade_witness :
  Forall conditionsAreRecord onePerSource
  /\ Permutation (sortPermissionsByPriority codeUnitCompare onePerSource) onePerSource
  /\ StronglySorted (cascadeBefore codeUnitCompare)
                    (sortPermissionsByPriority codeUnitCompare onePerSource).
Proof.
  assert (Htyped : Forall conditionsAreRecord onePerSource)
    by (repeat constructor).
  split; [exact Htyped|].
  exact (sortPermissionsByPriority_cascade codeUnitCompare codeUnitCompare_consistent
           onePerSource Htyped).
Defined.

Example sortPermissionsByPriority_source_ranking :
  map CaslPermission.source (sortPermissionsByPriority codeUnitCompare onePerSource)
  = [MEMBER_PERMISSION_SET; MEMBER_DIRECT; USER_PERMISSION_SET; USER_DIRECT].
Proof. vm_compute. reflexivity. Qed.

Example sortPermissionsByPriority_allow_before_deny :
  map CaslPermission.inverted
      (sortPermissionsByPriority codeUnitCompare
         [exampleRule "2" "deny-rule" USER_DIRECT true;
          exampleRule "1" "allow-rule" USER_DIRECT false])
  = [false; true].
Proof. vm_compute. reflexivity. Qed.

Example sortPermissionsByPriority_general_before_specific :
  map CaslPermission.name
      (sortPermissionsByPriority codeUnitCompare
         [specificRule "2" "specific-with-conditions" None
                       (Some (JObject [("authorId", JString "{{user.id}}")]))
                       1704067200000 None;
          specificRule "3" "specific-with-fields" (Some ["title"; "content"]) None
                       1704067200000 None;
          specificRule "1" "general-rule" None None 1704067200000 None])
  = ["general-rule"; "specific-with-fields"; "specific-with-conditions"].
Proof. vm_compute. reflexivity. Qed.

Example sortPermissionsByPriority_older_first_then_id :
  map CaslPermission.name
      (sortPermissionsByPriority codeUnitCompare
         [specificRule "b" "newer" None None 1704153600000 None;
          specificRule "c" "updated-last" None None 1704067200000 (Some 1704240000000);
          specificRule "a2" "older-second-id" None None 1704067200000 None;
          specificRule "a1" "older-first-id" None None 1704067200000 None])
  = ["older-first-id"; "older-second-id"; "newer"; "updated-last"].
Proof. vm_compute. reflexivity. Qed.

(** The sort is stable: rules that tie keep the order they came in. *)
Lemma sortPermissionsByPriority_keeps_ties :
  Permutation tiedRules tiedRulesSwapped
  /\ sortPermissionsByPriority codeUnitCompare tiedRulesSwapped
     <> sortPermissionsByPriority codeUnitCompare tiedRules.
Proof.
  split.
  - apply perm_swap.
  - vm_compute. discriminate.
Qed.

Section SorterOrderIndependence.
Variable localeCompare : string -> string -> Z.
Hypothesis consistent : ConsistentComparator localeCompare.

Lemma comparePermissions_tie (a b : Rule) :
  notAfter (comparePermissions localeCompare) a b ->
  notAfter (comparePermissions localeCompare) b a ->
  comparePermissions localeCompare a b = 0.
Proof.
  unfold notAfter.
  pose proof (comparePermissions_antisymmetric localeCompare consistent a b). lia.
Qed.

(** C2, amended. Sorting a sorted list changes nothing; and when no two
    different rules of the list tie under the comparator, every
    permutation of the list is sorted to the same result. *)
Theorem sortPermissionsByPriority_order_independent (R P : list Rule) :
  sortPermissionsByPriority localeCompare (sortPermissionsByPriority localeCompare R)
  = sortPermissionsByPriority localeCompare R
  /\ ((forall a b, In a R -> In b R ->
                   comparePermissions localeCompare a b = 0 -> a = b) ->
      Permutation R P ->
      sortPermissionsByPriority localeCompare P = sortPermissionsByPriority localeCompare R).
Proof.
  unfold sortPermissionsByPriority.
  assert (Hsorted : forall l,
             StronglySorted (notAfter (comparePermissions localeCompare))
                            (arraySort (comparePermissions localeCompare) l)).
  { intros l. apply arraySort_sorted.
    - apply comparePermissions_total, consistent.
    - apply comparePermissions_transitive, consistent. }
  split.
  - apply arraySort_of_sorted, Hsorted.
  - intros Hties Hperm.
    apply (StronglySorted_unique_strong (notAfter (comparePermissions localeCompare)));
      try apply Hsorted.
    + intros x1 x2 Hx1 Hx2 H12 H21.
      apply Hties.
      * apply list_elem_of_In. rewrite Hperm.
        by rewrite <- (arraySort_permutation (comparePermissions localeCompare) P).
      * apply list_elem_of_In.
        by rewrite <- (arraySort_permutation (comparePermissions localeCompare) R).
      * by apply comparePermissions_tie.
    + rewrite !arraySort_permutation. by symmetry.
Qed.

End SorterOrderIndependence.

Lemma sortPermissionsByPriority_order_independent_witness :
  Permutation onePerSource (rev onePerSource)
  /\ sortPermissionsByPriority codeUnitCompare (rev onePerSource)
     = sortPermissionsByPriority codeUnitCompare onePerSource.
Proof.
  assert (Hperm : Permutation onePerSource (rev onePerSource))
    by apply Permutation_rev.
  split; [exact Hperm|].
  apply (proj2 (sortPermissionsByPriority_order_independent
                  codeUnitCompare codeUnitCompare_consistent
                  onePerSource (rev onePerSource))); [|exact Hperm].
  intros a b Ha Hb.
  repeat (destruct Ha as [<-|Ha]; [|try contradiction]);
    repeat (destruct Hb as [<-|Hb]; [|try contradiction]);
    first [ reflexivity | intros Htie; vm_compute in Htie; discriminate Htie ].
Defined.

(** ** Context sanitizer *)

Lemma objSet_keys (o : JsObject) (key : string) (v : JsValue) (x : string) :
  In x (objectKeys (objSet o key v)) <-> x = key \/ In x (objectKeys o).
Proof.
  unfold objectKeys. induction o as [|[k w] rest IH]; simpl.
  - intuition.
  - destruct (String.eqb_spec k key) as [->|Hne]; simpl; [intuition|].
    rewrite IH. intuition.
Qed.

Lemma assignProperty_keys (o : JsObject) (key : string) (v : JsValue) (x : string) :
  setHas DANGEROUS_TEMPLATE_KEYS key = false ->
  In x (objectKeys (assignProperty o key v)) <-> x = key \/ In x (objectKeys o).
Proof.
  intros Hsafe. unfold assignProperty.
  destruct (String.eqb_spec key "__proto__") as [->|_].
  - vm_compute in Hsafe. discriminate.
  - apply objSet_keys.
Qed.

(** What one step of the loop over a nested object does to the keys. *)
Lemma sanitizeNestedEntry_keys (sanitized : JsObject) (key : string) (value : JsValue)
    (x : string) :
  In x (objectKeys (sanitizeNestedEntry sanitized (key, value)))
  <-> In x (objectKeys sanitized)
      \/ (x = key /\ setHas DANGEROUS_TEMPLATE_KEYS key = false
          /\ (isPrimitiveOrNull value = true \/ isPlainObject value = true)).
Proof.
  unfold sanitizeNestedEntry.
  destruct (setHas DANGEROUS_TEMPLATE_KEYS key) eqn:Hkey; [intuition congruence|].
  destruct value; simpl; rewrite ?assignProperty_keys by exact Hkey;
    intuition congruence.
Qed.

Lemma sanitizeNestedObject_keys (obj : JsObject) (x : string) :
  In x (objectKeys (sanitizeNestedObject obj))
  <-> exists value,
        In (x, value) obj /\ setHas DANGEROUS_TEMPLATE_KEYS x = false
        /\ (isPrimitiveOrNull value = true \/ isPlainObject value = true).
Proof.
  unfold sanitizeNestedObject.
  assert (Hfold : forall acc,
             In x (objectKeys (fold_left sanitizeNestedEntry obj acc))
             <-> In x (objectKeys acc)
                 \/ exists value,
                      In (x, value) obj /\ setHas DANGEROUS_TEMPLATE_KEYS x = false
                      /\ (isPrimitiveOrNull value = true \/ isPlainObject value = true)).
  { induction obj as [|[key value] rest IH]; intros acc.
    - simpl. split; [auto|]. intros [?|(? & [] & _)]. assumption.
    - change (fold_left sanitizeNestedEntry ((key, value) :: rest) acc)
        with (fold_left sanitizeNestedEntry rest (sanitizeNestedEntry acc (key, value))).
      rewrite IH, sanitizeNestedEntry_keys. split.
      + intros [[?|(-> & ? & ?)]|(v & ? & ?)]; [auto|right..]; exists v || exists value;
          simpl; auto.
      + intros [?|(v & [[= -> ->]|?] & ? & ?)]; eauto 6. }
  rewrite Hfold. simpl. intuition.
Qed.

Lemma validateContextEntry_keys (errs : list string) (sanitized : JsObject)
    (key : string) (value : JsValue) (x : string) :
  In x (objectKeys (snd (validateContextEntry (errs, sanitized) (key, value))))
  <-> In x (objectKeys sanitized)
      \/ (x = key /\ setHas DANGEROUS_TEMPLATE_KEYS key = false
          /\ (isPrimitiveOrNull value = true \/ isPlainObject value = true)).
Proof.
  unfold validateContextEntry.
  destruct (setHas DANGEROUS_TEMPLATE_KEYS key) eqn:Hkey; [simpl; intuition congruence|].
  destruct value; simpl; rewrite ?assignProperty_keys by exact Hkey;
    intuition congruence.
Qed.

Lemma validateContextEntry_errors (errs : list string) (sanitized : JsObject)
    (key : string) (value : JsValue) :
  exists more,
    fst (validateContextEntry (errs, sanitized) (key, value)) = errs ++ more
    /\ (setHas DANGEROUS_TEMPLATE_KEYS key = true -> more <> []).
Proof.
  unfold validateContextEntry.
  destruct (setHas DANGEROUS_TEMPLATE_KEYS key) eqn:Hkey.
  - eexists. split; [reflexivity|]. discriminate.
  - destruct value; simpl; eexists; (split; [|discriminate]);
      first [ symmetry; apply app_nil_r | reflexivity ].
Qed.

(** What holds of the sanitizer at the top level of the context and in
    the objects directly below it: no dangerous key is kept, a dangerous
    top-level key makes the context invalid, and the safe keys that hold
    primitives or plain objects are kept. *)
Lemma validateAndSanitizeContext_two_levels (context : JsObject) :
  let validation := validateAndSanitizeContext context in
  (forall key, In key (objectKeys (sanitizedContext validation)) ->
               setHas DANGEROUS_TEMPLATE_KEYS key = false)
  /\ (forall key value, In (key, value) context ->
                        setHas DANGEROUS_TEMPLATE_KEYS key = true ->
                        isValid validation = false)
  /\ (forall key value, In (key, value) context ->
                        setHas DANGEROUS_TEMPLATE_KEYS key = false ->
                        isPrimitiveOrNull value = true \/ isPlainObject value = true ->
                        In key (objectKeys (sanitizedContext validation))).
Proof.
  unfold validateAndSanitizeContext.
  assert (Hfold : forall errs sanitized,
             let result := fold_left validateContextEntry context (errs, sanitized) in
             (forall x, In x (objectKeys (snd result))
                        <-> In x (objectKeys sanitized)
                            \/ exists value,
                                 In (x, value) context
                                 /\ setHas DANGEROUS_TEMPLATE_KEYS x = false
                                 /\ (isPrimitiveOrNull value = true
                                     \/ isPlainObject value = true))
             /\ exists more,
                  fst result = errs ++ more
                  /\ (forall key value, In (key, value) context ->
                                        setHas DANGEROUS_TEMPLATE_KEYS key = true ->
                                        more <> [])).
  { induction context as [|[key value] rest IH]; intros errs sanitized;
      [simpl|cbn [fold_left]].
    - split.
      + intros x. split; [auto|]. intros [?|(? & [] & _)]. assumption.
      + exists []. rewrite app_nil_r. split; [reflexivity|]. intros ? ? [].
    - destruct (validateContextEntry (errs, sanitized) (key, value))
        as [errs' sanitized'] eqn:Hstep.
      pose proof (validateContextEntry_keys errs sanitized key value) as Hkeys.
      destruct (validateContextEntry_errors errs sanitized key value)
        as (more & Herrs & Hmore).
      rewrite Hstep in Hkeys, Herrs. simpl in Hkeys, Herrs.
      destruct (IH errs' sanitized') as [IHkeys (more' & IHerrs & IHmore)].
      split.
      + intros x. rewrite IHkeys, Hkeys. split.
        * intros [[?|(-> & ? & ?)]|(v & ? & ?)]; [auto|right..];
            exists v || exists value; simpl; auto.
        * intros [?|(v & [[= -> ->]|?] & ? & ?)]; eauto 6.
      + exists (more ++ more'). rewrite IHerrs, Herrs, app_assoc.
        split; [reflexivity|].
        intros k v [[= -> ->]|Hin] Hdanger Hnil; apply app_eq_nil in Hnil as [? ?].
        * by apply Hmore.
        * by apply (IHmore k v). }
  destruct (fold_left validateContextEntry context ([], [])) as [errs sanitized] eqn:Hrun.
  destruct (Hfold [] []) as [Hkeys (more & Herrs & Hmore)].
  rewrite Hrun in Hkeys, Herrs. simpl in *. subst errs.
  split; [|split].
  - intros key Hin. apply Hkeys in Hin as [[]|(v & _ & Hsafe & _)]. exact Hsafe.
  - intros key value Hin Hdanger. specialize (Hmore key value Hin Hdanger).
    destruct more; [congruence|reflexivity].
  - intros key value Hin Hsafe Hvalue. apply Hkeys. right. eauto.
Qed.

(** C3, where it fails. An object two levels below the top of the context
    keeps its dangerous key and loses its safe one. *)
Theorem validateAndSanitizeContext_third_level :
  validateAndSanitizeContext
    [("user", JObject [("id", JString "123");
                       ("profile", JObject [("constructor", JString "x");
                                            ("name", JString "John")])])]
  = {| errors := [];
       isValid := true;
       sanitizedContext :=
         [("user", JObject [("id", JString "123");
                            ("profile", JObject [("constructor", JString "x")])])] |}.
Proof. vm_compute. reflexivity. Qed.

Example validateAndSanitizeContext_dangerous_top_level :
  validateAndSanitizeContext
    [("__proto__", JObject [("malicious", JBool true)]);
     ("user", JObject [("id", JString "123")])]
  = {| errors := ["Dangerous context key: __proto__"];
       isValid := false;
       sanitizedContext := [("user", JObject [("id", JString "123")])] |}.
Proof. vm_compute. reflexivity. Qed.

(** ** Template interpolation *)

(** Induction over values, through arrays and objects. *)
Lemma JsValue_induction (P : JsValue -> Prop) :
  P JNull -> P JUndefined ->
  (forall b, P (JBool b)) -> (forall n, P (JNumber n)) -> (forall s, P (JString s)) ->
  (forall items, Forall P items -> P (JArray items)) ->
  (forall entries, Forall (fun entry => P (snd entry)) entries -> P (JObject entries)) ->
  (forall tag, P (JOther tag)) ->
  forall value, P value.
Proof.
  intros Hnull Hundef Hbool Hnum Hstr Harr Hobj Hother.
  fix IH 1. intros [| |b|n|s|items|entries|tag].
  - exact Hnull.
  - exact Hundef.
  - apply Hbool.
  - apply Hnum.
  - apply Hstr.
  - apply Harr. induction items as [|v items IHitems]; constructor.
    + apply IH.
    + exact IHitems.
  - apply Hobj. induction entries as [|[k v] entries IHentries]; constructor.
    + simpl. apply IH.
    + exact IHentries.
  - apply Hother.
Qed.

Lemma variableErrors_rejected (variable : string) :
  rejectedVariable variable -> variableErrors variable <> [].
Proof.
  unfold rejectedVariable, forbiddenSyntax, variableErrors, setHas.
  intros Hrej Hnil.
  apply app_eq_nil in Hnil as [H1 Hnil]. apply app_eq_nil in Hnil as [H2 H3].
  case_bool_decide as Hset; [discriminate H1|].
  destruct Hrej as [?|[Hr|[Hr|[Hr|[Hr|[Hr|[Hr|Hr]]]]]]]; [contradiction|..];
    rewrite Hr in *; simpl in *;
    rewrite ?orb_true_r in *; simpl in *; discriminate.
Qed.

Lemma validateTemplateVariables_rejects (template inner : string) :
  In inner (templateMatches template) ->
  rejectedVariable (trim inner) ->
  validateTemplateVariables template <> [].
Proof.
  intros Hin Hrej Hnil. unfold validateTemplateVariables in Hnil.
  apply (variableErrors_rejected _ Hrej).
  induction (templateMatches template) as [|m ms IH]; [destruct Hin|].
  simpl in Hnil. apply app_eq_nil in Hnil as [Hm Hms].
  destruct Hin as [->|Hin]; auto.
Qed.

Section InterpolationProperties.
Variable Mustache_render : string -> JsObject -> Outcome JsError JsValue.

Lemma secureInterpolateObject_array (context : JsObject) (items : list JsValue) :
  secureInterpolateObject Mustache_render (JArray items) context
  = match interpolateItems Mustache_render context items with
    | Thrown e => Thrown e
    | Returned vs => Returned (JArray vs)
    end.
Proof. reflexivity. Qed.

Lemma secureInterpolateObject_object (context : JsObject) (entries : JsObject) :
  secureInterpolateObject Mustache_render (JObject entries) context
  = match interpolateEntries Mustache_render context entries [] with
    | Thrown e => Thrown e
    | Returned result => Returned (JObject result)
    end.
Proof. reflexivity. Qed.

Lemma secureInterpolateObject_returns (context : JsObject) (value : JsValue) :
  exists result, secureInterpolateObject Mustache_render value context = Returned result.
Proof.
  induction value as [| |b|n|s|items IH|entries IH|tag] using JsValue_induction;
    try (simpl; eauto; fail).
  - simpl. destruct (negb (includes s "{{")); eauto.
    destruct (validateTemplateVariables s); eauto.
    destruct (Mustache_render s context) as [[]|]; eauto.
  - rewrite secureInterpolateObject_array.
    assert (Hmap : exists vs, interpolateItems Mustache_render context items = Returned vs).
    { induction IH as [|item items' [v Hv] _ [vs Hvs]]; simpl; [eauto|].
      rewrite Hv, Hvs. eauto. }
    destruct Hmap as [vs ->]. eauto.
  - rewrite secureInterpolateObject_object.
    assert (Hloop : forall acc,
               exists r, interpolateEntries Mustache_render context entries acc = Returned r).
    { induction IH as [|[key val] entries' [v Hv] _ IHloop]; intros acc; simpl; [eauto|].
      simpl in Hv. destruct (setHas DANGEROUS_TEMPLATE_KEYS key); [apply IHloop|].
      rewrite Hv. apply IHloop. }
    destruct (Hloop []) as [r ->]. eauto.
Qed.

End InterpolationProperties.

(** A marker that stands after text free of braces is found by the scan. *)
Lemma includes_char_cons (c d : ascii) (s : string) :
  includes (String c s) (String d EmptyString) = (Ascii.eqb d c || includes s (String d EmptyString))%bool.
Proof.
  simpl. destruct (ascii_dec d c) as [->|Hne].
  - rewrite Ascii.eqb_refl. destruct s; reflexivity.
  - apply Ascii.eqb_neq in Hne. rewrite Hne. reflexivity.
Qed.

Lemma takeNonBrace_app (inner rest : string) :
  includes inner "}" = false ->
  takeNonBrace (inner +:+ "}" +:+ rest) = inner
  /\ dropNonBrace (inner +:+ "}" +:+ rest) = "}" +:+ rest.
Proof.
  induction inner as [|c inner IH]; intros Hno.
  - split; reflexivity.
  - rewrite includes_char_cons in Hno. apply orb_false_elim in Hno as [Hc Hno].
    simpl. unfold isCloseBrace. rewrite Ascii.eqb_sym, Hc.
    destruct (IH Hno) as [-> ->]. split; reflexivity.
Qed.

Lemma matchAt_marker (inner post : string) :
  inner <> "" -> includes inner "}" = false ->
  matchAt ("{{" +:+ inner +:+ "}}" +:+ post) = Some inner.
Proof.
  intros Hne Hno.
  destruct (takeNonBrace_app inner ("}" +:+ post) Hno) as [Htake Hdrop].
  change ("{{" +:+ inner +:+ "}}" +:+ post)
    with (String "{" (String "{" (inner +:+ "}" +:+ "}" +:+ post))).
  unfold matchAt. rewrite Htake, Hdrop.
  apply String.eqb_neq in Hne. rewrite Hne. simpl.
  destruct post; reflexivity.
Qed.

Lemma execFrom_zero (c : ascii) (rest : string) :
  execFrom (String c rest) 0
  = match matchAt (String c rest) with
    | Some m => m :: execFrom rest (String.length m + 3)
    | None => execFrom rest 0
    end.
Proof. reflexivity. Qed.

Lemma templateMatches_marker (before inner post : string) :
  includes before "{" = false ->
  inner <> "" -> includes inner "}" = false ->
  In inner (templateMatches (before +:+ "{{" +:+ inner +:+ "}}" +:+ post)).
Proof.
  intros Hbefore Hne Hno. unfold templateMatches.
  pose proof (matchAt_marker inner post Hne Hno) as Hm.
  induction before as [|c before IH].
  - change ("" +:+ "{{" +:+ inner +:+ "}}" +:+ post)
      with (String "{" ("{" +:+ inner +:+ "}}" +:+ post)).
    change ("{{" +:+ inner +:+ "}}" +:+ post)
      with (String "{" ("{" +:+ inner +:+ "}}" +:+ post)) in Hm.
    rewrite execFrom_zero, Hm. left. reflexivity.
  - rewrite includes_char_cons in Hbefore. apply orb_false_elim in Hbefore as [Hc Hb].
    change (String c before +:+ "{{" +:+ inner +:+ "}}" +:+ post)
      with (String c (before +:+ "{{" +:+ inner +:+ "}}" +:+ post)).
    rewrite execFrom_zero.
    assert (Hnone : matchAt (String c (before +:+ "{{" +:+ inner +:+ "}}" +:+ post)) = None).
    { unfold matchAt. destruct (before +:+ "{{" +:+ inner +:+ "}}" +:+ post); [reflexivity|].
      rewrite Ascii.eqb_sym, Hc. reflexivity. }
    rewrite Hnone. apply IH. exact Hb.
Qed.

(** The markers are those of the validator's pattern: in a triple-brace
    tag the pattern captures the name together with the third brace. *)
Example templateMatches_triple_brace :
  templateMatches "{{{process.env}}}" = ["{process.env"]
  /\ validateTemplateVariables "{{{process.env}}}" = [].
Proof. split; vm_compute; reflexivity. Qed.

Example validateTemplateVariables_examples :
  validateTemplateVariables "{{user.id}}" = []
  /\ validateTemplateVariables "{{ process.env }}" <> []
  /\ validateTemplateVariables "{{../secret}}" <> []
  /\ validateTemplateVariables "{{items[0]}}" <> [].
Proof. repeat split; vm_compute; congruence. Qed.

(** ** Markers anywhere in a template *)

Lemma append_cons (x : ascii) (a b : string) : String x a +:+ b = String x (a +:+ b).
Proof. reflexivity. Qed.

Lemma append_empty (b : string) : "" +:+ b = b.
Proof. reflexivity. Qed.

Lemma append_assoc (a b c : string) : (a +:+ b) +:+ c = a +:+ (b +:+ c).
Proof.
  induction a as [|x a IH]; [reflexivity|]. rewrite !append_cons. by rewrite IH.
Qed.

Lemma length_append (a b : string) :
  String.length (a +:+ b) = (String.length a + String.length b)%nat.
Proof.
  induction a as [|x a IH]; [reflexivity|]. rewrite append_cons. simpl. by rewrite IH.
Qed.

Lemma prefix_append (needle a b : string) :
  String.prefix needle a = true -> String.prefix needle (a +:+ b) = true.
Proof.
  revert a. induction needle as [|x needle IH]; intros a Hprefix.
  { destruct (a +:+ b); reflexivity. }
  destruct a as [|y a]; [discriminate|]. rewrite append_cons. simpl in *.
  destruct (ascii_dec x y); [|discriminate]. by apply IH.
Qed.

Lemma includes_cons (x : ascii) (a needle : string) :
  includes (String x a) needle
  = (String.prefix needle (String x a) || includes a needle)%bool.
Proof. reflexivity. Qed.

Lemma includes_empty_needle (a : string) : includes a "" = true.
Proof. destruct a; reflexivity. Qed.

Lemma includes_in_empty (needle : string) : includes "" needle = true -> needle = "".
Proof. destruct needle; [reflexivity|discriminate]. Qed.

Lemma includes_append_l (a b needle : string) :
  includes a needle = true -> includes (a +:+ b) needle = true.
Proof.
  induction a as [|x a IH]; intros Hin.
  - apply includes_in_empty in Hin as ->. apply includes_empty_needle.
  - rewrite includes_cons in Hin. apply orb_true_iff in Hin as [Hprefix|Hrest].
    + apply (prefix_append _ _ b) in Hprefix. rewrite append_cons in *.
      rewrite includes_cons, Hprefix. reflexivity.
    + rewrite append_cons, includes_cons, (IH Hrest). apply orb_true_r.
Qed.

Lemma includes_append_r (a b needle : string) :
  includes b needle = true -> includes (a +:+ b) needle = true.
Proof.
  intros Hin. induction a as [|x a IH]; [exact Hin|].
  rewrite append_cons, includes_cons, IH. apply orb_true_r.
Qed.

(** Trimming a string that starts with text ending in a non-blank. *)
Lemma trimEnd_append (lead : string) (c : ascii) (s : string) :
  isWhiteSpace c = false ->
  trimEnd (lead +:+ String c s) = lead +:+ String c (trimEnd s).
Proof.
  intros Hc. induction lead as [|x lead IH].
  - rewrite !append_empty. simpl. destruct (trimEnd s); [rewrite Hc|]; reflexivity.
  - rewrite !append_cons. simpl. rewrite IH.
    destruct lead; reflexivity.
Qed.

Lemma trimStart_append (lead : string) (c : ascii) (s : string) :
  isWhiteSpace c = false ->
  exists lead', trimStart (lead +:+ String c s) = lead' +:+ String c s.
Proof.
  intros Hc. induction lead as [|x lead [lead' IH]].
  - exists "". rewrite !append_empty. simpl. by rewrite Hc.
  - rewrite append_cons. simpl. destruct (isWhiteSpace x).
    + eauto.
    + by exists (String x lead).
Qed.

Lemma trimEnd_trimStart (s : string) :
  trimEnd (trimStart s) <> "" ->
  exists blanks, trimEnd s = blanks +:+ trimEnd (trimStart s).
Proof.
  induction s as [|x s IH]; simpl; intros Hne; [congruence|].
  destruct (isWhiteSpace x) eqn:Hx.
  - destruct (IH Hne) as [blanks Hs]. exists (String x blanks).
    rewrite Hs, append_cons. destruct (blanks +:+ trimEnd (trimStart s)) eqn:Hempty.
    + destruct blanks; [rewrite append_empty in Hempty; congruence|discriminate].
    + reflexivity.
  - exists "". rewrite append_empty. simpl. rewrite Hx. reflexivity.
Qed.

Lemma includes_trim (lead inner needle : string) :
  (lead = "" \/ exists lead', lead = lead' +:+ "{") ->
  includes (trim inner) needle = true ->
  includes (trim (lead +:+ inner)) needle = true.
Proof.
  intros [->|[lead' ->]] Hin; [exact Hin|].
  rewrite append_assoc, append_cons, append_empty.
  unfold trim in *.
  destruct (trimStart_append lead' "{" inner) as [lead'' ->]; [reflexivity|].
  rewrite trimEnd_append by reflexivity.
  apply includes_append_r.
  change (String "{" (trimEnd inner)) with ("{" +:+ trimEnd inner).
  apply includes_append_r.
  destruct (trimEnd (trimStart inner)) as [|y kept] eqn:Hkept.
  - apply includes_in_empty in Hin as ->. apply includes_empty_needle.
  - destruct (trimEnd_trimStart inner) as [blanks ->]; [congruence|].
    apply includes_append_r. by rewrite Hkept.
Qed.

Lemma takeNonBrace_cases (x rest : string) :
  (includes x "}" = false
   /\ takeNonBrace (x +:+ rest) = x +:+ takeNonBrace rest
   /\ dropNonBrace (x +:+ rest) = dropNonBrace rest)
  \/ (exists u v,
         x = u +:+ String "}" v
         /\ takeNonBrace (x +:+ rest) = u
         /\ dropNonBrace (x +:+ rest) = String "}" (v +:+ rest)).
Proof.
  induction x as [|c x IH].
  - left. repeat split.
  - rewrite append_cons.
    change (takeNonBrace (String c (x +:+ rest)))
      with (if isCloseBrace c then "" else String c (takeNonBrace (x +:+ rest))).
    change (dropNonBrace (String c (x +:+ rest)))
      with (if isCloseBrace c then String c (x +:+ rest) else dropNonBrace (x +:+ rest)).
    unfold isCloseBrace.
    destruct (Ascii.eqb_spec c "}") as [->|Hc].
    + right. exists "", x. repeat split.
    + destruct IH as [(Hno & Htake & Hdrop)|(u & v & -> & Htake & Hdrop)].
      * left. rewrite includes_char_cons, Hno, Htake, Hdrop.
        apply not_eq_sym, Ascii.eqb_neq in Hc. rewrite Hc. repeat split.
      * right. exists (String c u), v. rewrite Htake, Hdrop. repeat split.
Qed.

(** Wherever a marker stands, the scan reports a match that ends with its
    inner text; what may precede it in the capture ends with a brace. *)
Lemma execFrom_finds_marker (inner post : string) :
  inner <> "" -> includes inner "}" = false ->
  forall before skip,
    (skip <= String.length before)%nat ->
    exists lead,
      In (lead +:+ inner)
         (execFrom (before +:+ "{{" +:+ inner +:+ "}}" +:+ post) skip)
      /\ (lead = "" \/ exists lead', lead = lead' +:+ "{").
Proof.
  intros Hne Hno.
  set (tail := "{{" +:+ inner +:+ "}}" +:+ post).
  assert (Htail : tail = String "{" (String "{" (inner +:+ "}}" +:+ post)))
    by reflexivity.
  assert (Hmarker : matchAt tail = Some inner) by (by apply matchAt_marker).
  assert (Htake : takeNonBrace tail = "{{" +:+ inner).
  { apply (takeNonBrace_app ("{{" +:+ inner) ("}" +:+ post)).
    change ("{{" +:+ inner) with (String "{" (String "{" inner)).
    rewrite !includes_char_cons, Hno. reflexivity. }
  induction before as [|c before IH]; intros skip Hskip.
  - exists "". split; [|by left]. rewrite !append_empty. fold tail.
    destruct skip; [|simpl in Hskip; lia].
    rewrite Htail, execFrom_zero, <- Htail, Hmarker. by left.
  - rewrite append_cons. fold tail. destruct skip as [|skip].
    + rewrite execFrom_zero.
      destruct (matchAt (String c (before +:+ tail))) as [m|] eqn:Hm.
      * unfold matchAt in Hm. destruct before as [|c2 before].
        -- rewrite append_empty, Htail in Hm.
           destruct (Ascii.eqb c "{" && Ascii.eqb "{" "{")%bool; [|discriminate].
           rewrite <- append_cons in Hm.
           change (String "{" inner +:+ "}}" +:+ post)
             with (String "{" inner +:+ "}" +:+ "}" +:+ post) in Hm.
           destruct (takeNonBrace_app (String "{" inner) ("}" +:+ post)) as [Ht Hd].
           { rewrite includes_char_cons, Hno. reflexivity. }
           rewrite Ht in Hm.
           destruct (negb (String "{" inner =? "")%string && _)%bool; [|discriminate].
           injection Hm as <-. exists "{". split; [by left|].
           right. by exists "".
        -- rewrite append_cons in Hm.
           destruct (Ascii.eqb c "{" && Ascii.eqb c2 "{")%bool; [|discriminate].
           destruct (takeNonBrace_cases before tail)
             as [(_ & Ht & _)|(u & v & -> & Ht & Hd)].
           ++ rewrite Ht, Htake in Hm.
              destruct (negb _ && _)%bool; [|discriminate].
              injection Hm as <-. exists (before +:+ "{{"). split.
              ** left. by rewrite append_assoc.
              ** right. exists (before +:+ "{").
                 by rewrite append_assoc.
           ++ rewrite Ht, Hd in Hm.
              destruct (negb (u =? "")%string); [|discriminate]. simpl in Hm.
              destruct v as [|d v].
              { rewrite append_empty, Htail in Hm. simpl in Hm. discriminate. }
              destruct (String.prefix _ _); [|discriminate].
              injection Hm as <-.
              destruct (IH (String.length u + 3)%nat) as (lead & Hin & Hlead).
              { simpl. rewrite length_append. simpl. lia. }
              exists lead. split; [by right|exact Hlead].
      * apply (IH 0%nat). lia.
    + change (execFrom (String c (before +:+ tail)) (S skip))
        with (execFrom (before +:+ tail) skip).
      apply IH. simpl in Hskip. lia.
Qed.

Lemma validateTemplateVariables_rejects_occurrence (before inner post : string) :
  inner <> "" -> includes inner "}" = false ->
  forbiddenSyntax (trim inner) ->
  validateTemplateVariables (before +:+ "{{" +:+ inner +:+ "}}" +:+ post) <> [].
Proof.
  intros Hne Hno Hsyntax.
  destruct (execFrom_finds_marker inner post Hne Hno before 0%nat) as (lead & Hin & Hlead);
    [lia|].
  apply (validateTemplateVariables_rejects _ _ Hin).
  right. unfold forbiddenSyntax in *.
  destruct Hsyntax as [H|[H|[H|[H|[H|[H|H]]]]]];
    apply (includes_trim lead inner _ Hlead) in H; tauto.
Qed.

Section InterpolationFailsClosed.
Variable Mustache_render : string -> JsObject -> Outcome JsError JsValue.

(** Interpolation returns for every condition tree and context, and a
    string leaf with a marker whose inner variable name is refused comes
    back as it was given: for the markers the validator's pattern finds
    left to right, whatever the reason of the refusal; and for a marker
    standing anywhere in the leaf, when its name holds a path-traversal
    sequence or call or subscript syntax. *)
Theorem interpolation_fails_closed :
  (forall value context,
      exists result, secureInterpolateObject Mustache_render value context = Returned result)
  /\ (forall rule context,
         exists rule', interpolateConditions Mustache_render rule context = Returned rule')
  /\ (forall template context inner,
         In inner (templateMatches template) ->
         rejectedVariable (trim inner) ->
         secureInterpolateObject Mustache_render (JString template) context
         = Returned (JString template))
  /\ (forall before inner post context,
         inner <> "" -> includes inner "}" = false ->
         forbiddenSyntax (trim inner) ->
         secureInterpolateObject Mustache_render
           (JString (before +:+ "{{" +:+ inner +:+ "}}" +:+ post)) context
         = Returned (JString (before +:+ "{{" +:+ inner +:+ "}}" +:+ post))).
Proof.
  assert (Hclosed : forall template context,
             validateTemplateVariables template <> [] ->
             secureInterpolateObject Mustache_render (JString template) context
             = Returned (JString template)).
  { intros template context Hne. simpl.
    destruct (negb (includes template "{{")); [reflexivity|].
    destruct (validateTemplateVariables template); [congruence|reflexivity]. }
  split; [|split; [|split]].
  - intros value context. apply secureInterpolateObject_returns.
  - intros rule context. unfold interpolateConditions.
    destruct (CaslPermission.conditions rule) as [c|]; eauto.
    destruct (negb (truthy c)); eauto.
    destruct (secureInterpolateObject Mustache_render c context); eauto.
  - intros template context inner Hin Hrej. apply Hclosed.
    by apply (validateTemplateVariables_rejects template inner).
  - intros before inner post context Hne Hno Hsyntax. apply Hclosed.
    by apply validateTemplateVariables_rejects_occurrence.
Qed.

End InterpolationFailsClosed.

Lemma interpolation_fails_closed_witness :
  let render := fun (_ : string) (_ : JsObject) =>
                  Returned (E := JsError) (JString "secret") in
  let context := [("process", JObject [("env", JString "secret")])] in
  (In "process.env" (templateMatches "{{process.env}}")
   /\ rejectedVariable (trim "process.env")
   /\ secureInterpolateObject render (JString "{{process.env}}") context
      = Returned (JString "{{process.env}}"))
  /\ (forbiddenSyntax (trim " ../env ")
      /\ secureInterpolateObject render (JString "a {{{ ../env }} b") context
         = Returned (JString "a {{{ ../env }} b")).
Proof.
  intros render context.
  assert (Hin : In "process.env" (templateMatches "{{process.env}}"))
    by (left; reflexivity).
  assert (Hrej : rejectedVariable (trim "process.env"))
    by (left; apply elem_of_singleton; reflexivity).
  assert (Hsyntax : forbiddenSyntax (trim " ../env "))
    by (left; reflexivity).
  split.
  - split; [exact Hin|]. split; [exact Hrej|].
    exact (proj1 (proj2 (proj2 (interpolation_fails_closed render))) _ context _ Hin Hrej).
  - split; [exact Hsyntax|].
    apply (proj2 (proj2 (proj2 (interpolation_fails_closed render)))
             "a {" " ../env " " b" context); [discriminate|reflexivity|exact Hsyntax].
Defined.

(** C4, where it fails. A triple-brace tag around the refused name
    [process.env] is not refused: the pattern of the validator captures
    the name together with the third brace, which is on no list, so the
    leaf is handed to the templating engine and what the engine renders
    is the result. *)
Theorem secureInterpolateObject_triple_brace
    (Mustache_render : string -> JsObject -> Outcome JsError JsValue)
    (context : JsObject) :
  includes "{{{process.env}}}" "{{process.env}}" = true
  /\ setHas DISALLOWED_TEMPLATE_VARIABLES "process.env" = true
  /\ templateMatches "{{{process.env}}}" = ["{process.env"]
  /\ validateTemplateVariables "{{{process.env}}}" = []
  /\ secureInterpolateObject Mustache_render (JString "{{{process.env}}}") context
     = match Mustache_render "{{{process.env}}}" context with
       | Returned (JString interpolated) => Returned (JString interpolated)
       | _ => Returned (JString "{{{process.env}}}")
       end.
Proof.
  repeat split; vm_compute; reflexivity.
Qed.

(** The unescaped tag written with an ampersand passes in the same way. *)
Example secureInterpolateObject_ampersand_tag :
  validateTemplateVariables "{{&process.env}}" = []
  /\ secureInterpolateObject (fun _ _ => Returned (JString "secret"))
       (JString "{{&process.env}}") []
     = Returned (JString "secret").
Proof. split; vm_compute; reflexivity. Qed.

(** ** Field-level check *)

Section CheckPermissionProperties.
Variable ability_can : string -> SubjectInstance -> option string -> bool.

(** C5. With a non-empty field list the request is allowed exactly when
    the ability allows every listed field on its own; one denied field
    denies the request. *)
Theorem checkPermission_fields_conjunction
    (sortedPermissions : list Rule) (action : string) (subject : option string)
    (resource : option JsObject) (fields : list string) :
  fields <> [] ->
  let subjectInstance :=
    (match subject with Some s => s | None => "all" end, resource) in
  let response :=
    checkPermissionHandler ability_can sortedPermissions action subject resource
                           (Some fields) in
  (allowed response = true
   <-> forall field, In field fields ->
                     ability_can action subjectInstance (Some field) = true)
  /\ (forall field, In field fields ->
                    ability_can action subjectInstance (Some field) = false ->
                    allowed response = false).
Proof.
  intros Hne subjectInstance response.
  assert (Hallowed : allowed response
                     = forallb (fun field => ability_can action subjectInstance (Some field))
                               fields).
  { subst response. unfold checkPermissionHandler. simpl.
    destruct fields; [congruence|reflexivity]. }
  rewrite Hallowed. split.
  - rewrite forallb_forall. reflexivity.
  - intros field Hin Hdenied.
    destruct (forallb _ fields) eqn:Hall; [|reflexivity].
    rewrite forallb_forall in Hall. specialize (Hall field Hin). congruence.
Qed.

End CheckPermissionProperties.

Lemma checkPermission_fields_conjunction_witness :
  ["title"; "content"] <> []
  /\ titleOnlyAbility "read" ("post", None) (Some "title") = true
  /\ allowed (checkPermissionHandler titleOnlyAbility [] "read" (Some "post") None
                                     (Some ["title"; "content"])) = false.
Proof.
  split; [discriminate|]. split; [reflexivity|].
  apply (proj2 (checkPermission_fields_conjunction titleOnlyAbility [] "read"
                  (Some "post") None ["title"; "content"] ltac:(discriminate))
           "content").
  - right. left. reflexivity.
  - reflexivity.
Defined.

(** ** Idempotent junction assignment *)

Section JunctionAssignmentProperties.
Context {S : Type}.
Variable adapter : Adapter S.
Variable rowsOf : S -> string -> list Row.

Lemma withOptionalTransaction_returned {A : Type} (body : M S A) (w w' : World S) (a : A) :
  body w = (Returned a, w') ->
  withOptionalTransaction adapter body w = (Returned a, w').
Proof.
  intros Hbody. unfold withOptionalTransaction, transaction.
  destruct (hasTransaction adapter); rewrite Hbody; reflexivity.
Qed.

Lemma withOptionalTransaction_thrown {A : Type} (body : M S A) (w w' : World S)
    (e : JsError) :
  body w = (Thrown e, w') ->
  fst (withOptionalTransaction adapter body w) = Thrown e.
Proof.
  intros Hbody. unfold withOptionalTransaction, transaction.
  destruct (hasTransaction adapter); rewrite Hbody; reflexivity.
Qed.

(** One assignment against a store that keeps junction rows unique. *)
Lemma handleIdempotentJunctionAssignment_once (model : string) (data : Row) :
  UniqueJunctionStore adapter rowsOf ->
  forall w,
  exists w',
    handleIdempotentJunctionAssignment adapter model data w = (Returned tt, w')
    /\ calls w' = calls w ++ [CallCreate model data]
    /\ List.length (junctionRows data (rowsOf (store w') model))
       = Nat.max 1 (List.length (junctionRows data (rowsOf (store w) model))).
Proof.
  intros Hunique w. unfold handleIdempotentJunctionAssignment.
  destruct (junctionRows data (rowsOf (store w) model)) as [|r rs] eqn:Hrows.
  - destruct (create_absent _ _ Hunique model data (store w) Hrows)
      as (row & s' & Hcreate & Hsub & Hrows').
    eexists. split; [|split].
    + apply withOptionalTransaction_returned.
      unfold tryCatch, bind, callCreate, issue. rewrite Hcreate. reflexivity.
    + reflexivity.
    + simpl. rewrite Hrows'. unfold junctionRows in *.
      rewrite List.filter_app, Hrows. simpl.
      rewrite bool_decide_eq_true_2 by exact Hsub. reflexivity.
  - destruct (create_present _ _ Hunique model data (store w)) as (e & Hcreate & Hdup).
    { rewrite Hrows. discriminate. }
    eexists. split; [|split].
    + apply withOptionalTransaction_returned.
      unfold tryCatch, bind, callCreate, issue. rewrite Hcreate, Hdup. reflexivity.
    + reflexivity.
    + simpl. rewrite Hrows. simpl. lia.
Qed.

(** A failed insert whose error is classified as a duplicate ends the
    assignment normally with the store as the insert left it, any other
    error is thrown again; and against a store that keeps junction rows
    unique, asserting a pair twice returns twice, with one store call
    each, and leaves one row for the pair. *)
Theorem handleIdempotentJunctionAssignment_idempotent (model : string) (data : Row) :
  (forall w e s',
      adapter_create adapter model data (store w) = (Thrown e, s') ->
      (isDuplicateKeyError e = true ->
       handleIdempotentJunctionAssignment adapter model data w
       = (Returned tt, {| store := s'; calls := calls w ++ [CallCreate model data] |}))
      /\ (isDuplicateKeyError e = false ->
          fst (handleIdempotentJunctionAssignment adapter model data w) = Thrown e))
  /\ (UniqueJunctionStore adapter rowsOf ->
      forall w,
        (List.length (junctionRows data (rowsOf (store w) model)) <= 1)%nat ->
        exists w1 w2,
          handleIdempotentJunctionAssignment adapter model data w = (Returned tt, w1)
          /\ handleIdempotentJunctionAssignment adapter model data w1 = (Returned tt, w2)
          /\ calls w2 = calls w ++ [CallCreate model data; CallCreate model data]
          /\ List.length (junctionRows data (rowsOf (store w2) model)) = 1%nat).
Proof.
  split.
  - intros w e s' Hcreate. unfold handleIdempotentJunctionAssignment. split; intros Hclass.
    + apply withOptionalTransaction_returned.
      unfold tryCatch, bind, callCreate, issue. rewrite Hcreate, Hclass. reflexivity.
    + eapply withOptionalTransaction_thrown.
      unfold tryCatch, bind, callCreate, issue. rewrite Hcreate, Hclass. reflexivity.
  - intros Hunique w Hatmost.
    destruct (handleIdempotentJunctionAssignment_once model data Hunique w)
      as (w1 & Hfirst & Hcalls1 & Hrows1).
    destruct (handleIdempotentJunctionAssignment_once model data Hunique w1)
      as (w2 & Hsecond & Hcalls2 & Hrows2).
    exists w1, w2. repeat split; try assumption.
    + rewrite Hcalls2, Hcalls1, <- app_assoc. reflexivity.
    + lia.
Qed.

End JunctionAssignmentProperties.

Lemma memoryAdapter_unique (withTransaction : bool) :
  UniqueJunctionStore (memoryAdapter withTransaction) memoryRows.
Proof.
  split; intros model data s Hrows; simpl; unfold memoryCreate.
  - rewrite Hrows. eexists _, _. split; [reflexivity|]. split; [reflexivity|].
    unfold memoryRows at 1. by rewrite lookup_insert_eq.
  - destruct (junctionRows data (memoryRows s model)); [congruence|].
    eexists. split; reflexivity.
Qed.

Lemma handleIdempotentJunctionAssignment_idempotent_witness :
  exists w1 w2,
    handleIdempotentJunctionAssignment (memoryAdapter true) "userPermission"
                                       userPermissionPair emptyWorld
    = (Returned tt, w1)
    /\ handleIdempotentJunctionAssignment (memoryAdapter true) "userPermission"
                                          userPermissionPair w1
       = (Returned tt, w2)
    /\ calls w2 = calls emptyWorld
                  ++ [CallCreate "userPermission" userPermissionPair;
                      CallCreate "userPermission" userPermissionPair]
    /\ List.length (junctionRows userPermissionPair
                                 (memoryRows (store w2) "userPermission")) = 1%nat.
Proof.
  apply (proj2 (handleIdempotentJunctionAssignment_idempotent
                  (memoryAdapter true) memoryRows "userPermission" userPermissionPair)
           (memoryAdapter_unique true) emptyWorld).
  vm_compute. lia.
Defined.

Example isDuplicateKeyError_examples :
  isDuplicateKeyError (RawError "UNIQUE constraint failed: userPermission.userId") = true
  /\ isDuplicateKeyError (APIError "CONFLICT" "Duplicate entry") = true
  /\ isDuplicateKeyError (RawError "connection reset") = false
  /\ isDuplicateKeyError OtherThrown = false.
Proof. repeat split; vm_compute; reflexivity. Qed.

(** The classification goes by the text of the message. *)
Example isDuplicateKeyError_by_message :
  isDuplicateKeyError (RawError "FOREIGN KEY constraint failed") = true
  /\ isDuplicateKeyError (APIError "INTERNAL_SERVER_ERROR" "Database operation failed") = false.
Proof. split; vm_compute; reflexivity. Qed.

(** C6, where it fails. The error of a violated reference has the word
    [constraint] in its message and so counts as a duplicate: the
    assignment of a permission that does not exist returns as if it had
    succeeded, and no row is written. And against a store that has no
    uniqueness constraint on the junction relation, as the schema of the
    plugin declares none, asserting a pair twice leaves two rows. *)
Theorem handleIdempotentJunctionAssignment_absorbs_other_errors :
  isDuplicateKeyError (RawError "FOREIGN KEY constraint failed") = true
  /\ (let '(result, w') :=
        handleIdempotentJunctionAssignment (referencingAdapter true) "userPermission"
                                           danglingPair seededWorld in
      result = Returned tt
      /\ calls w' = [CallCreate "userPermission" danglingPair]
      /\ junctionRows danglingPair (memoryRows (store w') "userPermission") = [])
  /\ (let '(first, w1) :=
        handleIdempotentJunctionAssignment (plainAdapter true) "userPermission"
                                           userPermissionPair emptyWorld in
      let '(second, w2) :=
        handleIdempotentJunctionAssignment (plainAdapter true) "userPermission"
                                           userPermissionPair w1 in
      first = Returned tt /\ second = Returned tt
      /\ memoryRows (store w2) "userPermission" = [userPermissionPair; userPermissionPair]).
Proof. split; [|split]; vm_compute; repeat split. Qed.

(** ** Cascade deletion *)

Lemma noRowWith_after_in (field : string) (ids : list string) (rows : list Row) :
  noRowWith field ids
            (List.filter (fun r => negb (matchesAll [WhereIn field ids] r)) rows).
Proof.
  intros r id Hr Hid Hfield. apply List.filter_In in Hr as [_ Hr].
  simpl in Hr. rewrite Hfield in Hr.
  rewrite bool_decide_eq_true_2 in Hr by (by apply list_elem_of_In).
  discriminate Hr.
Qed.

Lemma noRowWith_after_eq (field id : string) (rows : list Row) :
  noRowWith field [id]
            (List.filter (fun r => negb (matchesAll [WhereEq field id] r)) rows).
Proof.
  intros r id' Hr [<-|[]] Hfield. apply List.filter_In in Hr as [_ Hr].
  simpl in Hr. rewrite bool_decide_eq_true_2 in Hr by exact Hfield.
  discriminate Hr.
Qed.

Section CascadeDeleteProperties.
Context {S : Type}.
Variable adapter : Adapter S.
Variable rowsOf : S -> string -> list Row.
Hypothesis conforming : ConformingAdapter adapter rowsOf.

Lemma callDeleteMany_conforms (model : string) (clauses : list Where) (w : World S) :
  exists s',
    callDeleteMany adapter model clauses w
    = (Returned (JNumber (Z.of_nat (List.length
                                      (List.filter (matchesAll clauses)
                                                   (rowsOf (store w) model))))),
       {| store := s'; calls := calls w ++ [CallDeleteMany model clauses] |})
    /\ rowsOf s' model
       = List.filter (fun r => negb (matchesAll clauses r)) (rowsOf (store w) model)
    /\ forall other, other <> model -> rowsOf s' other = rowsOf (store w) other.
Proof.
  destruct (deleteMany_conforms _ _ conforming model clauses (store w))
    as (s' & Hcall & Hrows & Hothers).
  exists s'. unfold callDeleteMany, issue. rewrite Hcall. auto.
Qed.

Lemma callDelete_conforms (model : string) (clauses : list Where) (w : World S) :
  exists s',
    callDelete adapter model clauses w
    = (Returned JUndefined,
       {| store := s'; calls := calls w ++ [CallDelete model clauses] |})
    /\ rowsOf s' model
       = List.filter (fun r => negb (matchesAll clauses r)) (rowsOf (store w) model)
    /\ forall other, other <> model -> rowsOf s' other = rowsOf (store w) other.
Proof.
  destruct (delete_conforms _ _ conforming model clauses (store w))
    as (s' & Hcall & Hrows & Hothers).
  exists s'. unfold callDelete, issue. rewrite Hcall. auto.
Qed.

(** C7. Against a conforming store, deleting permissions issues the
    deletions of the three junction relations and then the deletion of
    the permission rows, in that order; afterwards no junction row refers
    to a deleted identifier and no permission row carries one; the batch
    answers with the number of permission rows it removed. *)
Theorem cascade_delete_permissions :
  (forall ids w,
      ids <> [] ->
      exists w',
        batchDeletePermissions adapter ids w
        = (Returned (Z.of_nat (List.length
                                 (List.filter (matchesAll [WhereIn "id" ids])
                                              (rowsOf (store w) "permission")))), w')
        /\ calls w'
           = calls w
             ++ [CallDeleteMany "userPermission" [WhereIn "permissionId" ids];
                 CallDeleteMany "memberPermission" [WhereIn "permissionId" ids];
                 CallDeleteMany "permissionPermissionSet" [WhereIn "permissionId" ids];
                 CallDeleteMany "permission" [WhereIn "id" ids]]
        /\ permissionsGone rowsOf ids (store w'))
  /\ (forall id w,
         exists result w',
           deletePermission adapter id w = (Returned result, w')
           /\ calls w'
              = calls w
                ++ [CallDeleteMany "userPermission" [WhereEq "permissionId" id];
                    CallDeleteMany "memberPermission" [WhereEq "permissionId" id];
                    CallDeleteMany "permissionPermissionSet" [WhereEq "permissionId" id];
                    CallDelete "permission" [WhereEq "id" id]]
           /\ permissionsGone rowsOf [id] (store w')).
Proof.
  split.
  - intros ids w Hne.
    destruct (callDeleteMany_conforms "userPermission" [WhereIn "permissionId" ids] w)
      as (s1 & H1 & R1 & O1).
    set (w1 := {| store := s1;
                  calls := calls w ++ [CallDeleteMany "userPermission"
                                                      [WhereIn "permissionId" ids]] |}) in *.
    destruct (callDeleteMany_conforms "memberPermission" [WhereIn "permissionId" ids] w1)
      as (s2 & H2 & R2 & O2).
    set (w2 := {| store := s2; calls := _ |}) in *.
    destruct (callDeleteMany_conforms "permissionPermissionSet"
                                      [WhereIn "permissionId" ids] w2)
      as (s3 & H3 & R3 & O3).
    set (w3 := {| store := s3; calls := _ |}) in *.
    destruct (callDeleteMany_conforms "permission" [WhereIn "id" ids] w3)
      as (s4 & H4 & R4 & O4).
    set (w4 := {| store := s4; calls := _ |}) in *.
    exists w4. split; [|split].
    + unfold batchDeletePermissions.
      destruct ids as [|id ids']; [congruence|].
      change (Nat.eqb (List.length (id :: ids')) 0) with false. cbv iota.
      unfold tryCatch.
      erewrite withOptionalTransaction_returned; [reflexivity|].
      unfold bind. rewrite H1, H2, H3, H4. unfold ret.
      subst w4 w3 w2 w1. simpl in *.
      rewrite (O3 "permission"), (O2 "permission"), (O1 "permission") by discriminate.
      reflexivity.
    + subst w4 w3 w2 w1. simpl. rewrite <- !app_assoc. reflexivity.
    + subst w4 w3 w2 w1. simpl in *. unfold permissionsGone. split; [|split; [|split]].
      * rewrite (O4 "userPermission"), (O3 "userPermission"), (O2 "userPermission"), R1
          by discriminate. apply noRowWith_after_in.
      * rewrite (O4 "memberPermission"), (O3 "memberPermission"), R2 by discriminate.
        apply noRowWith_after_in.
      * rewrite (O4 "permissionPermissionSet"), R3 by discriminate.
        apply noRowWith_after_in.
      * rewrite R4. apply noRowWith_after_in.
  - intros id w.
    destruct (callDeleteMany_conforms "userPermission" [WhereEq "permissionId" id] w)
      as (s1 & H1 & R1 & O1).
    set (w1 := {| store := s1; calls := _ |}) in *.
    destruct (callDeleteMany_conforms "memberPermission" [WhereEq "permissionId" id] w1)
      as (s2 & H2 & R2 & O2).
    set (w2 := {| store := s2; calls := _ |}) in *.
    destruct (callDeleteMany_conforms "permissionPermissionSet"
                                      [WhereEq "permissionId" id] w2)
      as (s3 & H3 & R3 & O3).
    set (w3 := {| store := s3; calls := _ |}) in *.
    destruct (callDelete_conforms "permission" [WhereEq "id" id] w3)
      as (s4 & H4 & R4 & O4).
    set (w4 := {| store := s4; calls := _ |}) in *.
    exists false, w4. split; [|split].
    + unfold deletePermission, tryCatch.
      erewrite withOptionalTransaction_returned; [reflexivity|].
      unfold bind. rewrite H1, H2, H3, H4. reflexivity.
    + subst w4 w3 w2 w1. simpl. rewrite <- !app_assoc. reflexivity.
    + subst w4 w3 w2 w1. simpl in *. unfold permissionsGone. split; [|split; [|split]].
      * rewrite (O4 "userPermission"), (O3 "userPermission"), (O2 "userPermission"), R1
          by discriminate. apply noRowWith_after_eq.
      * rewrite (O4 "memberPermission"), (O3 "memberPermission"), R2 by discriminate.
        apply noRowWith_after_eq.
      * rewrite (O4 "permissionPermissionSet"), R3 by discriminate.
        apply noRowWith_after_eq.
      * rewrite R4. apply noRowWith_after_eq.
Qed.

End CascadeDeleteProperties.

Lemma memoryAdapter_conforming (withTransaction : bool) :
  ConformingAdapter (memoryAdapter withTransaction) memoryRows.
Proof.
  split; intros model clauses s; simpl; eexists; (split; [reflexivity|]);
    unfold memoryRemove; split.
  - unfold memoryRows at 1. by rewrite lookup_insert_eq.
  - intros other Hother. unfold memoryRows at 1. by rewrite lookup_insert_ne.
  - unfold memoryRows at 1. by rewrite lookup_insert_eq.
  - intros other Hother. unfold memoryRows at 1. by rewrite lookup_insert_ne.
Qed.

Lemma cascade_delete_permissions_witness :
  ["p1"] <> []
  /\ exists w',
       batchDeletePermissions (memoryAdapter true) ["p1"] seededWorld = (Returned 1, w')
       /\ permissionsGone memoryRows ["p1"] (store w').
Proof.
  split; [discriminate|].
  destruct (proj1 (cascade_delete_permissions (memoryAdapter true) memoryRows
                     (memoryAdapter_conforming true))
              ["p1"] seededWorld ltac:(discriminate))
    as (w' & Hrun & _ & Hgone).
  exists w'. split; [|exact Hgone].
  rewrite Hrun. reflexivity.
Defined.

Example batchDeletePermissions_seeded :
  let '(result, w') := batchDeletePermissions (memoryAdapter true) ["p1"] seededWorld in
  result = Returned 1
  /\ memoryRows (store w') "permission" = [ {[ "id" := "p2" ]} ]
  /\ memoryRows (store w') "userPermission"
     = [ {[ "permissionId" := "p2"; "userId" := "u1" ]} ]
  /\ memoryRows (store w') "memberPermission" = []
  /\ memoryRows (store w') "permissionPermissionSet" = [].
Proof. vm_compute. repeat split. Qed.

(** An empty batch answers 0 without a call to the store. *)
Lemma batchDeletePermissions_empty {S : Type} (adapter : Adapter S) (w : World S) :
  batchDeletePermissions adapter [] w = (Returned 0, w).
Proof. reflexivity. Qed.

(** ** Flattening of set-derived permissions *)

Section FlattenProperties.
Context {T : Type}.
Variable getId : T -> string.

Lemma firstWithItsId_skip (a : T) (items : list T) (x : T) :
  getId a <> getId x -> firstWithItsId getId items x -> firstWithItsId getId (a :: items) x.
Proof.
  intros Hne (before & after & -> & Hfirst).
  exists (a :: before), after. split; [reflexivity|].
  intros y [->|Hy]%elem_of_cons; auto.
Qed.

(** The inner loop, from any state in which [seen] holds exactly the
    identifiers of [result]. *)
Lemma flattenItem_fold (items : list T) :
  forall (result : list T) (seen : gset string),
    (forall k, k ∈ seen <-> k ∈ map getId result) ->
    NoDup (map getId result) ->
    exists added seen',
      fold_left (flattenItem getId) items (result, seen) = (result ++ added, seen')
      /\ (forall k, k ∈ seen' <-> k ∈ map getId (result ++ added))
      /\ NoDup (map getId (result ++ added))
      /\ sublist added items
      /\ (forall x, x ∈ added -> firstWithItsId getId items x /\ getId x ∉ seen)
      /\ (forall y, y ∈ items -> getId y ∈ map getId (result ++ added)).
Proof.
  induction items as [|a items IH]; intros result seen Hseen Hnodup.
  - exists [], seen. simpl. rewrite app_nil_r.
    split; [reflexivity|]. split; [exact Hseen|]. split; [exact Hnodup|].
    split; [constructor|]. split; intros ? Hin; inversion Hin.
  - simpl. unfold setHas. case_bool_decide as Ha.
    + destruct (IH result seen Hseen Hnodup)
        as (added & seen' & Hfold & Hseen' & Hnd & Hsub & Hfirst & Hcover).
      exists added, seen'.
      split; [exact Hfold|]. split; [exact Hseen'|]. split; [exact Hnd|].
      split; [by apply sublist_cons|]. split.
      * intros x Hx. destruct (Hfirst x Hx) as [Hfx Hfresh]. split; [|exact Hfresh].
        apply firstWithItsId_skip; [|exact Hfx].
        intros Heq. apply Hfresh. by rewrite <- Heq.
      * intros y [->|Hy]%elem_of_cons; [|by apply Hcover].
        rewrite map_app. apply elem_of_app. left. by apply Hseen.
    + destruct (IH (result ++ [a]) ({[ getId a ]} ∪ seen))
        as (added & seen' & Hfold & Hseen' & Hnd & Hsub & Hfirst & Hcover).
      * intros k. rewrite map_app, elem_of_union, elem_of_singleton, elem_of_app.
        simpl. rewrite list_elem_of_singleton, Hseen. tauto.
      * rewrite map_app. apply NoDup_app. split; [exact Hnodup|]. split.
        -- intros k Hk [->|Hk']%elem_of_cons; [|inversion Hk'].
           by apply Ha, Hseen.
        -- apply NoDup_singleton.
      * rewrite <- app_assoc in Hfold, Hseen', Hnd, Hcover. simpl in *.
        exists (a :: added), seen'.
        split; [exact Hfold|]. split; [exact Hseen'|]. split; [exact Hnd|].
        split; [by apply sublist_skip|]. split.
        -- intros x [->|Hx]%elem_of_cons.
           ++ split; [|exact Ha].
              exists [], items. split; [reflexivity|]. intros y Hy. inversion Hy.
           ++ destruct (Hfirst x Hx) as [Hfx Hfresh]. split.
              ** apply firstWithItsId_skip; [|exact Hfx].
                 intros Heq. apply Hfresh, elem_of_union. left.
                 by apply elem_of_singleton.
              ** intros Hin. apply Hfresh, elem_of_union. by right.
        -- intros y [->|Hy]%elem_of_cons; [|by apply Hcover].
           rewrite map_app. apply elem_of_app. right. simpl. apply elem_of_cons. by left.
Qed.

(** The two nested loops visit the items in concatenation order. *)
Lemma flatten_fold_concat (groups : list (list T)) (state : list T * gset string) :
  fold_left (fun st items => fold_left (flattenItem getId) items st) groups state
  = fold_left (flattenItem getId) (concat groups) state.
Proof.
  revert state. induction groups as [|g groups IH]; intros state; simpl.
  - reflexivity.
  - rewrite fold_left_app. apply IH.
Qed.

(** C8. Flattening keeps each permission identifier once, and the entry
    kept is the first one met in iteration order; nothing is reordered
    and no identifier is lost. *)
Theorem flattenGroupedRecords_first_wins (recordOfArrays : list (string * list T)) :
  let visited := concat (map snd recordOfArrays) in
  let flattened := flattenGroupedRecords getId recordOfArrays in
  NoDup (map getId flattened)
  /\ sublist flattened visited
  /\ (forall x, x ∈ flattened -> firstWithItsId getId visited x)
  /\ (forall y, y ∈ visited -> exists x, x ∈ flattened /\ getId x = getId y).
Proof.
  intros visited flattened. subst flattened. unfold flattenGroupedRecords.
  rewrite flatten_fold_concat. fold visited.
  destruct (flattenItem_fold visited [] ∅)
    as (added & seen' & Hfold & _ & Hnd & Hsub & Hfirst & Hcover).
  - intros k. simpl. split; intros Hk; [by apply not_elem_of_empty in Hk|inversion Hk].
  - constructor.
  - rewrite Hfold. simpl in *. repeat split; auto.
    + intros x Hx. by apply Hfirst.
    + intros y Hy. apply Hcover in Hy. apply list_elem_of_fmap in Hy as (x & Heq & Hx).
      eauto.
Qed.

End FlattenProperties.

Example flattenGroupedRecords_two_sets :
  flattenGroupedRecords fst
    [("set-a", [("p1", "first"); ("p2", "second")]);
     ("set-b", [("p1", "again"); ("p3", "third")])]
  = [("p1", "first"); ("p2", "second"); ("p3", "third")].
Proof. vm_compute. reflexivity. Qed.

(** A permission linked into two sets is kept once, from the first set. *)
Lemma flattenGroupedRecords_first_wins_witness :
  let groups := [("set-a", [("p1", "first"); ("p2", "second")]);
                 ("set-b", [("p1", "again"); ("p3", "third")])] in
  NoDup (map fst (flattenGroupedRecords fst groups))
  /\ firstWithItsId fst (concat (map snd groups)) ("p1", "first").
Proof.
  intros groups.
  destruct (flattenGroupedRecords_first_wins fst groups) as (Hnodup & _ & Hfirst & _).
  split; [exact Hnodup|].
  apply Hfirst. vm_compute. left.
Defined.

(** ** Chunker *)

Section ChunkerProperties.
Context {T : Type}.
Implicit Types (array : list T) (chunks : list (list T)).

Lemma slice_inside array (i j : Z) :
  0 <= i -> i <= j -> i <= Z.of_nat (List.length array) ->
  slice array i j
  = firstn (Z.to_nat (Z.min j (Z.of_nat (List.length array)) - i))
           (skipn (Z.to_nat i) array).
Proof.
  intros Hi Hij Hlen. unfold slice.
  destruct (Z.ltb_spec i 0) as [?|_]; [lia|].
  destruct (Z.ltb_spec j 0) as [?|_]; [lia|].
  rewrite (Z.min_l i) by lia. reflexivity.
Qed.

Lemma chunkLoop_exit fuel array (n i : Z) chunks :
  Z.of_nat (List.length array) <= i ->
  chunkLoop fuel array n i chunks = Some chunks.
Proof.
  intros Hi. destruct fuel; simpl;
    destruct (Z.ltb_spec i (Z.of_nat (List.length array))); (lia || reflexivity).
Qed.

Lemma firstn_next array (i k : nat) :
  (firstn i array ++ firstn k (skipn i array) = firstn (i + k) array)%list.
Proof. apply take_take_drop. Qed.

(** The loop, started inside the array with only full chunks behind it,
    ends and returns the chunks of the whole array. *)
Lemma chunkLoop_spec (n : Z) array :
  0 < n ->
  forall fuel (i : Z) chunks,
    0 <= i < Z.of_nat (List.length array) ->
    Z.of_nat (List.length array) - i <= Z.of_nat fuel ->
    concat chunks = firstn (Z.to_nat i) array ->
    Forall (fun c => Z.of_nat (List.length c) = n) chunks ->
    exists result,
      chunkLoop fuel array n i chunks = Some result
      /\ concat result = array
      /\ Forall (fun c => 0 < Z.of_nat (List.length c) <= n) result
      /\ (forall init last, result = init ++ [last] ->
          Forall (fun c => Z.of_nat (List.length c) = n) init).
Proof.
  intros Hn. induction fuel as [|fuel IH]; intros i chunks Hi Hfuel Hcat Hfull.
  - lia.
  - simpl. destruct (Z.ltb_spec i (Z.of_nat (List.length array))) as [_|?]; [|lia].
    rewrite slice_inside by lia.
    set (c := firstn _ _).
    assert (Hc : Z.of_nat (List.length c)
                 = Z.min (i + n) (Z.of_nat (List.length array)) - i).
    { subst c. rewrite length_take, length_drop. lia. }
    assert (Hcat' : concat (chunks ++ [c])
                    = firstn (Z.to_nat (Z.min (i + n) (Z.of_nat (List.length array))))
                             array).
    { rewrite concat_app. simpl. rewrite app_nil_r, Hcat. subst c.
      rewrite firstn_next. f_equal. lia. }
    destruct (Z.lt_ge_cases (i + n) (Z.of_nat (List.length array))) as [Hlt|Hge].
    + apply IH; try lia.
      * rewrite Hcat'. f_equal. lia.
      * apply Forall_app. split; [exact Hfull|]. constructor; [lia|constructor].
    + rewrite chunkLoop_exit by lia.
      exists (chunks ++ [c]). split; [reflexivity|]. split; [|split].
      * rewrite Hcat', Z.min_r by lia. rewrite Nat2Z.id. apply firstn_all.
      * apply Forall_app. split.
        -- eapply Forall_impl; [exact Hfull|]. simpl. intros; lia.
        -- constructor; [lia|constructor].
      * intros init last Heq. apply app_inj_tail in Heq as [<- _]. exact Hfull.
Qed.

(** At a positive integer as chunk size the chunks of [chunkArray]
    concatenate to the array, each is non-empty and at most [n] long, and each but
    the last is exactly [n] long; the empty array gives no chunk for any
    chunk size; a non-empty array with a chunk size of zero or less
    throws. *)
Theorem chunkArray_partitions array (n : Z) :
  (0 < n ->
   exists chunks,
     chunkArray array (Some n) = Some (Returned chunks)
     /\ concat chunks = array
     /\ Forall (fun c => 0 < Z.of_nat (List.length c) <= n) chunks
     /\ (forall init last, chunks = init ++ [last] ->
         Forall (fun c => Z.of_nat (List.length c) = n) init))
  /\ chunkArray (@nil T) (Some n) = Some (Returned [])
  /\ (n <= 0 -> array <> [] ->
      chunkArray array (Some n)
      = Some (Thrown (RawError "Chunk size must be greater than 0"))).
Proof.
  split; [|split].
  - intros Hn. unfold chunkArray.
    destruct array as [|x array'] eqn:Harr.
    + exists []. simpl. repeat split; try constructor.
      intros init last Heq. destruct init; discriminate.
    + rewrite <- Harr.
      replace (Nat.eqb (List.length array) 0) with false
        by (subst array; reflexivity).
      destruct (Z.leb_spec n 0) as [?|_]; [lia|].
      destruct (chunkLoop_spec n array Hn (List.length array) 0 [])
        as (result & Hloop & Hcat & Hlen & Hinit).
      * subst array. simpl List.length. lia.
      * lia.
      * reflexivity.
      * constructor.
      * rewrite Hloop. exists result. subst array. auto.
  - reflexivity.
  - intros Hn Hne. unfold chunkArray.
    destruct array as [|x array']; [congruence|]. simpl.
    destruct (Z.leb_spec n 0) as [_|?]; [reflexivity|lia].
Qed.

End ChunkerProperties.

Lemma chunkArray_partitions_witness :
  (exists chunks,
     chunkArray [1; 2; 3; 4; 5] (Some 2) = Some (Returned chunks)
     /\ concat chunks = [1; 2; 3; 4; 5]
     /\ Forall (fun c => 0 < Z.of_nat (List.length c) <= 2) chunks
     /\ (forall init last, chunks = init ++ [last] ->
         Forall (fun c => Z.of_nat (List.length c) = 2) init))
  /\ chunkArray [1; 2; 3] (Some (-1))
     = Some (Thrown (RawError "Chunk size must be greater than 0")).
Proof.
  split.
  - apply (proj1 (chunkArray_partitions [1; 2; 3; 4; 5] 2)). lia.
  - apply (proj2 (proj2 (chunkArray_partitions [1; 2; 3] (-1)))); [lia|discriminate].
Defined.

Example chunkArray_five_by_two :
  chunkArray [1; 2; 3; 4; 5] (Some 2) = Some (Returned [[1; 2]; [3; 4]; [5]]).
Proof. reflexivity. Qed.

Example chunkArray_default_size :
  chunkArray [1; 2; 3] None = Some (Returned [[1; 2; 3]]).
Proof. reflexivity. Qed.

(** ** Whole numbers among the numbers *)

Lemma digits2_pos_size (p : positive) : digits2_pos p = Pos.size p.
Proof. induction p as [p IH|p IH|]; simpl; congruence. Qed.

Lemma digits_bounds (p : positive) : 2 ^ (digits p - 1) <= Z.pos p < 2 ^ digits p.
Proof.
  unfold digits. rewrite digits2_pos_size. split.
  - pose proof (Pos.size_le p) as Hle.
    assert (Hz : Z.pos (2 ^ Pos.size p) <= Z.pos p~0) by (apply Pos2Z.pos_le_pos; exact Hle).
    rewrite Pos2Z.inj_pow in Hz.
    replace (Z.pos (Pos.size p)) with (Z.succ (Z.pos (Pos.size p) - 1)) in Hz by lia.
    rewrite Z.pow_succ_r in Hz by lia. lia.
  - pose proof (Pos.size_gt p) as Hgt.
    assert (Hz : Z.pos p < Z.pos (2 ^ Pos.size p)) by (apply Pos2Z.pos_lt_pos; exact Hgt).
    rewrite Pos2Z.inj_pow in Hz. exact Hz.
Qed.

Lemma digits_positive (p : positive) : 1 <= digits p.
Proof. unfold digits. lia. Qed.

Lemma digits_shift (k : Z) :
  0 <= k -> forall r s, Z.pos r = Z.pos s * 2 ^ k -> digits r = digits s + k.
Proof.
  intros Hk. pattern k. apply natlike_ind; [| |exact Hk]; clear k Hk.
  - intros r s Heq. rewrite Z.mul_1_r in Heq. injection Heq as ->. lia.
  - intros k Hk IH r s Heq. rewrite Z.pow_succ_r in Heq by lia.
    assert (Hpos : 0 < 2 ^ k) by (apply Z.pow_pos_nonneg; lia).
    assert (Heven : Z.pos r = 2 * (Z.pos s * 2 ^ k)) by lia.
    clear Heq. remember (Z.pos s * 2 ^ k) as x eqn:Hx.
    destruct r as [r|r|]; [rewrite Pos2Z.inj_xI in Heven; lia| |lia].
    rewrite Pos2Z.inj_xO in Heven.
    change (digits r~0) with (Z.pos (Pos.succ (digits2_pos r))).
    rewrite Pos2Z.inj_succ. fold (digits r).
    rewrite (IH r s) by lia. lia.
Qed.

Lemma digits_le (p q : positive) : Z.pos p <= Z.pos q -> digits p <= digits q.
Proof.
  intros Hle.
  destruct (Z.le_gt_cases (digits p) (digits q)) as [?|Hgt]; [assumption|].
  pose proof (digits_bounds p) as [Hp _]. pose proof (digits_bounds q) as [_ Hq].
  assert (2 ^ digits q <= 2 ^ (digits p - 1)).
  { apply Z.pow_le_mono_r; lia. }
  lia.
Qed.

Lemma digits_53 (p : positive) : Z.pos p < 2 ^ 53 -> digits p <= 53.
Proof.
  intros Hlt.
  destruct (Z.le_gt_cases (digits p) 53) as [?|Hgt]; [assumption|].
  pose proof (digits_bounds p) as [Hp _].
  assert (2 ^ 53 <= 2 ^ (digits p - 1)) by (apply Z.pow_le_mono_r; lia). lia.
Qed.

Lemma pos_shift_value (q n : positive) : Z.pos (q * 2 ^ n) = Z.pos q * 2 ^ Z.pos n.
Proof. rewrite Pos2Z.inj_mul, Pos2Z.inj_pow. reflexivity. Qed.

Lemma pow2_xO (n : positive) : 2 ^ Z.pos n~0 = 2 ^ Z.pos n * 2 ^ Z.pos n.
Proof. rewrite <- Z.pow_add_r by lia. f_equal. rewrite Pos2Z.inj_xO. lia. Qed.

Lemma pow2_xI (n : positive) : 2 ^ Z.pos n~1 = 2 * (2 ^ Z.pos n * 2 ^ Z.pos n).
Proof.
  rewrite <- Z.pow_add_r, <- Z.pow_succ_r by lia. f_equal. rewrite Pos2Z.inj_xI. lia.
Qed.

(** Shifting out [n] zero bits leaves no remainder behind. *)
Lemma iter_shr_1_exact (n : positive) :
  forall q : positive,
    SpecFloat.iter_pos shr_1 n
      {| shr_m := Z.pos q * 2 ^ Z.pos n; shr_r := false; shr_s := false |}
    = {| shr_m := Z.pos q; shr_r := false; shr_s := false |}.
Proof.
  induction n as [n IH|n IH|]; intros q.
  - cbn [SpecFloat.iter_pos].
    replace (Z.pos q * 2 ^ Z.pos n~1) with (Z.pos (q * 2 ^ n * 2 ^ n)~0)
      by (rewrite Pos2Z.inj_xO, !pos_shift_value, pow2_xI; lia).
    cbn [shr_1 orb].
    rewrite (pos_shift_value (q * 2 ^ n) n), IH, pos_shift_value. apply IH.
  - cbn [SpecFloat.iter_pos].
    replace (Z.pos q * 2 ^ Z.pos n~0) with (Z.pos (q * 2 ^ n) * 2 ^ Z.pos n)
      by (rewrite pos_shift_value, pow2_xO; lia).
    rewrite IH, pos_shift_value. apply IH.
  - cbn [SpecFloat.iter_pos]. replace (Z.pos q * 2 ^ 1) with (Z.pos q~0) by lia. reflexivity.
Qed.

Lemma fexp_normal (d : Z) : -1021 <= d -> fexp 53 1024 d = d - 53.
Proof. intros Hd. unfold fexp, emin. lia. Qed.

(** Rounding a mantissa that ends in [n] zero bits and has 53 bits
    before them loses nothing. *)
Lemma binary_round_aux_exact (sign : bool) (r q : positive) (e n : Z) :
  0 <= n -> Z.pos r = Z.pos q * 2 ^ n -> digits q = 53 ->
  -1074 <= e + n <= 971 ->
  binary_round_aux 53 1024 sign (Z.pos r) e loc_Exact = S754_finite sign q (e + n).
Proof.
  intros Hn Hr Hq He.
  assert (Hdr : digits r = 53 + n) by (rewrite (digits_shift n Hn r q Hr); lia).
  unfold binary_round_aux, shr_fexp. cbn [Zdigits2 shr_record_of_loc].
  fold (digits r). rewrite Hdr, fexp_normal by lia.
  replace (53 + n + e - 53 - e) with n by lia.
  assert (Hstep : shr {| shr_m := Z.pos r; shr_r := false; shr_s := false |} e n
                  = ({| shr_m := Z.pos q; shr_r := false; shr_s := false |}, e + n)).
  { unfold shr. destruct n as [|n|n]; [| |lia].
    - rewrite Z.mul_1_r in Hr. injection Hr as ->. f_equal. lia.
    - rewrite Hr, iter_shr_1_exact. reflexivity. }
  rewrite Hstep. cbn [shr_m loc_of_shr_record round_nearest_even Zdigits2].
  fold (digits q). rewrite Hq, fexp_normal by lia.
  replace (53 + (e + n) - 53 - (e + n)) with 0 by lia.
  cbn [shr shr_m].
  destruct (Z.leb_spec (e + n) (1024 - 53)) as [_|?]; [reflexivity|lia].
Qed.

Lemma iter_xO_value (d r : positive) : Z.pos (Pos.iter xO r d) = Z.pos r * 2 ^ Z.pos d.
Proof.
  revert r. induction d as [|d IH] using Pos.peano_ind; intros r.
  - simpl. rewrite Pos2Z.inj_xO. lia.
  - rewrite Pos.iter_succ, Pos2Z.inj_xO, IH, Pos2Z.inj_succ, Z.pow_succ_r by lia. lia.
Qed.

Lemma shl_align_value (m : positive) (e e' : Z) :
  e' <= e ->
  Z.pos (fst (shl_align m e e')) = Z.pos m * 2 ^ (e - e')
  /\ snd (shl_align m e e') = e'.
Proof.
  intros Hle. unfold shl_align. destruct (e' - e) as [|d|d] eqn:Hd.
  - replace (e - e') with 0 by lia. simpl. split; lia.
  - lia.
  - simpl. rewrite iter_xO_value. replace (e - e') with (Z.pos d) by lia. split; reflexivity.
Qed.

Lemma wholeNumber_mantissa (s : positive) :
  digits s <= 53 ->
  exists q, Z.to_pos (Z.pos s * 2 ^ (53 - digits s)) = q
            /\ Z.pos q = Z.pos s * 2 ^ (53 - digits s)
            /\ digits q = 53.
Proof.
  intros Hs. eexists. split; [reflexivity|].
  assert (Hpos : 0 < Z.pos s * 2 ^ (53 - digits s)).
  { apply Z.mul_pos_pos; [lia|]. apply Z.pow_pos_nonneg; lia. }
  split; [apply Z2Pos.id; exact Hpos|].
  rewrite (digits_shift (53 - digits s) ltac:(lia) _ s); [lia|].
  apply Z2Pos.id; exact Hpos.
Qed.

(** Normalising any way of writing the integer [s] gives [wholeNumber s]. *)
Lemma binary_round_whole (s r : positive) (k : Z) :
  0 <= k -> digits s <= 53 -> Z.pos r = Z.pos s * 2 ^ k ->
  binary_round 53 1024 false r (- k) = wholeNumber s.
Proof.
  intros Hk Hs Hr.
  pose proof (digits_positive s) as Hs1.
  destruct (wholeNumber_mantissa s Hs) as (q & Hq & Hqv & Hqd).
  assert (Hdr : digits r = digits s + k) by exact (digits_shift k Hk r s Hr).
  unfold binary_round, wholeNumber. fold (digits r). rewrite Hq.
  rewrite Hdr, fexp_normal by lia.
  replace (digits s + k + - k - 53) with (digits s - 53) by lia.
  destruct (Z.le_gt_cases (digits s - 53) (- k)) as [Hle|Hgt].
  - destruct (shl_align_value r (- k) (digits s - 53) Hle) as [Hm He].
    destruct (shl_align r (- k) (digits s - 53)) as [mz ez]. simpl in Hm, He. subst ez.
    rewrite (binary_round_aux_exact false mz q (digits s - 53) 0); try lia.
    + f_equal. lia.
    + rewrite Hm, Hr, Hqv, <- Z.mul_assoc, <- Z.pow_add_r by lia.
      rewrite Z.mul_1_r. do 2 f_equal. lia.
  - assert (Halign : shl_align r (- k) (digits s - 53) = (r, - k)).
    { unfold shl_align. destruct (digits s - 53 - - k) eqn:Hd; try reflexivity. lia. }
    rewrite Halign.
    rewrite (binary_round_aux_exact false r q (- k) (k - (53 - digits s))); try lia.
    + f_equal. lia.
    + rewrite Hr, Hqv, <- Z.mul_assoc, <- Z.pow_add_r by lia. do 2 f_equal. lia.
Qed.

Lemma numberOfZ_pos (s : positive) : digits s <= 53 -> numberOfZ (Z.pos s) = wholeNumber s.
Proof.
  intros Hs. unfold numberOfZ, binary_normalize.
  apply (binary_round_whole s s 0); [lia|exact Hs|lia].
Qed.

Lemma numberAdd_whole (p q : positive) :
  digits (p + q) <= 53 ->
  numberAdd (wholeNumber p) (wholeNumber q) = wholeNumber (p + q).
Proof.
  intros Hsum.
  assert (Hp : digits p <= 53) by (pose proof (digits_le p (p + q)); lia).
  assert (Hq : digits q <= 53) by (pose proof (digits_le q (p + q)); lia).
  pose proof (digits_positive p). pose proof (digits_positive q).
  destruct (wholeNumber_mantissa p Hp) as (mp & Hmp & Hmpv & _).
  destruct (wholeNumber_mantissa q Hq) as (mq & Hmq & Hmqv & _).
  unfold numberAdd, wholeNumber. rewrite Hmp, Hmq.
  unfold SFadd. cbn [cond_Zopp].
  set (ez := Z.min (digits p - 53) (digits q - 53)).
  destruct (shl_align_value mp (digits p - 53) ez ltac:(lia)) as [Hap _].
  destruct (shl_align_value mq (digits q - 53) ez ltac:(lia)) as [Haq _].
  set (ap := fst (shl_align mp (digits p - 53) ez)) in *.
  set (aq := fst (shl_align mq (digits q - 53) ez)) in *.
  change (Z.pos ap + Z.pos aq) with (Z.pos (ap + aq)).
  unfold binary_normalize.
  replace ez with (- (- ez)) at 1 by lia.
  apply binary_round_whole; [lia|exact Hsum|].
  rewrite !Pos2Z.inj_add, Hap, Haq, Hmpv, Hmqv.
  rewrite <- !Z.mul_assoc, <- !Z.pow_add_r by lia.
  replace (53 - digits p + (digits p - 53 - ez)) with (- ez) by lia.
  replace (53 - digits q + (digits q - 53 - ez)) with (- ez) by lia.
  lia.
Qed.

Lemma toIntegerOrInfinity_whole (s : positive) :
  digits s <= 53 -> toIntegerOrInfinity (wholeNumber s) = Integer (Z.pos s).
Proof.
  intros Hs. destruct (wholeNumber_mantissa s Hs) as (q & Hq & Hqv & _).
  unfold wholeNumber, toIntegerOrInfinity. rewrite Hq. cbn [cond_Zopp]. f_equal.
  rewrite Z.shiftl_div_pow2 by lia. rewrite Hqv.
  replace (- (digits s - 53)) with (53 - digits s) by lia.
  apply Z.div_mul. apply Z.pow_nonzero; lia.
Qed.

Lemma compare_scaled (a b c : Z) : 0 < c -> (a * c ?= b * c) = (a ?= b).
Proof.
  intros Hc. destruct (Z.compare_spec a b) as [->|Hlt|Hgt].
  - apply Z.compare_refl.
  - apply Z.compare_lt_iff. nia.
  - apply Z.compare_gt_iff. nia.
Qed.

Lemma numberLt_whole (p q : positive) :
  digits p <= 53 -> digits q <= 53 ->
  numberLt (wholeNumber p) (wholeNumber q) = (Z.pos p <? Z.pos q).
Proof.
  intros Hp Hq.
  destruct (wholeNumber_mantissa p Hp) as (mp & Hmp & Hmpv & _).
  destruct (wholeNumber_mantissa q Hq) as (mq & Hmq & Hmqv & _).
  pose proof (digits_bounds p) as [Hp1 Hp2]. pose proof (digits_bounds q) as [Hq1 Hq2].
  unfold numberLt, SFltb, wholeNumber, SFcompare. rewrite Hmp, Hmq.
  destruct (Z.compare_spec (digits p - 53) (digits q - 53)) as [Heq|Hlt|Hgt].
  - change (Pos.compare_cont Eq mp mq) with (Pos.compare mp mq).
    rewrite Pos2Z.inj_compare, Hmpv, Hmqv.
    replace (digits q) with (digits p) by lia.
    assert (Hc : 0 < 2 ^ (53 - digits p)) by (apply Z.pow_pos_nonneg; lia).
    rewrite (compare_scaled _ _ _ Hc).
    unfold Z.ltb. destruct (Z.pos p ?= Z.pos q); reflexivity.
  - assert (2 ^ digits p <= 2 ^ (digits q - 1)) by (apply Z.pow_le_mono_r; lia).
    symmetry. apply Z.ltb_lt. lia.
  - assert (2 ^ digits q <= 2 ^ (digits p - 1)) by (apply Z.pow_le_mono_r; lia).
    symmetry. apply Z.ltb_ge. lia.
Qed.

(** The numbers of the whole numbers from 0 up to [2 ^ 53]. *)
Lemma numberOfZ_zero : numberOfZ 0 = S754_zero false.
Proof. reflexivity. Qed.

Lemma numberAdd_numberOfZ (a b : Z) :
  0 <= a -> 0 <= b -> a + b < 2 ^ 53 ->
  numberAdd (numberOfZ a) (numberOfZ b) = numberOfZ (a + b).
Proof.
  intros Ha Hb Hsum.
  destruct a as [|p|p]; [|
    destruct b as [|q|q]; [| |lia] |lia].
  - rewrite numberOfZ_zero, Z.add_0_l.
    destruct b as [|q|q]; [reflexivity| |lia].
    rewrite numberOfZ_pos by (apply digits_53; lia). reflexivity.
  - rewrite Z.add_0_r, numberOfZ_zero.
    rewrite numberOfZ_pos by (apply digits_53; lia). reflexivity.
  - change (Z.pos p + Z.pos q) with (Z.pos (p + q)) in *.
    rewrite !numberOfZ_pos by (apply digits_53; lia).
    apply numberAdd_whole. apply digits_53; lia.
Qed.

Lemma numberLt_numberOfZ (a b : Z) :
  0 <= a < 2 ^ 53 -> 0 <= b < 2 ^ 53 ->
  numberLt (numberOfZ a) (numberOfZ b) = (a <? b).
Proof.
  intros Ha Hb.
  destruct a as [|p|p]; [| |lia]; destruct b as [|q|q]; try lia.
  - reflexivity.
  - rewrite numberOfZ_zero, numberOfZ_pos by (apply digits_53; lia). reflexivity.
  - rewrite numberOfZ_zero, numberOfZ_pos by (apply digits_53; lia). reflexivity.
  - rewrite !numberOfZ_pos by (apply digits_53; lia).
    apply numberLt_whole; apply digits_53; lia.
Qed.

Lemma toIntegerOrInfinity_numberOfZ (a : Z) :
  0 <= a < 2 ^ 53 -> toIntegerOrInfinity (numberOfZ a) = Integer a.
Proof.
  intros Ha. destruct a as [|p|p]; [reflexivity| |lia].
  rewrite numberOfZ_pos by (apply digits_53; lia).
  apply toIntegerOrInfinity_whole. apply digits_53; lia.
Qed.

Lemma numberLe_numberOfZ_zero (z : Z) :
  0 < z < 2 ^ 53 -> numberLe (numberOfZ z) (numberOfZ 0) = false.
Proof.
  intros Hz. destruct z as [|p|p]; try lia.
  rewrite numberOfZ_pos by (apply digits_53; lia). reflexivity.
Qed.

(** ** The chunker on numbers *)

Section ChunkerOnNumbers.
Context {T : Type}.
Implicit Types (array : list T) (chunks : list (list T)).

Lemma sliceNumber_numberOfZ array (a b : Z) :
  0 <= a < 2 ^ 53 -> 0 <= b < 2 ^ 53 ->
  sliceNumber array (numberOfZ a) (numberOfZ b) = slice array a b.
Proof.
  intros Ha Hb. unfold sliceNumber.
  rewrite !toIntegerOrInfinity_numberOfZ by assumption.
  unfold relativeIndex, slice.
  destruct (Z.ltb_spec a 0) as [?|_]; [lia|].
  destruct (Z.ltb_spec b 0) as [?|_]; [lia|].
  set (len := Z.of_nat (List.length array)).
  destruct (Z.ltb_spec (Z.min a len) 0) as [?|_]; [lia|].
  destruct (Z.ltb_spec (Z.min b len) 0) as [?|_]; [lia|].
  rewrite !Z.min_l with (n := Z.min _ len) by lia. reflexivity.
Qed.

(** With a whole number as chunk size the counter of the loop stays a
    whole number, and the loop on numbers runs as the loop on integers. *)
Lemma chunkLoopNumber_integral array (z : Z) :
  1 <= z < 2 ^ 53 ->
  Z.of_nat (List.length array) < 2 ^ 52 ->
  forall fuel (a : Z) chunks,
    a = 0 \/ z <= a ->
    a < 2 ^ 53 ->
    chunkLoopNumber fuel array (numberOfZ z) (numberOfZ a) chunks
    = chunkLoop fuel array z a chunks.
Proof.
  intros Hz Hlen. induction fuel as [|fuel IH]; intros a chunks Ha Hbound;
    cbn [chunkLoopNumber chunkLoop];
    rewrite numberLt_numberOfZ by lia.
  - reflexivity.
  - destruct (Z.ltb_spec a (Z.of_nat (List.length array))) as [Hin|_]; [|reflexivity].
    rewrite numberAdd_numberOfZ by lia.
    rewrite sliceNumber_numberOfZ by lia.
    apply IH; lia.
Qed.

Lemma chunkArrayNumber_integral array (z : Z) (fuel : nat) :
  1 <= z < 2 ^ 53 ->
  Z.of_nat (List.length array) < 2 ^ 52 ->
  chunkArrayNumber fuel array (Some (numberOfZ z))
  = if Nat.eqb (List.length array) 0 then Some (Returned [])
    else match chunkLoop fuel array z 0 [] with
         | Some chunks => Some (Returned chunks)
         | None => None
         end.
Proof.
  intros Hz Hlen. unfold chunkArrayNumber.
  destruct (Nat.eqb (List.length array) 0); [reflexivity|].
  rewrite numberLe_numberOfZ_zero by lia.
  rewrite (chunkLoopNumber_integral array z Hz Hlen fuel 0 []) by lia.
  reflexivity.
Qed.

(** The model with an integral chunk size is the model on numbers at
    that size. *)
Lemma chunkArray_chunkArrayNumber array (z : Z) :
  1 <= z < 2 ^ 53 ->
  Z.of_nat (List.length array) < 2 ^ 52 ->
  chunkArrayNumber (List.length array) array (Some (numberOfZ z))
  = chunkArray array (Some z).
Proof.
  intros Hz Hlen. rewrite chunkArrayNumber_integral by assumption.
  unfold chunkArray. destruct (Nat.eqb (List.length array) 0); [reflexivity|].
  destruct (Z.leb_spec z 0) as [?|_]; [lia|]. reflexivity.
Qed.

(** The loop on numbers with a whole chunk size: what it returns. *)
Lemma chunkArrayNumber_whole array (z : Z) :
  1 <= z < 2 ^ 53 ->
  Z.of_nat (List.length array) < 2 ^ 52 ->
  exists chunks,
    (forall fuel, (List.length array <= fuel)%nat ->
       chunkArrayNumber fuel array (Some (numberOfZ z)) = Some (Returned chunks))
    /\ concat chunks = array
    /\ Forall (fun c => 0 < Z.of_nat (List.length c) <= z) chunks
    /\ (forall init last, chunks = init ++ [last] ->
        Forall (fun c => Z.of_nat (List.length c) = z) init).
Proof.
  intros Hz Hlen.
  destruct (Nat.eqb_spec (List.length array) 0) as [Hempty|Hne].
  { destruct array; [|discriminate].
    exists []. split; [|split; [|split]].
    - intros fuel _. reflexivity.
    - reflexivity.
    - constructor.
    - intros init last Heq. destruct init; discriminate. }
  apply Nat.eqb_neq in Hne as Hne'.
  destruct (chunkLoop_spec z array ltac:(lia) (List.length array) 0 [])
    as (result & Hloop & Hcat & Hsizes & Hinit);
    [lia|lia|reflexivity|constructor|].
  exists result. split; [|auto].
  intros fuel Hfuel. rewrite chunkArrayNumber_integral, Hne' by assumption.
  destruct (chunkLoop_spec z array ltac:(lia) fuel 0 [])
    as (result' & Hloop' & Hcat' & Hsizes' & Hinit');
    [lia|lia|reflexivity|constructor|].
  rewrite Hloop'. do 2 f_equal.
  (* the two runs return the same chunks *)
  clear - Hloop Hloop' Hfuel.
  revert Hloop Hloop'. generalize (@nil (list T)) as chunks, 0 as i.
  revert Hfuel. generalize (List.length array) as small. intros small.
  revert fuel. induction small as [|small IH]; intros fuel Hfuel chunks i.
  - simpl. destruct fuel; simpl;
      destruct (i <? Z.of_nat (List.length array)); congruence.
  - destruct fuel as [|fuel]; [lia|]. simpl.
    destruct (i <? Z.of_nat (List.length array)); [|congruence].
    apply IH. lia.
Qed.

(** A whole number of 53 bits or fewer has one representation. *)
Lemma integer_is_whole (m : positive) (e z : Z) :
  valid_binary 53 1024 (S754_finite false m e) = true ->
  e <= 0 ->
  Z.pos m mod 2 ^ (- e) = 0 ->
  z = Z.shiftl (Z.pos m) e ->
  1 <= z < 2 ^ 53 /\ S754_finite false m e = numberOfZ z.
Proof.
  intros Hvalid He Hmod ->.
  rewrite Z.shiftl_div_pow2 by lia.
  assert (Hpow : 0 < 2 ^ (- e)) by (apply Z.pow_pos_nonneg; lia).
  apply Z.div_exact in Hmod; [|lia].
  set (z := Z.pos m / 2 ^ (- e)) in *.
  assert (Hz : 1 <= z) by nia.
  destruct z as [|zp|zp] eqn:Hzp; try lia.
  assert (Hm : Z.pos m = Z.pos zp * 2 ^ (- e)) by lia.
  pose proof (digits_shift (- e) ltac:(lia) m zp Hm) as Hdigits.
  pose proof (digits_positive zp) as Hpositive.
  simpl in Hvalid. apply andb_true_iff in Hvalid as [Hcanonical _].
  unfold canonical_mantissa in Hcanonical. apply Z.eqb_eq in Hcanonical.
  fold (digits m) in Hcanonical. unfold fexp, emin in Hcanonical.
  assert (Hexp : e = digits zp - 53) by lia.
  assert (Hsmall : digits zp <= 53) by lia.
  split.
  - pose proof (digits_bounds zp) as [_ Hlt].
    assert (2 ^ digits zp <= 2 ^ 53) by (apply Z.pow_le_mono_r; lia). lia.
  - rewrite numberOfZ_pos by exact Hsmall. unfold wholeNumber.
    rewrite <- Hexp. f_equal.
    replace (53 - digits zp) with (- e) by lia. rewrite <- Hm. reflexivity.
Qed.

(** A chunk size of [2 ^ 53] or more takes the whole array at once. *)
Lemma chunkArrayNumber_large array (m : positive) (e : Z) (fuel : nat) :
  valid_binary 53 1024 (S754_finite false m e) = true ->
  1 <= e ->
  array <> [] ->
  Z.of_nat (List.length array) < 2 ^ 52 ->
  (1 <= fuel)%nat ->
  chunkArrayNumber fuel array (Some (S754_finite false m e)) = Some (Returned [array])
  /\ 2 ^ 53 <= Z.shiftl (Z.pos m) e.
Proof.
  intros Hvalid He Hne Hlen Hfuel.
  simpl in Hvalid. apply andb_true_iff in Hvalid as [Hcanonical _].
  unfold canonical_mantissa in Hcanonical. apply Z.eqb_eq in Hcanonical.
  fold (digits m) in Hcanonical. unfold fexp, emin in Hcanonical.
  assert (Hdigits : digits m = 53) by lia.
  pose proof (digits_bounds m) as [Hlow _]. rewrite Hdigits in Hlow.
  assert (Hvalue : 2 ^ 53 <= Z.shiftl (Z.pos m) e).
  { rewrite Z.shiftl_mul_pow2 by lia.
    assert (2 ^ 1 <= 2 ^ e) by (apply Z.pow_le_mono_r; lia).
    change (2 ^ 53) with (2 ^ (53 - 1) * 2 ^ 1). nia. }
  split; [|exact Hvalue].
  assert (Hlength : (List.length array <> 0)%nat) by (destruct array; [congruence|discriminate]).
  destruct (Z.of_nat (List.length array)) as [|p|p] eqn:Hp; try lia.
  assert (Hdp : digits p <= 53) by (apply digits_53; lia).
  unfold chunkArrayNumber.
  destruct (Nat.eqb_spec (List.length array) 0) as [?|_]; [lia|].
  change (numberLe (S754_finite false m e) (numberOfZ 0)) with false. cbv iota.
  destruct fuel as [|fuel]; [lia|].
  cbn [chunkLoopNumber].
  rewrite Hp, numberOfZ_zero, numberOfZ_pos by exact Hdp.
  change (numberLt (S754_zero false) (wholeNumber p)) with true. cbv iota.
  change (numberAdd (S754_zero false) (S754_finite false m e)) with (S754_finite false m e).
  assert (Hexit : numberLt (S754_finite false m e) (wholeNumber p) = false).
  { unfold numberLt, SFltb, wholeNumber, SFcompare.
    destruct (Z.compare_spec e (digits p - 53)) as [?|?|_]; [lia|lia|reflexivity]. }
  assert (Hslice : sliceNumber array (S754_zero false) (S754_finite false m e) = array).
  { unfold sliceNumber. cbn [toIntegerOrInfinity cond_Zopp relativeIndex].
    rewrite Hp.
    destruct (Z.ltb_spec (Z.shiftl (Z.pos m) e) 0) as [?|_]; [lia|].
    rewrite (Z.min_r (Z.shiftl (Z.pos m) e)) by lia.
    change (if 0 <? 0 then Z.max (Z.pos p + 0) 0 else Z.min 0 (Z.pos p)) with 0.
    rewrite slice_inside by lia. rewrite Hp, Z.min_l by lia.
    simpl skipn. replace (Z.to_nat (Z.pos p - 0)) with (List.length array) by lia.
    apply firstn_all. }
  rewrite Hslice.
  destruct fuel; cbn [chunkLoopNumber]; rewrite Hp, numberOfZ_pos by exact Hdp;
    rewrite Hexit; reflexivity.
Qed.

(** The chunker at a chunk size that is a positive integer. *)
Lemma chunkArrayNumber_integer array (chunkSize : number) (z : Z) :
  Z.of_nat (List.length array) < 2 ^ 52 ->
  numberIsValid chunkSize = true ->
  numberIsInteger chunkSize = true ->
  numberLt (numberOfZ 0) chunkSize = true ->
  toIntegerOrInfinity chunkSize = Integer z ->
  exists chunks,
    (forall fuel, (List.length array <= fuel)%nat ->
       chunkArrayNumber fuel array (Some chunkSize) = Some (Returned chunks))
    /\ concat chunks = array
    /\ Forall (fun c => 0 < Z.of_nat (List.length c) <= z) chunks
    /\ (forall init last, chunks = init ++ [last] ->
        Forall (fun c => Z.of_nat (List.length c) = z) init).
Proof.
  intros Hlen Hvalid Hinteger Hpositive Hz. unfold numberIsValid in Hvalid.
  destruct chunkSize as [sign|sign| |sign m e]; try discriminate.
  destruct sign; [discriminate|].
  cbn [toIntegerOrInfinity cond_Zopp] in Hz. injection Hz as Hz. symmetry in Hz.
  destruct (Z.le_gt_cases e 0) as [He|He].
  - assert (Hmod : Z.pos m mod 2 ^ (- e) = 0).
    { cbn [numberIsInteger] in Hinteger. apply orb_true_iff in Hinteger as [H0|Hmod].
      - apply Z.leb_le in H0. replace e with 0 by lia. apply Z.mod_1_r.
      - apply Z.eqb_eq in Hmod. exact Hmod. }
    destruct (integer_is_whole m e z Hvalid He Hmod Hz) as [Hrange ->].
    apply chunkArrayNumber_whole; assumption.
  - destruct array as [|x array'] eqn:Harray.
    { exists []. split; [|split; [|split]].
      - intros fuel _. reflexivity.
      - reflexivity.
      - constructor.
      - intros init last Heq. destruct init; discriminate. }
    rewrite <- Harray in *.
    assert (Hne : array <> []) by (rewrite Harray; discriminate).
    exists [array]. split; [|split; [|split]].
    + intros fuel Hfuel.
      apply (chunkArrayNumber_large array m e fuel Hvalid); try lia; try assumption.
      rewrite Harray in Hfuel. simpl in Hfuel. lia.
    + simpl. apply app_nil_r.
    + destruct (chunkArrayNumber_large array m e 1 Hvalid) as [_ Hbig]; try lia;
        try assumption.
      constructor; [|constructor]. rewrite Harray at 1. simpl List.length. lia.
    + intros init last Heq. destruct init as [|c [|c' init]]; [constructor|discriminate..].
Qed.

End ChunkerOnNumbers.

Lemma positive_integer_value (chunkSize : number) (z : Z) :
  numberIsValid chunkSize = true ->
  numberIsInteger chunkSize = true ->
  numberLt (numberOfZ 0) chunkSize = true ->
  toIntegerOrInfinity chunkSize = Integer z ->
  1 <= z.
Proof.
  intros Hvalid Hinteger Hpositive Hz. unfold numberIsValid in Hvalid.
  destruct chunkSize as [sign|sign| |sign m e]; try discriminate.
  destruct sign; [discriminate|].
  cbn [toIntegerOrInfinity cond_Zopp] in Hz. injection Hz as Hz. symmetry in Hz.
  destruct (Z.le_gt_cases e 0) as [He|He].
  - assert (Hmod : Z.pos m mod 2 ^ (- e) = 0).
    { cbn [numberIsInteger] in Hinteger. apply orb_true_iff in Hinteger as [H0|Hmod].
      - apply Z.leb_le in H0. replace e with 0 by lia. apply Z.mod_1_r.
      - apply Z.eqb_eq in Hmod. exact Hmod. }
    destruct (integer_is_whole m e z Hvalid He Hmod Hz) as [Hrange _]. lia.
  - subst z. rewrite Z.shiftl_mul_pow2 by lia.
    assert (0 < 2 ^ e) by (apply Z.pow_pos_nonneg; lia). nia.
Qed.

Section ChunkerTheorems.
Context {T : Type}.
Implicit Types (array : list T) (chunks : list (list T)).

(** C9, as amended. For a chunk size that is a positive integer the
    chunks of [chunkArray] concatenate to the array, each is non-empty
    and at most the chunk size long, and each but the last is exactly
    that long; the empty array gives no chunk for any chunk size; a
    non-empty array with a chunk size of zero or less throws. An array
    has fewer than [2 ^ 32] elements; the loop is given as many
    iterations as the array has elements, or more. *)
Theorem chunkArrayNumber_partitions array :
  (Z.of_nat (List.length array) < 2 ^ 32 ->
   forall (chunkSize : number) (n : Z),
     numberIsValid chunkSize = true ->
     numberIsInteger chunkSize = true ->
     numberLt (numberOfZ 0) chunkSize = true ->
     toIntegerOrInfinity chunkSize = Integer n ->
     exists chunks,
       (forall fuel, (List.length array <= fuel)%nat ->
          chunkArrayNumber fuel array (Some chunkSize) = Some (Returned chunks))
       /\ concat chunks = array
       /\ Forall (fun c => 0 < Z.of_nat (List.length c) <= n) chunks
       /\ (forall init last, chunks = init ++ [last] ->
           Forall (fun c => Z.of_nat (List.length c) = n) init))
  /\ (forall fuel chunkSize,
         chunkArrayNumber fuel (@nil T) chunkSize = Some (Returned []))
  /\ (forall fuel (chunkSize : number),
         numberLe chunkSize (numberOfZ 0) = true -> array <> [] ->
         chunkArrayNumber fuel array (Some chunkSize)
         = Some (Thrown (RawError "Chunk size must be greater than 0"))).
Proof.
  split; [|split].
  - intros Hlen chunkSize n Hvalid Hinteger Hpositive Hn.
    apply chunkArrayNumber_integer; try assumption. lia.
  - reflexivity.
  - intros fuel chunkSize Hle Hne. unfold chunkArrayNumber.
    destruct array; [congruence|]. simpl Nat.eqb. cbv iota. rewrite Hle. reflexivity.
Qed.

End ChunkerTheorems.

Lemma chunkArrayNumber_partitions_witness :
  (exists chunks,
     (forall fuel, (5 <= fuel)%nat ->
        chunkArrayNumber fuel [1; 2; 3; 4; 5] (Some (numberOfZ 2)) = Some (Returned chunks))
     /\ concat chunks = [1; 2; 3; 4; 5]
     /\ Forall (fun c => 0 < Z.of_nat (List.length c) <= 2) chunks
     /\ (forall init last, chunks = init ++ [last] ->
         Forall (fun c => Z.of_nat (List.length c) = 2) init))
  /\ chunkArrayNumber 3 [1; 2; 3] (Some (numberOfRatio (-1) 2))
     = Some (Thrown (RawError "Chunk size must be greater than 0")).
Proof.
  split.
  - apply (proj1 (chunkArrayNumber_partitions [1; 2; 3; 4; 5]));
      [simpl; lia|reflexivity..].
  - apply (proj2 (proj2 (chunkArrayNumber_partitions [1; 2; 3])));
      [reflexivity|discriminate].
Defined.

(** Where C9 fails as it was stated: with the chunk size one half every
    other chunk is empty, and with the chunk size one and a half the
    first chunk is shorter and the last is longer than the chunk size. *)
Lemma chunkArrayNumber_fractional_size :
  (numberLt (numberOfZ 0) (numberOfRatio 1 2) = true
   /\ chunkArrayNumber 6 [1; 2; 3] (Some (numberOfRatio 1 2))
      = Some (Returned [[]; [1]; []; [2]; []; [3]]))
  /\ (numberLt (numberOfZ 1) (numberOfRatio 3 2) = true
      /\ numberLt (numberOfRatio 3 2) (numberOfZ 2) = true
      /\ chunkArrayNumber 2 [1; 2; 3] (Some (numberOfRatio 3 2))
         = Some (Returned [[1]; [2; 3]])).
Proof. repeat split; vm_compute; reflexivity. Qed.

Example chunkArrayNumber_examples :
  chunkArrayNumber 5 [1; 2; 3; 4; 5] (Some (numberOfZ 2))
  = Some (Returned [[1; 2]; [3; 4]; [5]])
  /\ chunkArrayNumber 3 [1; 2; 3] None = Some (Returned [[1; 2; 3]])
  /\ chunkArrayNumber 3 [1; 2; 3] (Some S754_nan) = Some (Returned [[]]).
Proof. repeat split; vm_compute; reflexivity. Qed.

(** ** Interpolation touches the conditions only *)

(** C10. [interpolateConditions] returns a rule whose every field other
    than [conditions] is the one of its argument, and a rule without
    conditions comes back unchanged. *)
Theorem interpolateConditions_frame
    (Mustache_render : string -> JsObject -> Outcome JsError JsValue)
    (rule : Rule) (context : JsObject) :
  exists rule',
    interpolateConditions Mustache_render rule context = Returned rule'
    /\ CaslPermission.id rule' = CaslPermission.id rule
    /\ CaslPermission.name rule' = CaslPermission.name rule
    /\ CaslPermission.action rule' = CaslPermission.action rule
    /\ CaslPermission.subject rule' = CaslPermission.subject rule
    /\ CaslPermission.fields rule' = CaslPermission.fields rule
    /\ CaslPermission.inverted rule' = CaslPermission.inverted rule
    /\ CaslPermission.reason rule' = CaslPermission.reason rule
    /\ CaslPermission.source rule' = CaslPermission.source rule
    /\ CaslPermission.createdAt rule' = CaslPermission.createdAt rule
    /\ CaslPermission.updatedAt rule' = CaslPermission.updatedAt rule
    /\ CaslPermission.expiresAt rule' = CaslPermission.expiresAt rule
    /\ CaslPermission.organizationId rule' = CaslPermission.organizationId rule
    /\ (CaslPermission.conditions rule = None -> rule' = rule).
Proof.
  unfold interpolateConditions.
  destruct (CaslPermission.conditions rule) as [c|] eqn:Hc.
  - destruct (negb (truthy c)).
    + exists rule. repeat split; auto.
    + destruct (secureInterpolateObject Mustache_render c context) as [c'|e].
      * exists (CaslPermission.withConditions rule c'). repeat split; auto. discriminate.
      * exists rule. repeat split; auto.
  - exists rule. repeat split; auto.
Qed.

Lemma interpolateConditions_frame_witness :
  let render := fun (_ : string) (_ : JsObject) =>
                  Returned (E := JsError) (JString "secret") in
  let rule := exampleRule "1" "general-rule" USER_DIRECT false in
  CaslPermission.conditions rule = None
  /\ interpolateConditions render rule [("user", JObject [("id", JString "123")])]
     = Returned rule.
Proof.
  intros render rule. split; [reflexivity|].
  destruct (interpolateConditions_frame render rule [("user", JObject [("id", JString "123")])])
    as (rule' & Heq & Hframe).
  rewrite Heq. f_equal.
  apply (proj2 (proj2 (proj2 (proj2 (proj2 (proj2 (proj2 (proj2 (proj2 (proj2
          (proj2 (proj2 Hframe)))))))))))).
  reflexivity.
Defined.

(** ** Batch assignment *)

Lemma chunkArray_concat {T : Type} (array : list T) (n : Z) :
  0 < n ->
  exists chunks, chunkArray array (Some n) = Some (Returned chunks) /\ concat chunks = array.
Proof.
  intros Hn. unfold chunkArray.
  destruct array as [|x array'] eqn:Harr.
  - exists []. split; reflexivity.
  - rewrite <- Harr.
    replace (Nat.eqb (List.length array) 0) with false by (subst array; reflexivity).
    destruct (Z.leb_spec n 0) as [?|_]; [lia|].
    destruct (chunkLoop_spec n array Hn (List.length array) 0 [])
      as (result & Hloop & Hcat & _).
    + subst array. simpl List.length. lia.
    + lia.
    + reflexivity.
    + constructor.
    + rewrite Hloop. exists result. split; [reflexivity|exact Hcat].
Qed.

Lemma chunkArray_ends {T : Type} (array : list T) (chunkSize : option Z) :
  chunkArray array chunkSize <> None.
Proof.
  set (n := match chunkSize with Some n => n | None => BATCH_CHUNK_SIZE end).
  destruct (Z.leb_spec n 0) as [Hle|Hlt].
  - unfold chunkArray. fold n. destruct (Nat.eqb (List.length array) 0); [discriminate|].
    destruct (Z.leb_spec n 0); [discriminate|lia].
  - destruct (chunkArray_concat array n Hlt) as (chunks & Hrun & _).
    replace (chunkArray array chunkSize) with (chunkArray array (Some n)).
    + rewrite Hrun. discriminate.
    + subst n. destruct chunkSize; reflexivity.
Qed.




Lemma bind_returned {S A B : Type} (m : M S A) (k : A -> M S B) (w w1 : World S) (a : A) :
  m w = (Returned a, w1) -> bind m k w = k a w1.
Proof. intros Hm. unfold bind. rewrite Hm. reflexivity. Qed.

Lemma bind_thrown {S A B : Type} (m : M S A) (k : A -> M S B) (w w1 : World S)
    (e : JsError) :
  m w = (Thrown e, w1) -> bind m k w = (Thrown e, w1).
Proof. intros Hm. unfold bind. rewrite Hm. reflexivity. Qed.

Lemma tryCatch_returned {S A : Type} (m : M S A) (handler : JsError -> M S A)
    (w w1 : World S) (a : A) :
  m w = (Returned a, w1) -> tryCatch m handler w = (Returned a, w1).
Proof. intros Hm. unfold tryCatch. rewrite Hm. reflexivity. Qed.

Lemma tryCatch_thrown {S A : Type} (m : M S A) (handler : JsError -> M S A)
    (w w1 : World S) (e : JsError) :
  m w = (Thrown e, w1) -> tryCatch m handler w = handler e w1.
Proof. intros Hm. unfold tryCatch. rewrite Hm. reflexivity. Qed.

Section BatchAssignProperties.
Context {S : Type}.
Variable adapter : Adapter S.
Variable rowsOf : S -> string -> list Row.
Hypothesis unique : UniqueJunctionStore adapter rowsOf.
Variable model : string.
Variable dataOf : string -> Row.







End BatchAssignProperties.

Section BatchAssignTheorems.
Context {S : Type}.
Variable adapter : Adapter S.
Variable rowsOf : S -> string -> list Row.



(** X3. With a chunk size of zero or less, a batch assignment over a
    non-empty list fails with [INTERNAL_SERVER_ERROR] and the message
    [Database operation failed], and no call reaches the store. *)
Theorem batchAssign_rejects_chunk_size (chunkSize : Z) (permissionId : string)
    (ids : list string) (w : World S) :
  chunkSize <= 0 ->
  ids <> [] ->
  batchAssignUsersToPermission adapter chunkSize permissionId ids w
  = (Thrown (APIError "INTERNAL_SERVER_ERROR" "Database operation failed"), w)
  /\ batchAssignMembersToPermission adapter chunkSize permissionId ids w
     = (Thrown (APIError "INTERNAL_SERVER_ERROR" "Database operation failed"), w).
Proof.
  intros Hsize Hne. destruct ids as [|id ids']; [congruence|].
  unfold batchAssignUsersToPermission, batchAssignMembersToPermission, batchAssign.
  change (Nat.eqb (List.length (id :: ids')) 0) with false. cbv iota.
  assert (Hchunks : forall T (x : T) l,
             chunkArray (x :: l) (Some chunkSize)
             = Some (Thrown (RawError "Chunk size must be greater than 0"))).
  { intros T x l. unfold chunkArray. simpl.
    destruct (Z.leb_spec chunkSize 0); [reflexivity|lia]. }
  split.
  - rewrite (tryCatch_thrown _ _ w w (RawError "Chunk size must be greater than 0"));
      [reflexivity|].
    apply bind_thrown. unfold chunkArrayWithOptions. rewrite Hchunks. reflexivity.
  - rewrite (tryCatch_thrown _ _ w w (RawError "Chunk size must be greater than 0"));
      [reflexivity|].
    apply bind_thrown. unfold chunkArrayWithOptions. rewrite Hchunks. reflexivity.
Qed.

End BatchAssignTheorems.



Lemma batchAssign_rejects_chunk_size_witness :
  0 <= 0
  /\ batchAssignUsersToPermission (memoryAdapter true) 0 "p1" ["u1"] emptyWorld
     = (Thrown (APIError "INTERNAL_SERVER_ERROR" "Database operation failed"), emptyWorld).
Proof.
  split; [lia|].
  apply (proj1 (batchAssign_rejects_chunk_size (memoryAdapter true) 0 "p1" ["u1"]
                  emptyWorld ltac:(lia) ltac:(discriminate))).
Defined.

Example batchAssignUsersToPermission_three_by_two :
  let '(result, w') :=
    batchAssignUsersToPermission (memoryAdapter true) 2 "p1" ["u1"; "u2"; "u1"] emptyWorld in
  result = Returned tt
  /\ memoryRows (store w') "userPermission"
     = [userPermissionData "p1" "u1"; userPermissionData "p1" "u2"].
Proof. vm_compute. split; reflexivity. Qed.

(** ** Batch removal *)

Lemma filter_twice {A : Type} (f g : A -> bool) (l : list A) :
  List.filter f (List.filter g l) = List.filter (fun x => (g x && f x)%bool) l.
Proof.
  induction l as [|x l IH]; [reflexivity|]. simpl.
  destruct (g x); simpl; [destruct (f x)|]; rewrite ?IH; reflexivity.
Qed.

Lemma sublist_List_filter {A : Type} (f : A -> bool) (l : list A) :
  sublist (List.filter f l) l.
Proof.
  induction l as [|x l IH]; [constructor|]. simpl.
  destruct (f x); [by apply sublist_skip|by apply sublist_cons].
Qed.


Section BatchRemoveProperties.
Context {S : Type}.
Variable adapter : Adapter S.
Variable rowsOf : S -> string -> list Row.
Hypothesis conforming : ConformingAdapter adapter rowsOf.

Lemma promiseAll_deleteMany (model : string) (whereOf : string -> list Where)
    (ids : list string) :
  forall w,
  exists results s',
    promiseAll (map (fun id => callDeleteMany adapter model (whereOf id)) ids) w
    = (Returned results,
       {| store := s';
          calls := calls w ++ map (fun id => CallDeleteMany model (whereOf id)) ids |})
    /\ rowsOf s' model = rowsOutside whereOf ids (rowsOf (store w) model)
    /\ forall other, other <> model -> rowsOf s' other = rowsOf (store w) other.
Proof.
  induction ids as [|id ids IH]; intros w.
  - exists [], (store w). split; [|split].
    + simpl. rewrite app_nil_r. destruct w; reflexivity.
    + unfold rowsOutside. simpl. induction (rowsOf (store w) model) as [|r l IHl];
        [reflexivity|]. simpl. by rewrite <- IHl.
    + reflexivity.
  - destruct (callDeleteMany_conforms adapter rowsOf conforming model (whereOf id) w)
      as (s1 & Hcall & Hrows1 & Hothers1).
    destruct (IH {| store := s1;
                    calls := calls w ++ [CallDeleteMany model (whereOf id)] |})
      as (results & s2 & Hrest & Hrows2 & Hothers2).
    eexists (_ :: results), s2. split; [|split].
    + simpl. rewrite Hcall, Hrest. simpl. rewrite <- app_assoc. reflexivity.
    + rewrite Hrows2. simpl. rewrite Hrows1. unfold rowsOutside.
      rewrite filter_twice. apply List.filter_ext. intros r. simpl.
      by rewrite negb_orb.
    + intros other Hother. rewrite (Hothers2 other Hother). simpl.
      by apply Hothers1.
Qed.

Lemma batchRemove_removes (model : string) (whereOf : string -> list Where)
    (ids : list string) (w : World S) :
  exists w',
    batchRemove adapter model whereOf ids w = (Returned tt, w')
    /\ calls w' = calls w ++ map (fun id => CallDeleteMany model (whereOf id)) ids
    /\ rowsOf (store w') model = rowsOutside whereOf ids (rowsOf (store w) model)
    /\ forall other, other <> model -> rowsOf (store w') other = rowsOf (store w) other.
Proof.
  unfold batchRemove. destruct ids as [|id ids'] eqn:Hids.
  - exists w. split; [reflexivity|]. split; [simpl; by rewrite app_nil_r|].
    split; [|reflexivity].
    unfold rowsOutside. simpl. induction (rowsOf (store w) model) as [|r l IHl];
      [reflexivity|]. simpl. by rewrite <- IHl.
  - rewrite <- Hids.
    replace (Nat.eqb (List.length ids) 0) with false by (subst ids; reflexivity).
    destruct (promiseAll_deleteMany model whereOf ids w)
      as (results & s' & Hall & Hrows & Hothers).
    eexists. split; [|split; [|split]].
    + apply tryCatch_returned. apply withOptionalTransaction_returned.
      erewrite bind_returned; [reflexivity|exact Hall].
    + reflexivity.
    + exact Hrows.
    + exact Hothers.
Qed.

(** X4. Against a conforming store, removing users, and likewise
    members, from a permission returns, whether or not the pairs were
    assigned; the rows left in the junction relation are the former rows
    that carry none of the named pairs, in their former order, and every
    other relation is untouched. *)
Theorem batchRemove_removes_exactly (permissionId : string) (ids : list string)
    (w : World S) :
  (exists w',
      batchRemoveUsersFromPermission adapter permissionId ids w = (Returned tt, w')
      /\ (forall row,
             In row (rowsOf (store w') "userPermission")
             <-> In row (rowsOf (store w) "userPermission")
                 /\ forall userId, In userId ids ->
                      ~ (row !! "permissionId" = Some permissionId
                         /\ row !! "userId" = Some userId))
      /\ sublist (rowsOf (store w') "userPermission") (rowsOf (store w) "userPermission")
      /\ forall other, other <> "userPermission" ->
           rowsOf (store w') other = rowsOf (store w) other)
  /\ (exists w',
         batchRemoveMembersFromPermission adapter permissionId ids w = (Returned tt, w')
         /\ (forall row,
                In row (rowsOf (store w') "memberPermission")
                <-> In row (rowsOf (store w) "memberPermission")
                    /\ forall memberId, In memberId ids ->
                         ~ (row !! "permissionId" = Some permissionId
                            /\ row !! "memberId" = Some memberId))
         /\ sublist (rowsOf (store w') "memberPermission")
                    (rowsOf (store w) "memberPermission")
         /\ forall other, other <> "memberPermission" ->
              rowsOf (store w') other = rowsOf (store w) other).
Proof.
  assert (Hin : forall (field : string) (rows : list Row) (row : Row),
             In row (rowsOutside (fun id => [WhereEq "permissionId" permissionId;
                                             WhereEq field id]) ids rows)
             <-> In row rows
                 /\ forall id, In id ids ->
                      ~ (row !! "permissionId" = Some permissionId
                         /\ row !! field = Some id)).
  { intros field rows row. unfold rowsOutside. rewrite List.filter_In.
    rewrite negb_true_iff, <- not_true_iff_false, existsb_exists.
    split; intros [Hrow Hnone]; (split; [exact Hrow|]).
    - intros id Hid [Hp Hf]. apply Hnone. exists id. split; [exact Hid|].
      simpl. rewrite !bool_decide_eq_true_2 by assumption. reflexivity.
    - intros (id & Hid & Hmatch). apply (Hnone id Hid).
      simpl in Hmatch. rewrite andb_true_r in Hmatch.
      apply andb_true_iff in Hmatch as [Hp Hf].
      split; by apply bool_decide_eq_true in Hp, Hf. }
  split.
  - destruct (batchRemove_removes "userPermission"
                (fun userId => [WhereEq "permissionId" permissionId;
                                WhereEq "userId" userId]) ids w)
      as (w' & Hrun & _ & Hrows & Hothers).
    exists w'. split; [exact Hrun|]. split; [|split; [|exact Hothers]].
    + intros row. rewrite Hrows. apply Hin.
    + rewrite Hrows. unfold rowsOutside. apply sublist_List_filter.
  - destruct (batchRemove_removes "memberPermission"
                (fun memberId => [WhereEq "permissionId" permissionId;
                                  WhereEq "memberId" memberId]) ids w)
      as (w' & Hrun & _ & Hrows & Hothers).
    exists w'. split; [exact Hrun|]. split; [|split; [|exact Hothers]].
    + intros row. rewrite Hrows. apply Hin.
    + rewrite Hrows. unfold rowsOutside. apply sublist_List_filter.
Qed.

End BatchRemoveProperties.

Lemma batchRemove_removes_exactly_witness :
  exists w',
    batchRemoveUsersFromPermission (memoryAdapter true) "p1" ["u1"] seededWorld
    = (Returned tt, w')
    /\ sublist (memoryRows (store w') "userPermission")
               (memoryRows seededStore "userPermission")
    /\ memoryRows (store w') "permission" = memoryRows seededStore "permission".
Proof.
  destruct (proj1 (batchRemove_removes_exactly (memoryAdapter true) memoryRows
                     (memoryAdapter_conforming true) "p1" ["u1"] seededWorld))
    as (w' & Hrun & _ & Hsub & Hothers).
  exists w'. split; [exact Hrun|]. split; [exact Hsub|].
  apply Hothers. discriminate.
Defined.

Example batchRemoveUsersFromPermission_seeded :
  let '(result, w') :=
    batchRemoveUsersFromPermission (memoryAdapter true) "p1" ["u1"; "u9"] seededWorld in
  result = Returned tt
  /\ memoryRows (store w') "userPermission" = [userPermissionData "p2" "u1"].
Proof. vm_compute. split; reflexivity. Qed.

Section AssignRemoveRoundTrip.
Context {S : Type}.
Variable adapter : Adapter S.
Variable rowsOf : S -> string -> list Row.


End AssignRemoveRoundTrip.


(** ** Failure of a cascade *)

(** Without a transaction the deletions made before the failure stay. *)
Example batchDeletePermissions_partial_without_transaction :
  let '(result, w') :=
    batchDeletePermissions (failingAdapter "permission" false) ["p1"] seededWorld in
  result = Thrown (APIError "INTERNAL_SERVER_ERROR" "Database operation failed")
  /\ memoryRows (store w') "permission" = memoryRows seededStore "permission"
  /\ memoryRows (store w') "memberPermission" = [].
Proof. vm_compute. repeat split. Qed.

(** ** What a cascade leaves alone *)

Section CascadeFrame.
Context {S : Type}.
Variable adapter : Adapter S.
Variable rowsOf : S -> string -> list Row.
Hypothesis conforming : ConformingAdapter adapter rowsOf.

(** Four deletions in a row over four different relations. *)
Lemma cascade_of_four {A : Type} (f : JsValue -> A) (m1 m2 m3 m4 : string)
    (c1 c2 c3 c4 : list Where) (w : World S) :
  m1 <> m2 -> m1 <> m3 -> m1 <> m4 -> m2 <> m3 -> m2 <> m4 -> m3 <> m4 ->
  exists s',
    (_ <- callDeleteMany adapter m1 c1 ;;
     _ <- callDeleteMany adapter m2 c2 ;;
     _ <- callDeleteMany adapter m3 c3 ;;
     result <- callDeleteMany adapter m4 c4 ;;
     ret (f result)) w
    = (Returned (f (JNumber (Z.of_nat (List.length
                                         (List.filter (matchesAll c4)
                                                      (rowsOf (store w) m4)))))),
       {| store := s';
          calls := calls w ++ [CallDeleteMany m1 c1; CallDeleteMany m2 c2;
                               CallDeleteMany m3 c3; CallDeleteMany m4 c4] |})
    /\ rowsOf s' m1 = rowsNotMatching c1 (rowsOf (store w) m1)
    /\ rowsOf s' m2 = rowsNotMatching c2 (rowsOf (store w) m2)
    /\ rowsOf s' m3 = rowsNotMatching c3 (rowsOf (store w) m3)
    /\ rowsOf s' m4 = rowsNotMatching c4 (rowsOf (store w) m4)
    /\ forall other,
         other <> m1 -> other <> m2 -> other <> m3 -> other <> m4 ->
         rowsOf s' other = rowsOf (store w) other.
Proof.
  intros H12 H13 H14 H23 H24 H34.
  destruct (callDeleteMany_conforms adapter rowsOf conforming m1 c1 w)
    as (s1 & E1 & R1 & O1).
  set (w1 := {| store := s1; calls := _ |}) in *.
  destruct (callDeleteMany_conforms adapter rowsOf conforming m2 c2 w1)
    as (s2 & E2 & R2 & O2).
  set (w2 := {| store := s2; calls := _ |}) in *.
  destruct (callDeleteMany_conforms adapter rowsOf conforming m3 c3 w2)
    as (s3 & E3 & R3 & O3).
  set (w3 := {| store := s3; calls := _ |}) in *.
  destruct (callDeleteMany_conforms adapter rowsOf conforming m4 c4 w3)
    as (s4 & E4 & R4 & O4).
  exists s4. split; [|split; [|split; [|split; [|split]]]].
  - erewrite bind_returned by exact E1. erewrite bind_returned by exact E2.
    erewrite bind_returned by exact E3. erewrite bind_returned by exact E4.
    unfold ret. subst w3 w2 w1. simpl in *.
    rewrite (O3 m4), (O2 m4), (O1 m4) by congruence.
    rewrite <- !app_assoc. reflexivity.
  - subst w3 w2 w1. simpl in *.
    rewrite (O4 m1), (O3 m1), (O2 m1) by congruence. exact R1.
  - subst w3 w2 w1. simpl in *.
    rewrite (O4 m2), (O3 m2), R2, (O1 m2) by congruence. reflexivity.
  - subst w3 w2 w1. simpl in *.
    rewrite (O4 m3), R3, (O2 m3), (O1 m3) by congruence. reflexivity.
  - subst w3 w2 w1. simpl in *.
    rewrite R4, (O3 m4), (O2 m4), (O1 m4) by congruence. reflexivity.
  - intros other N1 N2 N3 N4. subst w3 w2 w1. simpl in *.
    rewrite (O4 other), (O3 other), (O2 other), (O1 other) by congruence. reflexivity.
Qed.

(** X7. The cascade over permissions removes nothing else: against a
    conforming store each of the four relations keeps exactly the rows
    that do not refer to a deleted identifier, in their order, and every
    other relation is untouched. *)
Theorem batchDeletePermissions_removes_only (ids : list string) (w : World S) :
  ids <> [] ->
  exists n w',
    batchDeletePermissions adapter ids w = (Returned n, w')
    /\ rowsOf (store w') "userPermission"
       = rowsNotMatching [WhereIn "permissionId" ids] (rowsOf (store w) "userPermission")
    /\ rowsOf (store w') "memberPermission"
       = rowsNotMatching [WhereIn "permissionId" ids] (rowsOf (store w) "memberPermission")
    /\ rowsOf (store w') "permissionPermissionSet"
       = rowsNotMatching [WhereIn "permissionId" ids]
                         (rowsOf (store w) "permissionPermissionSet")
    /\ rowsOf (store w') "permission"
       = rowsNotMatching [WhereIn "id" ids] (rowsOf (store w) "permission")
    /\ forall other,
         other <> "userPermission" -> other <> "memberPermission" ->
         other <> "permissionPermissionSet" -> other <> "permission" ->
         rowsOf (store w') other = rowsOf (store w) other.
Proof.
  intros Hne.
  destruct (cascade_of_four numberOrZero
              "userPermission" "memberPermission" "permissionPermissionSet" "permission"
              [WhereIn "permissionId" ids] [WhereIn "permissionId" ids]
              [WhereIn "permissionId" ids] [WhereIn "id" ids] w)
    as (s' & Hrun & R1 & R2 & R3 & R4 & Hothers); try discriminate.
  eexists _, _. split.
  { unfold batchDeletePermissions.
    destruct ids as [|id ids']; [congruence|].
    change (Nat.eqb (List.length (id :: ids')) 0) with false. cbv iota.
    apply tryCatch_returned, withOptionalTransaction_returned. exact Hrun. }
  simpl. split; [exact R1|]. split; [exact R2|]. split; [exact R3|].
  split; [exact R4|exact Hothers].
Qed.

(** X8. Against a conforming store, deleting permission sets issues the
    deletions of the three junction relations and then the deletion of
    the permission-set rows, in that order; afterwards no junction row
    refers to a deleted set and no permission-set row carries a deleted
    identifier; the permissions themselves are kept; the answer is the
    number of permission-set rows removed. *)
Theorem cascade_delete_permission_sets :
  (forall ids w,
      ids <> [] ->
      exists w',
        batchDeletePermissionSets adapter ids w
        = (Returned (Z.of_nat (List.length
                                 (List.filter (matchesAll [WhereIn "id" ids])
                                              (rowsOf (store w) "permissionSet")))), w')
        /\ calls w'
           = calls w
             ++ [CallDeleteMany "userPermissionSet" [WhereIn "permissionSetId" ids];
                 CallDeleteMany "memberPermissionSet" [WhereIn "permissionSetId" ids];
                 CallDeleteMany "permissionPermissionSet" [WhereIn "permissionSetId" ids];
                 CallDeleteMany "permissionSet" [WhereIn "id" ids]]
        /\ permissionSetsGone rowsOf ids (store w')
        /\ rowsOf (store w') "permission" = rowsOf (store w) "permission")
  /\ (forall id w,
         exists w',
           deletePermissionSet adapter id w
           = (Returned (Z.of_nat (List.length
                                    (List.filter (matchesAll [WhereEq "id" id])
                                                 (rowsOf (store w) "permissionSet")))), w')
           /\ calls w'
              = calls w
                ++ [CallDeleteMany "userPermissionSet" [WhereEq "permissionSetId" id];
                    CallDeleteMany "memberPermissionSet" [WhereEq "permissionSetId" id];
                    CallDeleteMany "permissionPermissionSet" [WhereEq "permissionSetId" id];
                    CallDeleteMany "permissionSet" [WhereEq "id" id]]
           /\ permissionSetsGone rowsOf [id] (store w')
           /\ rowsOf (store w') "permission" = rowsOf (store w) "permission").
Proof.
  split.
  - intros ids w Hne.
    destruct (cascade_of_four numberOrZero
                "userPermissionSet" "memberPermissionSet" "permissionPermissionSet"
                "permissionSet"
                [WhereIn "permissionSetId" ids] [WhereIn "permissionSetId" ids]
                [WhereIn "permissionSetId" ids] [WhereIn "id" ids] w)
      as (s' & Hrun & R1 & R2 & R3 & R4 & Hothers); try discriminate.
    eexists. split; [|split; [|split]].
    + unfold batchDeletePermissionSets.
      destruct ids as [|id ids']; [congruence|].
      change (Nat.eqb (List.length (id :: ids')) 0) with false. cbv iota.
      apply tryCatch_returned, withOptionalTransaction_returned. exact Hrun.
    + reflexivity.
    + simpl. unfold permissionSetsGone. rewrite R1, R2, R3, R4.
      repeat split; apply noRowWith_after_in.
    + simpl. apply Hothers; discriminate.
  - intros id w.
    destruct (cascade_of_four numberOrZero
                "userPermissionSet" "memberPermissionSet" "permissionPermissionSet"
                "permissionSet"
                [WhereEq "permissionSetId" id] [WhereEq "permissionSetId" id]
                [WhereEq "permissionSetId" id] [WhereEq "id" id] w)
      as (s' & Hrun & R1 & R2 & R3 & R4 & Hothers); try discriminate.
    eexists. split; [|split; [|split]].
    + unfold deletePermissionSet.
      apply tryCatch_returned, withOptionalTransaction_returned. exact Hrun.
    + reflexivity.
    + simpl. unfold permissionSetsGone. rewrite R1, R2, R3, R4.
      repeat split; apply noRowWith_after_eq.
    + simpl. apply Hothers; discriminate.
Qed.

End CascadeFrame.

Lemma batchDeletePermissions_removes_only_witness :
  ["p1"] <> []
  /\ exists n w',
       batchDeletePermissions (memoryAdapter false) ["p1"] seededWorld = (Returned n, w')
       /\ memoryRows (store w') "userPermission"
          = rowsNotMatching [WhereIn "permissionId" ["p1"]]
                            (memoryRows seededStore "userPermission").
Proof.
  split; [discriminate|].
  destruct (batchDeletePermissions_removes_only (memoryAdapter false) memoryRows
              (memoryAdapter_conforming false) ["p1"] seededWorld ltac:(discriminate))
    as (n & w' & Hrun & Hrows & _).
  exists n, w'. split; [exact Hrun|exact Hrows].
Defined.

Lemma cascade_delete_permission_sets_witness :
  ["s1"] <> []
  /\ exists w',
       batchDeletePermissionSets (memoryAdapter true) ["s1"] seededSetWorld
       = (Returned 1, w')
       /\ permissionSetsGone memoryRows ["s1"] (store w').
Proof.
  split; [discriminate|].
  destruct (proj1 (cascade_delete_permission_sets (memoryAdapter true) memoryRows
                     (memoryAdapter_conforming true))
              ["s1"] seededSetWorld ltac:(discriminate))
    as (w' & Hrun & _ & Hgone & _).
  exists w'. split; [|exact Hgone].
  rewrite Hrun. reflexivity.
Defined.

Example batchDeletePermissionSets_seeded :
  let '(result, w') :=
    batchDeletePermissionSets (memoryAdapter true) ["s1"] seededSetWorld in
  result = Returned 1
  /\ memoryRows (store w') "permissionSet" = [ {[ "id" := "s2" ]} ]
  /\ memoryRows (store w') "userPermissionSet"
     = [ {[ "permissionSetId" := "s2"; "userId" := "u1" ]} ]
  /\ memoryRows (store w') "permissionPermissionSet" = []
  /\ memoryRows (store w') "permission" = [ {[ "id" := "p1" ]} ].
Proof. vm_compute. repeat split. Qed.

(** ** Creation of permissions *)

Section CreatePermissionProperties.
Context {S : Type}.
Variable adapter : Adapter S.

Lemma promiseAll_first_thrown {A : Type} (operation : M S A) (rest : list (M S A))
    (w w1 : World S) (e : JsError) :
  operation w = (Thrown e, w1) ->
  fst (promiseAll (operation :: rest) w) = Thrown e.
Proof.
  intros Hop. simpl. rewrite Hop. destruct (promiseAll rest w1). reflexivity.
Qed.

(** X9. When the store refuses the first insert, [batchCreatePermissions]
    under an adapter with transactions throws the classified error,
    [CONFLICT] with [Duplicate entry] for a duplicate key and
    [INTERNAL_SERVER_ERROR] otherwise; under an adapter without
    transactions it throws the error of the store as it is, since the
    promise of [Promise.all] is returned without [await] and settles
    after the [try] block has been left. *)
Theorem batchCreatePermissions_failure (data : Row) (rest : list Row) (w : World S)
    (e : JsError) (s' : S) :
  adapter_create adapter "permission" data (store w) = (Thrown e, s') ->
  fst (batchCreatePermissions adapter (data :: rest) w)
  = Thrown (if hasTransaction adapter
            then (if isDuplicateKeyError e
                  then APIError "CONFLICT" "Duplicate entry"
                  else APIError "INTERNAL_SERVER_ERROR" "Database operation failed")
            else e).
Proof.
  intros Hcreate. unfold batchCreatePermissions.
  change (Nat.eqb (List.length (data :: rest)) 0) with false. cbv iota.
  assert (Hop : callCreate adapter "permission" data w
                = (Thrown e, {| store := s';
                                calls := calls w ++ [CallCreate "permission" data] |})).
  { unfold callCreate, issue. rewrite Hcreate. reflexivity. }
  pose proof (promiseAll_first_thrown _ (map (callCreate adapter "permission") rest)
                _ _ _ Hop) as Hall.
  change (callCreate adapter "permission" data :: map (callCreate adapter "permission") rest)
    with (map (callCreate adapter "permission") (data :: rest)) in Hall.
  destruct (hasTransaction adapter).
  - unfold tryCatch, transaction.
    destruct (promiseAll (map (callCreate adapter "permission") (data :: rest)) w)
      as [[rows|e0] w0]; simpl in Hall; [discriminate|].
    injection Hall as ->. unfold rethrowDuplicateEntry.
    destruct (isDuplicateKeyError e); reflexivity.
  - exact Hall.
Qed.

(** X10. [createPermission] returns the row the store created, and
    classifies every failure of the insert, with or without
    transactions: [CONFLICT] with [Duplicate entry] exactly when
    [isDuplicateKeyError] recognises the error of the store, and
    [INTERNAL_SERVER_ERROR] with [Database operation failed]
    otherwise. *)
Theorem createPermission_classifies (data : Row) (w : World S) :
  (forall row s',
      adapter_create adapter "permission" data (store w) = (Returned row, s') ->
      createPermission adapter data w
      = (Returned (Some row),
         {| store := s'; calls := calls w ++ [CallCreate "permission" data] |}))
  /\ (forall e s',
         adapter_create adapter "permission" data (store w) = (Thrown e, s') ->
         fst (createPermission adapter data w)
         = Thrown (if isDuplicateKeyError e
                   then APIError "CONFLICT" "Duplicate entry"
                   else APIError "INTERNAL_SERVER_ERROR" "Database operation failed")).
Proof.
  split.
  - intros row s' Hcreate.
    unfold createPermission, batchCreatePermissions, tryCatch, bind, transaction.
    change (Nat.eqb (List.length [data]) 0) with false. cbv iota.
    destruct (hasTransaction adapter); simpl;
      unfold callCreate, issue; rewrite Hcreate; reflexivity.
  - intros e s' Hcreate.
    pose proof (batchCreatePermissions_failure data [] w e s' Hcreate) as Hbatch.
    unfold createPermission, tryCatch, bind.
    destruct (batchCreatePermissions adapter [data] w) as [[rows|e0] w0];
      simpl in Hbatch; [discriminate|].
    injection Hbatch as ->. unfold rethrowDuplicateEntry.
    destruct (hasTransaction adapter); [|destruct (isDuplicateKeyError e); reflexivity].
    destruct (isDuplicateKeyError e); reflexivity.
Qed.

End CreatePermissionProperties.

Lemma batchCreatePermissions_failure_witness :
  fst (batchCreatePermissions (memoryAdapter false) [ {[ "id" := "p1" ]} ] seededWorld)
  = Thrown (RawError "UNIQUE constraint failed")
  /\ fst (batchCreatePermissions (memoryAdapter true) [ {[ "id" := "p1" ]} ] seededWorld)
     = Thrown (APIError "CONFLICT" "Duplicate entry").
Proof.
  split.
  - exact (batchCreatePermissions_failure (memoryAdapter false) {[ "id" := "p1" ]} []
             seededWorld (RawError "UNIQUE constraint failed") seededStore eq_refl).
  - exact (batchCreatePermissions_failure (memoryAdapter true) {[ "id" := "p1" ]} []
             seededWorld (RawError "UNIQUE constraint failed") seededStore eq_refl).
Defined.

Lemma createPermission_classifies_witness :
  fst (createPermission (memoryAdapter false) {[ "id" := "p1" ]} seededWorld)
  = Thrown (APIError "CONFLICT" "Duplicate entry")
  /\ fst (createPermission (memoryAdapter false) {[ "id" := "p9" ]} seededWorld)
     = Returned (Some {[ "id" := "p9" ]}).
Proof.
  split.
  - exact (proj2 (createPermission_classifies (memoryAdapter false) {[ "id" := "p1" ]}
                    seededWorld)
             (RawError "UNIQUE constraint failed") seededStore eq_refl).
  - erewrite (proj1 (createPermission_classifies (memoryAdapter false) {[ "id" := "p9" ]}
                       seededWorld));
      [|vm_compute; reflexivity].
    reflexivity.
Defined.

(** ** Interpolated conditions carry no dangerous key *)

Lemma freeOfDangerousKeys_object (entries : JsObject) :
  freeOfDangerousKeys (JObject entries)
  = forallb (fun entry : string * JsValue =>
               let '(key, val) := entry in
               (negb (setHas DANGEROUS_TEMPLATE_KEYS key) && freeOfDangerousKeys val)%bool)
            entries.
Proof. reflexivity. Qed.

Lemma freeOfDangerousKeys_array (items : list JsValue) :
  freeOfDangerousKeys (JArray items) = forallb freeOfDangerousKeys items.
Proof. reflexivity. Qed.

Lemma objSet_free (o : JsObject) (key : string) (v : JsValue) :
  freeOfDangerousKeys (JObject o) = true ->
  setHas DANGEROUS_TEMPLATE_KEYS key = false ->
  freeOfDangerousKeys v = true ->
  freeOfDangerousKeys (JObject (objSet o key v)) = true.
Proof.
  intros Ho Hkey Hv. rewrite freeOfDangerousKeys_object in *.
  induction o as [|[k w] rest IH]; simpl in *.
  - rewrite Hkey, Hv. reflexivity.
  - apply andb_true_iff in Ho as [Hkw Hrest].
    destruct (String.eqb_spec k key) as [->|Hne]; simpl.
    + rewrite Hkey, Hv, Hrest. reflexivity.
    + rewrite Hkw. simpl. by apply IH.
Qed.

Lemma assignProperty_free (o : JsObject) (key : string) (v : JsValue) :
  freeOfDangerousKeys (JObject o) = true ->
  setHas DANGEROUS_TEMPLATE_KEYS key = false ->
  freeOfDangerousKeys v = true ->
  freeOfDangerousKeys (JObject (assignProperty o key v)) = true.
Proof.
  intros Ho Hkey Hv. unfold assignProperty.
  destruct (String.eqb key "__proto__"); [exact Ho|by apply objSet_free].
Qed.

Section InterpolationDepth.
Variable Mustache_render : string -> JsObject -> Outcome JsError JsValue.

Lemma secureInterpolateObject_free (value : JsValue) (context : JsObject) :
  exists result,
    secureInterpolateObject Mustache_render value context = Returned result
    /\ freeOfDangerousKeys result = true.
Proof.
  induction value as [| |b|n|s|items IH|entries IH|tag] using JsValue_induction;
    try (simpl; eexists; split; reflexivity).
  - simpl. destruct (negb (includes s "{{")); [eexists; split; reflexivity|].
    destruct (validateTemplateVariables s); [|eexists; split; reflexivity].
    destruct (Mustache_render s context) as [[]|]; eexists; split; reflexivity.
  - rewrite secureInterpolateObject_array.
    assert (Hmap : exists vs,
               interpolateItems Mustache_render context items = Returned vs
               /\ forallb freeOfDangerousKeys vs = true).
    { induction IH as [|item items' (v & Hv & Hfree) _ (vs & Hvs & Hfrees)]; simpl.
      - exists []. split; reflexivity.
      - rewrite Hv, Hvs. exists (v :: vs). split; [reflexivity|].
        simpl. rewrite Hfree, Hfrees. reflexivity. }
    destruct Hmap as (vs & -> & Hfree). exists (JArray vs). split; [reflexivity|].
    rewrite freeOfDangerousKeys_array. exact Hfree.
  - rewrite secureInterpolateObject_object.
    assert (Hloop : forall acc,
               freeOfDangerousKeys (JObject acc) = true ->
               exists result,
                 interpolateEntries Mustache_render context entries acc = Returned result
                 /\ freeOfDangerousKeys (JObject result) = true).
    { induction IH as [|[key val] entries' (v & Hv & Hfree) _ IHentries];
        intros acc Hacc; simpl.
      - exists acc. split; [reflexivity|exact Hacc].
      - destruct (setHas DANGEROUS_TEMPLATE_KEYS key) eqn:Hkey; [by apply IHentries|].
        simpl in Hv. rewrite Hv. apply IHentries.
        by apply assignProperty_free. }
    destruct (Hloop [] eq_refl) as (result & -> & Hfree).
    exists (JObject result). split; [reflexivity|exact Hfree].
Qed.

(** The conditions of an interpolated rule. *)
Lemma interpolateConditions_free (rule : Rule) (context : JsObject) :
  exists rule',
    interpolateConditions Mustache_render rule context = Returned rule'
    /\ forall c, CaslPermission.conditions rule' = Some c -> freeOfDangerousKeys c = true.
Proof.
  unfold interpolateConditions.
  destruct (CaslPermission.conditions rule) as [c|] eqn:Hc.
  - destruct (truthy c) eqn:Htruthy; simpl.
    + destruct (secureInterpolateObject_free c context) as (c' & -> & Hfree).
      exists (CaslPermission.withConditions rule c'). split; [reflexivity|].
      simpl. intros ? [= <-]. exact Hfree.
    + exists rule. split; [reflexivity|].
      rewrite Hc. intros ? [= <-]. destruct c; try reflexivity; discriminate.
  - exists rule. split; [reflexivity|]. rewrite Hc. discriminate.
Qed.

(** X11. Whatever the templating engine does, the copy made by
    [secureInterpolateObject] holds none of the keys [__proto__],
    [constructor] and [prototype] at any depth, and neither do the
    conditions of a rule that [interpolateConditions] returns. *)
Theorem interpolation_strips_dangerous_keys :
  (forall value context,
      exists result,
        secureInterpolateObject Mustache_render value context = Returned result
        /\ freeOfDangerousKeys result = true)
  /\ (forall rule context,
         exists rule',
           interpolateConditions Mustache_render rule context = Returned rule'
           /\ forall c, CaslPermission.conditions rule' = Some c ->
                        freeOfDangerousKeys c = true).
Proof.
  split.
  - apply secureInterpolateObject_free.
  - apply interpolateConditions_free.
Qed.

End InterpolationDepth.

Example secureInterpolateObject_nested_prototype :
  secureInterpolateObject guardedRender
    (JObject [("owner", JObject [("__proto__", JObject [("admin", JBool true)]);
                                 ("id", JString "{{user.id}}")]);
              ("tags", JArray [JObject [("constructor", JString "x")]])])
    []
  = Returned (JObject [("owner", JObject [("id", JString "rendered")]);
                       ("tags", JArray [JObject []])]).
Proof. vm_compute. reflexivity. Qed.

(** ** The engine sees validated templates only *)

Section EngineIndependence.
Variables render1 render2 : string -> JsObject -> Outcome JsError JsValue.
Variable context : JsObject.
Hypothesis agree : forall template,
  includes template "{{" = true ->
  validateTemplateVariables template = [] ->
  render1 template context = render2 template context.

Lemma secureInterpolateObject_agree (value : JsValue) :
  secureInterpolateObject render1 value context
  = secureInterpolateObject render2 value context.
Proof.
  induction value as [| |b|n|s|items IH|entries IH|tag] using JsValue_induction;
    try reflexivity.
  - simpl. destruct (includes s "{{") eqn:Hmarker; [|reflexivity]. simpl.
    destruct (validateTemplateVariables s) eqn:Hvalid; [|reflexivity].
    rewrite (agree s Hmarker Hvalid). reflexivity.
  - rewrite !secureInterpolateObject_array.
    replace (interpolateItems render1 context items)
      with (interpolateItems render2 context items); [reflexivity|].
    induction IH as [|item items' Hitem _ Hitems]; simpl; [reflexivity|].
    rewrite Hitem, Hitems. reflexivity.
  - rewrite !secureInterpolateObject_object.
    replace (interpolateEntries render1 context entries [])
      with (interpolateEntries render2 context entries []); [reflexivity|].
    generalize (@nil (string * JsValue)).
    induction IH as [|[key val] entries' Hentry _ Hentries]; intros acc; simpl;
      [reflexivity|].
    destruct (setHas DANGEROUS_TEMPLATE_KEYS key); [apply Hentries|].
    simpl in Hentry. rewrite Hentry.
    destruct (secureInterpolateObject render2 val context); [apply Hentries|reflexivity].
Qed.

End EngineIndependence.

(** X12. The templating engine is consulted with the given context and
    with templates that contain a marker and passed the validation, and
    with nothing else: two engines that agree on those give the same
    result, for values and for rules. *)
Theorem interpolation_renders_validated_templates_only
    (render1 render2 : string -> JsObject -> Outcome JsError JsValue)
    (context : JsObject) :
  (forall template,
      includes template "{{" = true ->
      validateTemplateVariables template = [] ->
      render1 template context = render2 template context) ->
  (forall value,
      secureInterpolateObject render1 value context
      = secureInterpolateObject render2 value context)
  /\ (forall rule,
         interpolateConditions render1 rule context
         = interpolateConditions render2 rule context).
Proof.
  intros Hagree. split.
  - intros value. by apply secureInterpolateObject_agree.
  - intros rule. unfold interpolateConditions.
    destruct (CaslPermission.conditions rule) as [c|]; [|reflexivity].
    destruct (negb (truthy c)); [reflexivity|].
    by rewrite (secureInterpolateObject_agree render1 render2 context Hagree c).
Qed.

Lemma interpolation_renders_validated_templates_only_witness :
  secureInterpolateObject guardedRender
    (JObject [("ownerId", JString "{{user.id}}"); ("path", JString "{{../secret}}")]) []
  = secureInterpolateObject (fun _ _ => Returned (JString "rendered"))
      (JObject [("ownerId", JString "{{user.id}}"); ("path", JString "{{../secret}}")]) [].
Proof.
  apply (interpolation_renders_validated_templates_only
           guardedRender (fun _ _ => Returned (JString "rendered")) []).
  intros template _ Hvalid. unfold guardedRender. rewrite Hvalid. reflexivity.
Defined.

(** ** What the validator reports *)

Lemma validateContextEntry_count (errs : list string) (sanitized : JsObject)
    (entry : string * JsValue) :
  List.length (fst (validateContextEntry (errs, sanitized) entry))
  = (List.length errs + (if acceptedEntry entry then 0 else 1))%nat.
Proof.
  destruct entry as [key value]. unfold validateContextEntry, acceptedEntry.
  destruct (setHas DANGEROUS_TEMPLATE_KEYS key); simpl.
  - rewrite length_app. reflexivity.
  - destruct value; simpl; rewrite ?length_app; simpl; lia.
Qed.

Lemma validateContext_fold_count (context : JsObject) :
  forall acc,
    List.length (fst (fold_left validateContextEntry context acc))
    = (List.length (fst acc)
       + List.length (List.filter (fun entry => negb (acceptedEntry entry)) context))%nat.
Proof.
  induction context as [|entry context IH]; intros [errs sanitized].
  - simpl. lia.
  - cbn [fold_left]. rewrite IH, validateContextEntry_count. cbn [List.filter fst].
    destruct (acceptedEntry entry); simpl; lia.
Qed.

(** X13. The validator reports one error for each top-level entry whose
    key is dangerous or whose value is neither a primitive, [null] nor a
    plain object, and none for anything else: the context is valid
    exactly when every top-level entry is accepted, whatever lies inside
    the nested objects. *)
Theorem validateAndSanitizeContext_reports_top_level (context : JsObject) :
  List.length (errors (validateAndSanitizeContext context))
  = List.length (List.filter (fun entry => negb (acceptedEntry entry)) context)
  /\ isValid (validateAndSanitizeContext context) = forallb acceptedEntry context.
Proof.
  pose proof (validateContext_fold_count context ([], [])) as Hcount.
  unfold validateAndSanitizeContext.
  destruct (fold_left validateContextEntry context ([], [])) as [errs sanitized].
  simpl in *. split; [exact Hcount|].
  rewrite Hcount. clear Hcount.
  induction context as [|entry context IH]; [reflexivity|]. simpl.
  destruct (acceptedEntry entry); simpl; [exact IH|reflexivity].
Qed.

Example validateAndSanitizeContext_nested_array_is_silent :
  validateAndSanitizeContext
    [("user", JObject [("roles", JArray [JString "admin"]); ("id", JString "1")]);
     ("tags", JArray [JString "a"])]
  = {| errors := ["Invalid context value type for key tags: object"];
       isValid := false;
       sanitizedContext := [("user", JObject [("id", JString "1")])] |}.
Proof. vm_compute. reflexivity. Qed.

(** ** Rules handed to the ability builder *)

Section CreateAbilityProperties.
Variable Mustache_render : string -> JsObject -> Outcome JsError JsValue.
Context {B : Type}.
Variable register : Registration -> B -> Outcome JsError unit * B.

Lemma createAbility_fold (sanitized : option JsObject) (permissions : list Rule) :
  forall building : Building,
  exists rules,
    Forall2 (fun permission rule =>
               match sanitized with
               | Some context =>
                   interpolateConditions Mustache_render permission context
                   = Returned rule
               | None => rule = permission
               end) permissions rules
    /\ snd (fold_left (processPermission Mustache_render register sanitized)
                      permissions building)
       = snd building ++ map ruleRegistration rules.
Proof.
  induction permissions as [|permission permissions IH]; intros building.
  - exists []. split; [constructor|]. simpl. by rewrite app_nil_r.
  - cbn [fold_left].
    assert (Hstep : exists rule,
               match sanitized with
               | Some context =>
                   interpolateConditions Mustache_render permission context
                   = Returned rule
               | None => rule = permission
               end
               /\ snd (processPermission Mustache_render register sanitized building
                                         permission)
                  = snd building ++ [ruleRegistration rule]).
    { unfold processPermission. destruct sanitized as [context|].
      - destruct (interpolateConditions_free Mustache_render permission context)
          as (rule & Hrule & _).
        exists rule. split; [exact Hrule|]. rewrite Hrule.
        unfold applyPermissionRule. destruct building as [builder attempted].
        destruct (register (ruleRegistration rule) builder). reflexivity.
      - exists permission. split; [reflexivity|].
        unfold applyPermissionRule. destruct building as [builder attempted].
        destruct (register (ruleRegistration permission) builder). reflexivity. }
    destruct Hstep as (rule & Hrule & Hsnd).
    destruct (IH (processPermission Mustache_render register sanitized building
                                    permission))
      as (rules & Hrules & Hfold).
    exists (rule :: rules). split; [by constructor|].
    rewrite Hfold, Hsnd, <- app_assoc. reflexivity.
Qed.

(** X14. [createAbilityFromPermissions] attempts exactly one
    registration per permission, in the order given, whether or not the
    builder throws on some of them: an inverted rule with [cannot] and
    its reason (the empty string when absent), any other with [can], on
    the subject [all] when the subject is empty. With a context the
    conditions registered hold no dangerous key at any depth; without
    one they are the conditions of the permission, not interpolated. *)
Theorem createAbilityFromPermissions_registers (permissions : list Rule)
    (context : option JsObject) (building : Building) :
  let attempted :=
    snd (createAbilityFromPermissions Mustache_render register permissions context
                                      building) in
  exists registrations,
    attempted = snd building ++ registrations
    /\ List.length registrations = List.length permissions
    /\ Forall2 (fun permission registration =>
                  match registration with
                  | RegisterCan action subject fields _ =>
                      CaslPermission.inverted permission = false
                      /\ action = CaslPermission.action permission
                      /\ subject = (if String.eqb (CaslPermission.subject permission) ""
                                    then "all" else CaslPermission.subject permission)
                      /\ fields = CaslPermission.fields permission
                  | RegisterCannot action subject fields _ reason =>
                      CaslPermission.inverted permission = true
                      /\ action = CaslPermission.action permission
                      /\ subject = (if String.eqb (CaslPermission.subject permission) ""
                                    then "all" else CaslPermission.subject permission)
                      /\ fields = CaslPermission.fields permission
                      /\ reason = match CaslPermission.reason permission with
                                  | Some text => text
                                  | None => ""
                                  end
                  end) permissions registrations
    /\ (context <> None ->
        Forall (fun registration =>
                  forall c, registeredConditions registration = Some c ->
                            freeOfDangerousKeys c = true) registrations)
    /\ (context = None ->
        Forall2 (fun permission registration =>
                   registeredConditions registration = CaslPermission.conditions permission)
                permissions registrations).
Proof.
  intros attempted. subst attempted. unfold createAbilityFromPermissions.
  set (sanitized := match context with
                    | Some c => Some (sanitizedContext (validateAndSanitizeContext c))
                    | None => None
                    end).
  destruct (createAbility_fold sanitized permissions building) as (rules & Hrules & Hfold).
  exists (map ruleRegistration rules). split; [exact Hfold|].
  split; [rewrite length_map; symmetry; eapply Forall2_length; exact Hrules|].
  split; [|split].
  - clear Hfold. induction Hrules as [|permission rule permissions' rules' Hrule _ IH];
      simpl; [constructor|]. constructor; [|exact IH].
    assert (Hsame : CaslPermission.inverted rule = CaslPermission.inverted permission
                    /\ CaslPermission.action rule = CaslPermission.action permission
                    /\ CaslPermission.subject rule = CaslPermission.subject permission
                    /\ CaslPermission.fields rule = CaslPermission.fields permission
                    /\ CaslPermission.reason rule = CaslPermission.reason permission).
    { destruct sanitized as [c|]; [|subst rule; auto].
      unfold interpolateConditions in Hrule.
      destruct (CaslPermission.conditions permission) as [cond|];
        [|injection Hrule as <-; auto].
      destruct (negb (truthy cond)); [injection Hrule as <-; auto|].
      destruct (secureInterpolateObject Mustache_render cond c);
        injection Hrule as <-; auto. }
    destruct Hsame as (Hinv & Hact & Hsubj & Hfields & Hreason).
    unfold ruleRegistration. rewrite Hinv, Hact, Hsubj, Hfields, Hreason.
    destruct (CaslPermission.inverted permission);
      destruct (String.eqb (CaslPermission.subject permission) ""); simpl; auto.
  - intros Hcontext. destruct context as [c|]; [|congruence]. subst sanitized.
    clear Hfold. induction Hrules as [|permission rule permissions' rules' Hrule _ IH];
      simpl; [constructor|]. constructor; [|exact IH].
    destruct (interpolateConditions_free Mustache_render permission
                (sanitizedContext (validateAndSanitizeContext c)))
      as (rule' & Hrule' & Hfree).
    rewrite Hrule in Hrule'. injection Hrule' as <-.
    intros cond Hcond. apply Hfree. rewrite <- Hcond.
    unfold ruleRegistration. destruct (CaslPermission.inverted rule); reflexivity.
  - intros ->. subst sanitized.
    clear Hfold. induction Hrules as [|permission rule permissions' rules' Hrule _ IH];
      simpl; [constructor|]. constructor; [|exact IH].
    subst rule. unfold ruleRegistration.
    destruct (CaslPermission.inverted permission); reflexivity.
Qed.

End CreateAbilityProperties.

Lemma createAbilityFromPermissions_registers_witness :
  let permissions :=
    [ specificRule "1" "own-posts" None
                   (Some (JObject [("__proto__", JObject []);
                                   ("ownerId", JString "{{user.id}}")])) 0 None;
      exampleRule "2" "no-secrets" USER_DIRECT true ] in
  Some [("user", JObject [("id", JString "123")])] <> None
  /\ exists registrations : list Registration,
       snd (createAbilityFromPermissions guardedRender pickyRegister permissions
              (Some [("user", JObject [("id", JString "123")])]) (O, []))
       = registrations
       /\ Forall (fun registration =>
                    forall c, registeredConditions registration = Some c ->
                              freeOfDangerousKeys c = true) registrations.
Proof.
  intros permissions.
  split; [discriminate|].
  destruct (createAbilityFromPermissions_registers guardedRender pickyRegister permissions
              (Some [("user", JObject [("id", JString "123")])]) (O, []))
    as (registrations & Hattempted & _ & _ & Hfree & _).
  exists registrations. split; [exact Hattempted|].
  apply Hfree. discriminate.
Defined.

Example createAbilityFromPermissions_continues_after_refusal :
  createAbilityFromPermissions guardedRender pickyRegister
    [ {| CaslPermission.action := "read"; CaslPermission.conditions := None;
         CaslPermission.createdAt := 0; CaslPermission.expiresAt := None;
         CaslPermission.fields := None; CaslPermission.id := "1";
         CaslPermission.inverted := false; CaslPermission.name := "refused";
         CaslPermission.organizationId := None; CaslPermission.reason := None;
         CaslPermission.source := USER_DIRECT; CaslPermission.subject := "secret";
         CaslPermission.updatedAt := None |};
      {| CaslPermission.action := "manage"; CaslPermission.conditions := None;
         CaslPermission.createdAt := 0; CaslPermission.expiresAt := None;
         CaslPermission.fields := None; CaslPermission.id := "2";
         CaslPermission.inverted := true; CaslPermission.name := "deny-all";
         CaslPermission.organizationId := None; CaslPermission.reason := None;
         CaslPermission.source := USER_DIRECT; CaslPermission.subject := "";
         CaslPermission.updatedAt := None |} ]
    None (O, [])
  = (1%nat, [RegisterCan "read" "secret" None None;
             RegisterCannot "manage" "all" None None ""]).
Proof. vm_compute. reflexivity. Qed.

(** ** Number of chunks *)

Lemma length_concat_full {T : Type} (n : Z) (chunks : list (list T)) :
  Forall (fun c => Z.of_nat (List.length c) = n) chunks ->
  Z.of_nat (List.length (concat chunks)) = n * Z.of_nat (List.length chunks).
Proof.
  induction 1 as [|c chunks Hc _ IH]; simpl; [lia|].
  rewrite length_app. lia.
Qed.

(** At a positive integer [n] as chunk size, [chunkArray] returns as
    many chunks as the length of the array divided by [n], rounded up. *)
Theorem chunkArray_count {T : Type} (array : list T) (n : Z) :
  0 < n ->
  exists chunks,
    chunkArray array (Some n) = Some (Returned chunks)
    /\ Z.of_nat (List.length chunks) = (Z.of_nat (List.length array) + n - 1) / n.
Proof.
  intros Hn. unfold chunkArray.
  destruct array as [|x array'] eqn:Harr.
  - exists []. split; [reflexivity|]. simpl. symmetry. apply Z.div_small. lia.
  - rewrite <- Harr.
    replace (Nat.eqb (List.length array) 0) with false by (subst array; reflexivity).
    destruct (Z.leb_spec n 0) as [?|_]; [lia|].
    destruct (chunkLoop_spec n array Hn (List.length array) 0 [])
      as (result & Hloop & Hcat & Hlen & Hinit).
    + subst array. simpl List.length. lia.
    + lia.
    + reflexivity.
    + constructor.
    + rewrite Hloop. exists result. split; [reflexivity|].
      destruct (exists_last (l := result)) as (init & last & ->).
      { intros ->. simpl in Hcat. subst array. discriminate. }
      specialize (Hinit init last eq_refl).
      apply Forall_app in Hlen as [_ Hlast]. apply Forall_inv in Hlast.
      assert (Hsize : Z.of_nat (List.length array)
                      = n * Z.of_nat (List.length init) + Z.of_nat (List.length last)).
      { rewrite <- Hcat, concat_app, length_app, Nat2Z.inj_add,
          (length_concat_full n init Hinit).
        simpl. rewrite app_nil_r. reflexivity. }
      rewrite Hsize, length_app. simpl.
      apply Z.div_unique with (r := Z.of_nat (List.length last) - 1); lia.
Qed.

Lemma chunkArray_count_witness :
  0 < 100
  /\ exists chunks,
       chunkArray (repeat "id" 250) (Some 100) = Some (Returned chunks)
       /\ Z.of_nat (List.length chunks) = 3.
Proof.
  split; [lia|].
  destruct (chunkArray_count (repeat "id" 250) 100 ltac:(lia)) as (chunks & Hrun & Hcount).
  exists chunks. split; [exact Hrun|]. rewrite Hcount. reflexivity.
Defined.

(** X15. For a chunk size that is a positive integer [n], [chunkArray]
    returns as many chunks as the length of the array divided by [n],
    rounded up. *)
Theorem chunkArrayNumber_count {T : Type} (array : list T) (chunkSize : number)
    (n : Z) :
  Z.of_nat (List.length array) < 2 ^ 32 ->
  numberIsValid chunkSize = true ->
  numberIsInteger chunkSize = true ->
  numberLt (numberOfZ 0) chunkSize = true ->
  toIntegerOrInfinity chunkSize = Integer n ->
  exists chunks,
    (forall fuel, (List.length array <= fuel)%nat ->
       chunkArrayNumber fuel array (Some chunkSize) = Some (Returned chunks))
    /\ Z.of_nat (List.length chunks) = (Z.of_nat (List.length array) + n - 1) / n.
Proof.
  intros Hlen Hvalid Hinteger Hpositive Hn.
  pose proof (positive_integer_value chunkSize n Hvalid Hinteger Hpositive Hn) as Hn1.
  destruct (chunkArrayNumber_integer array chunkSize n ltac:(lia)
              Hvalid Hinteger Hpositive Hn)
    as (chunks & Hrun & Hcat & Hsizes & Hinit).
  exists chunks. split; [exact Hrun|].
  destruct chunks as [|c chunks'] eqn:Hchunks.
  - simpl in Hcat. subst array. simpl. symmetry. apply Z.div_small. lia.
  - rewrite <- Hchunks in *.
    destruct (exists_last (l := chunks)) as (init & last & Hlast);
      [rewrite Hchunks; discriminate|].
    specialize (Hinit init last Hlast). rewrite Hlast in Hsizes, Hcat |- *.
    apply Forall_app in Hsizes as [_ Hlastsize]. apply Forall_inv in Hlastsize.
    assert (Hsize : Z.of_nat (List.length array)
                    = n * Z.of_nat (List.length init) + Z.of_nat (List.length last)).
    { rewrite <- Hcat, concat_app, length_app, Nat2Z.inj_add,
        (length_concat_full n init Hinit).
      simpl. rewrite app_nil_r. reflexivity. }
    rewrite Hsize, length_app. simpl.
    apply Z.div_unique with (r := Z.of_nat (List.length last) - 1); lia.
Qed.

Lemma chunkArrayNumber_count_witness :
  exists chunks,
    (forall fuel, (250 <= fuel)%nat ->
       chunkArrayNumber fuel (repeat "id" 250) (Some (numberOfZ 100))
       = Some (Returned chunks))
    /\ Z.of_nat (List.length chunks) = 3.
Proof.
  destruct (chunkArrayNumber_count (repeat "id" 250) (numberOfZ 100) 100)
    as (chunks & Hrun & Hcount); [simpl; lia|reflexivity..|].
  exists chunks. split; [exact Hrun|]. rewrite Hcount. reflexivity.
Defined.

(** With a chunk size that is no integer the count can be higher: eleven
    additions of [1.1] stay below eleven. *)
Example chunkArrayNumber_eleven_tenths :
  chunkArrayNumber 11 [1; 2; 3; 4; 5; 6; 7; 8; 9; 10; 11] (Some (numberOfRatio 11 10))
  = Some (Returned [[1]; [2]; [3]; [4]; [5]; [6]; [7]; [8]; [9]; [10]; [11]])
  /\ (11 + 11 / 10 - 1) / (11 / 10) = 11.
Proof. split; vm_compute; reflexivity. Qed.

(** ** Flattening without duplicates *)

Section FlattenDistinct.
Context {T : Type}.
Variable getId : T -> string.

Lemma flattenItem_fold_distinct (items : list T) :
  forall (result : list T) (seen : gset string),
    (forall k, k ∈ seen <-> k ∈ map getId result) ->
    NoDup (map getId (result ++ items)) ->
    fst (fold_left (flattenItem getId) items (result, seen)) = result ++ items.
Proof.
  induction items as [|a items IH]; intros result seen Hseen Hnodup.
  - simpl. by rewrite app_nil_r.
  - simpl. unfold setHas. case_bool_decide as Ha.
    + exfalso. apply Hseen in Ha.
      rewrite map_app in Hnodup. apply NoDup_app in Hnodup as (_ & Hdisjoint & _).
      apply (Hdisjoint _ Ha). simpl. apply elem_of_cons. by left.
    + rewrite (IH (result ++ [a]) ({[ getId a ]} ∪ seen)).
      * by rewrite <- app_assoc.
      * intros k. rewrite map_app, elem_of_union, elem_of_singleton, elem_of_app.
        simpl. rewrite list_elem_of_singleton, Hseen. tauto.
      * by rewrite <- app_assoc.
Qed.

Lemma flattenGroupedRecords_of_distinct (recordOfArrays : list (string * list T)) :
  NoDup (map getId (concat (map snd recordOfArrays))) ->
  flattenGroupedRecords getId recordOfArrays = concat (map snd recordOfArrays).
Proof.
  intros Hnodup. unfold flattenGroupedRecords. rewrite flatten_fold_concat.
  apply (flattenItem_fold_distinct _ [] ∅); [|exact Hnodup].
  intros k. simpl. split; intros Hk; [by apply not_elem_of_empty in Hk|inversion Hk].
Qed.

Lemma flattenGroupedRecords_NoDup (recordOfArrays : list (string * list T)) :
  NoDup (map getId (flattenGroupedRecords getId recordOfArrays)).
Proof.
  unfold flattenGroupedRecords. rewrite flatten_fold_concat.
  destruct (flattenItem_fold getId (concat (map snd recordOfArrays)) [] ∅)
    as (added & seen' & Hfold & _ & Hnd & _).
  - intros k. simpl. split; intros Hk; [by apply not_elem_of_empty in Hk|inversion Hk].
  - constructor.
  - rewrite Hfold. exact Hnd.
Qed.

(** X16. [flattenGroupedRecords] returns the concatenation of the
    groups when no identifier occurs twice, and flattening what it
    returned changes nothing. *)
Theorem flattenGroupedRecords_keeps_distinct (recordOfArrays : list (string * list T)) :
  (NoDup (map getId (concat (map snd recordOfArrays))) ->
   flattenGroupedRecords getId recordOfArrays = concat (map snd recordOfArrays))
  /\ (forall key,
         flattenGroupedRecords getId [(key, flattenGroupedRecords getId recordOfArrays)]
         = flattenGroupedRecords getId recordOfArrays).
Proof.
  split; [apply flattenGroupedRecords_of_distinct|].
  intros key. rewrite flattenGroupedRecords_of_distinct; simpl; rewrite app_nil_r;
    [reflexivity|apply flattenGroupedRecords_NoDup].
Qed.

End FlattenDistinct.

Lemma flattenGroupedRecords_keeps_distinct_witness :
  let groups := [("set-a", [("p1", "first"); ("p2", "second")]);
                 ("set-b", [("p3", "third")])] in
  NoDup (map fst (concat (map snd groups)))
  /\ flattenGroupedRecords fst groups = [("p1", "first"); ("p2", "second"); ("p3", "third")].
Proof.
  intros groups.
  assert (Hnodup : NoDup (map fst (concat (map snd groups)))).
  { simpl. repeat (constructor; [rewrite ?elem_of_cons; intros H;
                                 repeat (destruct H as [H|H]; [discriminate H|]);
                                 inversion H|]).
    constructor. }
  split; [exact Hnodup|].
  apply (proj1 (flattenGroupedRecords_keeps_distinct fst groups) Hnodup).
Defined.

(** ** Pagination *)

Lemma totalPages_bounds (limit count : Z) :
  1 <= limit ->
  (- ((- count) / limit) - 1) * limit < count <= - ((- count) / limit) * limit.
Proof.
  intros Hlimit.
  pose proof (Z.div_mod (- count) limit ltac:(lia)) as Hdiv.
  pose proof (Z.mod_pos_bound (- count) limit ltac:(lia)) as Hmod.
  nia.
Qed.

(** X17. For a limit of at least one row, a page number of at least one
    and a non-negative count, [totalPages] is the least number of pages
    that hold all rows; [hasNext] tells exactly that rows remain behind
    the current page, [hasPrev] that the page is not the first, and the
    current page starts inside the rows exactly when it does not exceed
    [totalPages]. *)
Theorem paginationOf_pages (page limit count : Z) :
  1 <= limit -> 1 <= page -> 0 <= count ->
  exists pagination,
    paginationOf page limit count = Some pagination
    /\ currentPage pagination = page
    /\ total pagination = count
    /\ (totalPages pagination - 1) * limit < count <= totalPages pagination * limit
    /\ (hasNext pagination = true <-> pageOffset page limit + limit < count)
    /\ (hasPrev pagination = true <-> 0 < pageOffset page limit)
    /\ (page <= totalPages pagination <-> pageOffset page limit < count).
Proof.
  intros Hlimit Hpage Hcount. unfold paginationOf, pageOffset.
  destruct (Z.eqb_spec limit 0) as [?|_]; [lia|].
  eexists. split; [reflexivity|]. simpl.
  pose proof (totalPages_bounds limit count Hlimit) as Hbounds.
  set (pages := - ((- count) / limit)) in *.
  split; [reflexivity|]. split; [reflexivity|]. split; [exact Hbounds|].
  rewrite !Z.ltb_lt. repeat split; intros; nia.
Qed.

Lemma paginationOf_pages_witness :
  exists pagination,
    paginationOf 3 10 25 = Some pagination
    /\ totalPages pagination = 3
    /\ hasNext pagination = false
    /\ hasPrev pagination = true.
Proof.
  destruct (paginationOf_pages 3 10 25 ltac:(lia) ltac:(lia) ltac:(lia))
    as (pagination & Hrun & _).
  exists pagination. split; [exact Hrun|].
  vm_compute in Hrun. injection Hrun as <-. repeat split.
Defined.

(** ** Collecting permissions by mode *)

Lemma readBind_inv {A B : Type} (m : Reading A) (k : A -> Reading B)
    (issued issued' : list PermissionRead) (outcome : Outcome JsError B) :
  readBind m k issued = (outcome, issued') ->
  (exists a mid, m issued = (Returned a, mid) /\ k a mid = (outcome, issued'))
  \/ (exists e, m issued = (Thrown e, issued') /\ outcome = Thrown e).
Proof.
  unfold readBind. destruct (m issued) as [[a|e] mid]; intros H.
  - left. eauto.
  - right. injection H as <- <-. eauto.
Qed.

Section FetchProperties.
Variable localeCompare : string -> string -> Z.
Context {P : Type}.
Variable getId : P -> string.
Variable fromStored : P -> PermissionSource -> Rule.
Variable adapter : AuthorizationAdapter P.
Hypothesis fromStored_source :
  forall p s, CaslPermission.source (fromStored p s) = s.

Lemma collectPermissions_confined (c1 c2 : PermissionRead)
    (r1 : Outcome JsError (list Rule)) (r2 : Outcome JsError (list string))
    (direct fromSet : PermissionSource) (issued issued' : list PermissionRead)
    (outcome : Outcome JsError (list Rule)) :
  collectPermissions getId fromStored adapter (awaitRead c1 r1) (awaitRead c2 r2)
                     direct fromSet issued
  = (outcome, issued') ->
  exists reads,
    issued' = issued ++ reads
    /\ Forall (fun call => call = c1 \/ call = c2
                           \/ exists ids, call = ReadPermissionsForPermissionSets ids) reads
    /\ forall rules, outcome = Returned rules ->
         Forall (fun rule => CaslPermission.source rule = direct
                             \/ CaslPermission.source rule = fromSet) rules.
Proof.
  unfold collectPermissions. intros Hrun.
  apply readBind_inv in Hrun as [(permissions & mid1 & H1 & Hrun)|(e & H1 & ->)];
    unfold awaitRead in H1; injection H1 as H1 Hmid1; subst.
  2:{ exists [c1]. split; [reflexivity|]. split; [repeat (constructor; [solve [eauto]|]); constructor|discriminate]. }
  apply readBind_inv in Hrun as [(ids & mid2 & H2 & Hrun)|(e & H2 & ->)];
    unfold awaitRead in H2; injection H2 as H2 Hmid2; subst.
  2:{ exists [c1; c2]. rewrite <- app_assoc. split; [reflexivity|].
      split; [repeat (constructor; [solve [eauto]|]); constructor|discriminate]. }
  assert (Hdirect : Forall (fun rule => CaslPermission.source rule = direct
                                        \/ CaslPermission.source rule = fromSet)
                           (map (fun p => withSource p direct) permissions)).
  { apply List.Forall_forall. intros rule [p [<- _]]%in_map_iff. by left. }
  destruct (0 <? Z.of_nat (List.length ids)).
  - apply readBind_inv in Hrun as [(batched & mid3 & H3 & Hrun)|(e & H3 & ->)];
      unfold awaitRead in H3; injection H3 as H3 Hmid3; subst.
    2:{ exists [c1; c2; ReadPermissionsForPermissionSets ids].
        rewrite <- !app_assoc. split; [reflexivity|].
        split; [repeat (constructor; [solve [eauto]|]); constructor|discriminate]. }
    unfold readRet in Hrun. injection Hrun as <- <-.
    exists [c1; c2; ReadPermissionsForPermissionSets ids].
    rewrite <- !app_assoc. split; [reflexivity|].
    split; [repeat (constructor; [solve [eauto]|]); constructor|].
    intros rules [= <-]. apply Forall_app. split; [exact Hdirect|].
    apply List.Forall_forall. intros rule [p [<- _]]%in_map_iff. right.
    apply fromStored_source.
  - unfold readRet in Hrun. injection Hrun as <- <-.
    exists [c1; c2]. rewrite <- app_assoc. split; [reflexivity|].
    split; [repeat (constructor; [solve [eauto]|]); constructor|].
    intros rules [= <-]. exact Hdirect.
Qed.

End FetchProperties.

Section FetchTheorems.
Variable localeCompare : string -> string -> Z.
Context {P : Type}.
Variable getId : P -> string.
Variable fromStored : P -> PermissionSource -> Rule.
Variable adapter : AuthorizationAdapter P.
Hypothesis fromStored_source :
  forall p s, CaslPermission.source (fromStored p s) = s.

(** One side of the collection: nothing is read and nothing pushed when
    it is switched off; what it reads is not of the other side, and what
    it pushes carries one of its two sources. *)
Lemma collect_side (enabled : bool) (c1 c2 : PermissionRead)
    (r1 : Outcome JsError (list Rule)) (r2 : Outcome JsError (list string))
    (direct fromSet : PermissionSource) (issued issued' : list PermissionRead)
    (outcome : Outcome JsError (list Rule)) :
  (if enabled
   then collectPermissions getId fromStored adapter (awaitRead c1 r1) (awaitRead c2 r2)
                           direct fromSet
   else readRet []) issued
  = (outcome, issued') ->
  exists reads,
    issued' = issued ++ reads
    /\ (enabled = false -> reads = [] /\ outcome = Returned [])
    /\ Forall (fun call => call = c1 \/ call = c2
                           \/ exists ids, call = ReadPermissionsForPermissionSets ids) reads
    /\ forall rules, outcome = Returned rules ->
         Forall (fun rule => (CaslPermission.source rule = direct
                              \/ CaslPermission.source rule = fromSet)
                             /\ enabled = true) rules.
Proof.
  destruct enabled; intros Hrun.
  - destruct (collectPermissions_confined getId fromStored adapter fromStored_source
                _ _ _ _ _ _ _ _ _ Hrun) as (reads & Hissued & Hreads & Hrules).
    exists reads. split; [exact Hissued|]. split; [discriminate|]. split; [exact Hreads|].
    intros rules Hout. eapply Forall_impl; [exact (Hrules rules Hout)|]. simpl. auto.
  - unfold readRet in Hrun. injection Hrun as <- <-.
    exists []. rewrite app_nil_r. split; [reflexivity|]. split; [auto|].
    split; [constructor|]. intros rules [= <-]. constructor.
Qed.

(** X18. [fetchSortedPermissions] reads and returns by mode. The user
    side is switched on by the modes [user] and [both] together with a
    non-empty user identifier, the member side by [member] and [both]
    together with a non-empty member identifier; a side that is switched
    off issues no read of its own and contributes no rule, and with both
    sides off nothing is read and the result is empty. The rules
    returned carry a user source only if the user side is on, and a
    member source only if the member side is on. *)
Theorem fetchSortedPermissions_respects_mode (mode : option AuthorizationMode)
    (userId memberId : option string) (issued issued' : list PermissionRead)
    (outcome : Outcome JsError (list Rule)) :
  fetchSortedPermissions localeCompare getId fromStored adapter mode userId memberId issued
  = (outcome, issued') ->
  let forUsers := ((modeIs mode ModeUser || modeIs mode ModeBoth)
                   && truthyString userId)%bool in
  let forMembers := ((modeIs mode ModeMember || modeIs mode ModeBoth)
                     && truthyString memberId)%bool in
  exists reads,
    issued' = issued ++ reads
    /\ (forUsers = false -> Forall (fun call => isUserRead call = false) reads)
    /\ (forMembers = false -> Forall (fun call => isMemberRead call = false) reads)
    /\ (forUsers = false -> forMembers = false -> reads = [] /\ outcome = Returned [])
    /\ forall rules, outcome = Returned rules ->
         Forall (fun rule => if isUserSource (CaslPermission.source rule)
                             then forUsers = true else forMembers = true) rules.
Proof.
  intros Hrun forUsers forMembers. unfold fetchSortedPermissions in Hrun.
  assert (Huser : forall issued0 out0 issued1,
             match userId with
             | Some user =>
                 if forUsers
                 then collectPermissions getId fromStored adapter
                        (awaitRead (ReadUserPermissions user)
                                   (getUserPermissions adapter user))
                        (awaitRead (ReadUserPermissionSets user)
                                   (getUserPermissionSets adapter user))
                        USER_DIRECT USER_PERMISSION_SET
                 else readRet []
             | None => readRet []
             end issued0 = (out0, issued1) ->
             exists reads,
               issued1 = issued0 ++ reads
               /\ (forUsers = false -> reads = [] /\ out0 = Returned [])
               /\ Forall (fun call => isMemberRead call = false) reads
               /\ forall rules, out0 = Returned rules ->
                    Forall (fun rule => isUserSource (CaslPermission.source rule) = true
                                        /\ forUsers = true) rules).
  { intros issued0 out0 issued1 Hside. destruct userId as [user|].
    - apply collect_side in Hside as (reads & Hi & Hoff & Hreads & Hrules).
      exists reads. split; [exact Hi|]. split; [exact Hoff|]. split.
      + eapply Forall_impl; [exact Hreads|]. simpl.
        intros call [->|[->|(ids & ->)]]; reflexivity.
      + intros rules Hout. eapply Forall_impl; [exact (Hrules rules Hout)|]. simpl.
        intros rule [[->| ->] Hen]; auto.
    - unfold readRet in Hside. injection Hside as <- <-.
      exists []. rewrite app_nil_r. split; [reflexivity|]. split; [auto|].
      split; [constructor|]. intros rules [= <-]. constructor. }
  assert (Hmember : forall issued0 out0 issued1,
             match memberId with
             | Some member =>
                 if forMembers
                 then collectPermissions getId fromStored adapter
                        (awaitRead (ReadMemberPermissions member)
                                   (getMemberPermissions adapter member))
                        (awaitRead (ReadMemberPermissionSets member)
                                   (getMemberPermissionSets adapter member))
                        MEMBER_DIRECT MEMBER_PERMISSION_SET
                 else readRet []
             | None => readRet []
             end issued0 = (out0, issued1) ->
             exists reads,
               issued1 = issued0 ++ reads
               /\ (forMembers = false -> reads = [] /\ out0 = Returned [])
               /\ Forall (fun call => isUserRead call = false) reads
               /\ forall rules, out0 = Returned rules ->
                    Forall (fun rule => isUserSource (CaslPermission.source rule) = false
                                        /\ forMembers = true) rules).
  { intros issued0 out0 issued1 Hside. destruct memberId as [member|].
    - apply collect_side in Hside as (reads & Hi & Hoff & Hreads & Hrules).
      exists reads. split; [exact Hi|]. split; [exact Hoff|]. split.
      + eapply Forall_impl; [exact Hreads|]. simpl.
        intros call [->|[->|(ids & ->)]]; reflexivity.
      + intros rules Hout. eapply Forall_impl; [exact (Hrules rules Hout)|]. simpl.
        intros rule [[->| ->] Hen]; auto.
    - unfold readRet in Hside. injection Hside as <- <-.
      exists []. rewrite app_nil_r. split; [reflexivity|]. split; [auto|].
      split; [constructor|]. intros rules [= <-]. constructor. }
  apply readBind_inv in Hrun as [(ofUser & mid & Hu & Hrun)|(e & Hu & ->)].
  - destruct (Huser _ _ _ Hu) as (reads1 & -> & Hoff1 & Hreads1 & Hrules1).
    apply readBind_inv in Hrun as [(ofMember & mid2 & Hm & Hrun)|(e & Hm & ->)].
    + destruct (Hmember _ _ _ Hm) as (reads2 & -> & Hoff2 & Hreads2 & Hrules2).
      unfold readRet in Hrun. injection Hrun as <- <-.
      exists (reads1 ++ reads2). rewrite app_assoc. split; [reflexivity|].
      split; [|split; [|split]].
      * intros Hoff. destruct (Hoff1 Hoff) as [-> _]. exact Hreads2.
      * intros Hoff. destruct (Hoff2 Hoff) as [-> _]. rewrite app_nil_r. exact Hreads1.
      * intros Hnou Hnom. destruct (Hoff1 Hnou) as [Hr1 Ho1].
        destruct (Hoff2 Hnom) as [Hr2 Ho2].
        injection Ho1 as Ho1. injection Ho2 as Ho2. rewrite Hr1, Hr2, Ho1, Ho2.
        split; reflexivity.
      * intros rules [= <-]. apply List.Forall_forall. intros rule Hin.
        unfold sortPermissionsByPriority in Hin.
        apply (Permutation_in _ (arraySort_permutation _ _)) in Hin.
        apply in_app_or in Hin as [Hin|Hin].
        -- pose proof (Hrules1 ofUser eq_refl) as Hall.
           rewrite List.Forall_forall in Hall. destruct (Hall rule Hin) as [-> Hen].
           exact Hen.
        -- pose proof (Hrules2 ofMember eq_refl) as Hall.
           rewrite List.Forall_forall in Hall. destruct (Hall rule Hin) as [-> Hen].
           exact Hen.
    + destruct (Hmember _ _ _ Hm) as (reads2 & Hi2 & Hoff2 & Hreads2 & Hrules2).
      exists (reads1 ++ reads2). rewrite app_assoc. split; [exact Hi2|].
      split; [|split; [|split]].
      * intros Hoff. destruct (Hoff1 Hoff) as [-> _]. exact Hreads2.
      * intros Hoff. destruct (Hoff2 Hoff) as [_ [=]].
      * intros _ Hoff. destruct (Hoff2 Hoff) as [_ [=]].
      * discriminate.
  - destruct (Huser _ _ _ Hu) as (reads1 & Hi1 & Hoff1 & Hreads1 & Hrules1).
    exists reads1. split; [exact Hi1|]. split; [|split; [|split]].
    + intros Hoff. destruct (Hoff1 Hoff) as [_ [=]].
    + intros _. exact Hreads1.
    + intros Hoff. destruct (Hoff1 Hoff) as [_ [=]].
    + discriminate.
Qed.

End FetchTheorems.

Lemma fetchSortedPermissions_respects_mode_witness :
  exists rules reads,
    fetchSortedPermissions codeUnitCompare fst exampleFromStored exampleAuthorizationAdapter
                           (Some ModeUser) (Some "u1") (Some "m1") []
    = (Returned rules, reads)
    /\ Forall (fun call => isMemberRead call = false) reads
    /\ Forall (fun rule => isUserSource (CaslPermission.source rule) = true) rules.
Proof.
  destruct (fetchSortedPermissions codeUnitCompare fst exampleFromStored
              exampleAuthorizationAdapter (Some ModeUser) (Some "u1") (Some "m1") [])
    as [[rules|e] reads] eqn:Hrun; [|vm_compute in Hrun; discriminate Hrun].
  destruct (fetchSortedPermissions_respects_mode codeUnitCompare fst exampleFromStored
              exampleAuthorizationAdapter ltac:(reflexivity) _ _ _ _ _ _ Hrun)
    as (reads' & Hissued & _ & Hmember & _ & Hrules).
  simpl in Hissued. subst reads'.
  exists rules, reads. split; [reflexivity|]. split; [apply Hmember; reflexivity|].
  eapply Forall_impl; [exact (Hrules rules eq_refl)|]. simpl.
  intros rule. destruct (isUserSource (CaslPermission.source rule)); [reflexivity|].
  discriminate.
Defined.

Example fetchSortedPermissions_both_modes :
  let '(outcome, reads) :=
    fetchSortedPermissions codeUnitCompare fst exampleFromStored exampleAuthorizationAdapter
                           (Some ModeBoth) (Some "u1") (Some "m1") [] in
  outcome = Returned [ exampleRule "p9" "member" MEMBER_DIRECT false;
                       exampleRule "p2" "shared" USER_PERMISSION_SET false;
                       exampleRule "p3" "extra" USER_PERMISSION_SET false;
                       exampleRule "p1" "direct" USER_DIRECT false ]
  /\ reads = [ ReadUserPermissions "u1"; ReadUserPermissionSets "u1";
               ReadPermissionsForPermissionSets ["s1"; "s2"];
               ReadMemberPermissions "m1"; ReadMemberPermissionSets "m1" ].
Proof. vm_compute. split; reflexivity. Qed.

(** ** Route middleware *)

Lemma routeValues_listed (route : string) :
  existsb (String.eqb route) routeValues = true <-> In route routeValues.
Proof.
  rewrite existsb_exists. split.
  - intros (r & Hin & Heq). apply String.eqb_eq in Heq. by subst.
  - intros Hin. exists route. split; [exact Hin|apply String.eqb_refl].
Qed.

Lemma routeValues_not_in_all (route : string) :
  In route routeValues -> includes "all" route = false.
Proof.
  intros Hin.
  assert (Hall : forallb (fun r => negb (includes "all" r)) routeValues = true)
    by (vm_compute; reflexivity).
  rewrite forallb_forall in Hall. apply negb_true_iff. by apply Hall.
Qed.

Lemma routeValues_without_query (route : string) :
  In route routeValues -> includes route "?" = false.
Proof.
  intros Hin.
  assert (Hall : forallb (fun r => negb (includes r "?")) routeValues = true)
    by (vm_compute; reflexivity).
  rewrite forallb_forall in Hall. apply negb_true_iff. by apply Hall.
Qed.

(** The route decision: a route is protected exactly when the list of
    protected routes holds it and it is one of the routes of the plugin;
    the string ["all"] holds none of them. *)
Lemma routeDecision_listed (options : MiddlewareOptions) (route : string) :
  (fst (routeDecision options route) = true
   <-> exists config routes,
         routeMiddleware options = Some config
         /\ protectedRoutes config = ProtectListed routes
         /\ In route routes
         /\ In route routeValues)
  /\ (forall config,
         routeMiddleware options = Some config ->
         protectedRoutes config = ProtectAll ->
         fst (routeDecision options route) = false).
Proof.
  unfold routeDecision. split.
  - destruct (routeMiddleware options) as [config|].
    + destruct (existsb (String.eqb route) routeValues) eqn:Hauth; cbn [fst].
      * apply routeValues_listed in Hauth.
        destruct (protectedRoutes config) as [|routes] eqn:Hprotected;
          unfold protectedRoutesIncludes.
        -- rewrite (routeValues_not_in_all route Hauth). split; [discriminate|].
           intros (config' & routes & [= <-] & Habs & _). congruence.
        -- rewrite existsb_exists. split.
           ++ intros (r & Hin & Heq). apply String.eqb_eq in Heq. subst r.
              exists config, routes. auto.
           ++ intros (config' & routes' & [= <-] & Hlisted & Hin & _).
              rewrite Hprotected in Hlisted. injection Hlisted as <-.
              exists route. split; [exact Hin|apply String.eqb_refl].
      * split; [discriminate|].
        intros (config' & routes & _ & _ & _ & Hin).
        apply routeValues_listed in Hin. congruence.
    + cbn [fst]. split; [discriminate|].
      intros (config & routes & Habs & _). discriminate.
  - intros config -> Hall.
    destruct (existsb (String.eqb route) routeValues) eqn:Hauth; [|reflexivity].
    cbn [fst]. rewrite Hall. unfold protectedRoutesIncludes.
    apply routeValues_not_in_all. by apply routeValues_listed.
Qed.

Lemma prefix_self_append (a b : string) : String.prefix a (a +:+ b) = true.
Proof.
  induction a as [|x a IH].
  - destruct ("" +:+ b); reflexivity.
  - rewrite append_cons. simpl. destruct (ascii_dec x x); [exact IH|congruence].
Qed.

Lemma substring_all (b : string) : String.substring 0 (String.length b) b = b.
Proof. induction b as [|x b IH]; simpl; [reflexivity|by rewrite IH]. Qed.

Lemma substring_skip (a b : string) :
  String.substring (String.length a) (String.length b) (a +:+ b) = b.
Proof.
  induction a as [|x a IH].
  - rewrite append_empty. apply substring_all.
  - rewrite append_cons. simpl. exact IH.
Qed.

Lemma replaceFirst_prefix (origin rest : string) :
  replaceFirst (origin +:+ rest) origin "" = rest.
Proof.
  assert (Hstep : forall s pattern,
             String.prefix pattern s = true ->
             replaceFirst s pattern ""
             = "" +:+ String.substring (String.length pattern)
                                       (String.length s - String.length pattern) s).
  { intros s pattern Hprefix. destruct s; cbn [replaceFirst]; rewrite Hprefix; reflexivity. }
  rewrite Hstep by apply prefix_self_append.
  rewrite append_empty, length_append.
  replace (String.length origin + String.length rest - String.length origin)%nat
    with (String.length rest) by lia.
  apply substring_skip.
Qed.

Section MiddlewareProperties.
Context {Ability : Type}.
Variable findMember : string -> string -> Outcome JsError (option Member).
Variable fetchPermissions :
  option AuthorizationMode -> option string -> option string -> Outcome JsError (list Rule).
Variable createAbility : list Rule -> JsObject -> Outcome JsError Ability.
Variable abilityCan : Ability -> AbilityCan.

(** X19. With [protectedRoutes] set to the string [all], the middleware
    protects no route: every request with a session passes with no
    ability built, no member looked up and the callback not consulted,
    because [String.prototype.includes] answers [false] for every route
    of the plugin and [??] never reaches its right operand. *)
Theorem authorizationMiddleware_all_protects_nothing (options : MiddlewareOptions)
    (config : RouteMiddlewareConfig) (session : MiddlewareSession)
    (requestUrl origin : string) :
  routeMiddleware options = Some config ->
  protectedRoutes config = ProtectAll ->
  truthyString (sessionUserId session) = true ->
  authorizationMiddleware findMember fetchPermissions createAbility abilityCan
    options session requestUrl origin
  = Returned {| contextAbility := None; contextMember := None |}.
Proof.
  intros Hconfig Hall Huser. unfold authorizationMiddleware.
  destruct (sessionUserId session) as [userId|] eqn:Hid; [|discriminate].
  rewrite Huser. simpl negb. cbv iota.
  pose proof (proj2 (routeDecision_listed options (replaceFirst requestUrl origin ""))
                config Hconfig Hall) as Hdecision.
  destruct (routeDecision options (replaceFirst requestUrl origin ""))
    as [shouldProtect routeCallback].
  simpl in Hdecision. subst shouldProtect. reflexivity.
Qed.

(** X20. A request whose URL carries a query string behind the path
    is never protected: the route compared is the URL without the
    origin, query string included, and no route of the plugin holds a
    question mark. *)
Theorem authorizationMiddleware_skips_query_strings (options : MiddlewareOptions)
    (session : MiddlewareSession) (origin path query : string) :
  truthyString (sessionUserId session) = true ->
  authorizationMiddleware findMember fetchPermissions createAbility abilityCan
    options session (origin +:+ path +:+ "?" +:+ query) origin
  = Returned {| contextAbility := None; contextMember := None |}.
Proof.
  intros Huser. unfold authorizationMiddleware.
  destruct (sessionUserId session) as [userId|] eqn:Hid; [|discriminate].
  rewrite Huser. simpl negb. cbv iota.
  rewrite replaceFirst_prefix.
  assert (Hroute : existsb (String.eqb (path +:+ "?" +:+ query)) routeValues = false).
  { apply not_true_is_false. intros Hauth. apply routeValues_listed in Hauth.
    apply routeValues_without_query in Hauth.
    rewrite includes_append_r in Hauth; [discriminate|].
    apply includes_append_l. reflexivity. }
  unfold routeDecision. rewrite Hroute.
  destruct (routeMiddleware options); reflexivity.
Qed.

(** X21. A call of the middleware that returns without an ability was
    for a route that is not protected or for a super admin.  One that
    returns an ability was for a user who is not a super admin and for a
    route that is listed in [protectedRoutes] and is a route of the
    plugin, and the callback, called with the [can] of that ability and
    the route, returned the boolean [true]. *)
Theorem authorizationMiddleware_grants_on_true_only (options : MiddlewareOptions)
    (session : MiddlewareSession) (requestUrl origin : string)
    (context : AuthorizationContext) :
  authorizationMiddleware findMember fetchPermissions createAbility abilityCan
    options session requestUrl origin
  = Returned context ->
  let route := replaceFirst requestUrl origin "" in
  match contextAbility context with
  | Some ability =>
      truthy (superAdminFlag session) = false
      /\ exists config routes,
           routeMiddleware options = Some config
           /\ protectedRoutes config = ProtectListed routes
           /\ In route routes
           /\ In route routeValues
           /\ callback config (abilityCan ability) route = Returned (JBool true)
  | None =>
      fst (routeDecision options route) = false \/ truthy (superAdminFlag session) = true
  end.
Proof.
  intros Hrun route. unfold authorizationMiddleware in Hrun. fold route in Hrun.
  destruct (sessionUserId session) as [userId|]; [|discriminate].
  destruct (negb (truthyString (Some userId))); [discriminate|].
  destruct (routeDecision options route) as [shouldProtect routeCallback] eqn:Hdecision.
  destruct shouldProtect; simpl in Hrun.
  2:{ injection Hrun as <-. simpl. by left. }
  destruct (truthy (superAdminFlag session)) eqn:Hadmin;
    [injection Hrun as <-; simpl; by right|].
  pose proof (proj1 (proj1 (routeDecision_listed options route))) as Hlisted.
  rewrite Hdecision in Hlisted.
  destruct (Hlisted eq_refl) as (config & routes & Hconfig & Hprotected & Hin & Hauth).
  assert (Hcallback : routeCallback = Some (callback config)).
  { unfold routeDecision in Hdecision. rewrite Hconfig in Hdecision.
    rewrite (proj2 (routeValues_listed route) Hauth) in Hdecision.
    injection Hdecision as _ <-. reflexivity. }
  subst routeCallback.
  destruct (match activeOrganizationId session with
            | Some organization =>
                if truthyString (activeOrganizationId session)
                then findMember userId organization else Returned None
            | None => Returned None
            end) as [member|e]; [|discriminate].
  destruct (modeIs (mode options) ModeMember && _)%bool; [discriminate|].
  destruct (fetchPermissions _ _ _) as [permissions|e]; [|discriminate].
  destruct (createAbility _ _) as [built|e]; [|discriminate].
  destruct (callback config _ route) as [[| |[|]| | | | |]|[| |]] eqn:Hanswer;
    try discriminate.
  injection Hrun as <-. simpl. split; [reflexivity|].
  exists config, routes. auto.
Qed.

End MiddlewareProperties.

Lemma authorizationMiddleware_all_protects_nothing_witness :
  authorizationMiddleware (fun _ _ => Returned None) (fun _ _ _ => Returned [])
    (fun _ _ => Returned titleOnlyAbility) (fun ability => ability)
    (exampleRouteMiddleware ProtectAll) exampleSession
    "http://localhost:3000/api/auth/delete-permissions" "http://localhost:3000/api/auth"
  = Returned {| contextAbility := None; contextMember := None |}.
Proof.
  eapply authorizationMiddleware_all_protects_nothing; reflexivity.
Defined.

Lemma authorizationMiddleware_skips_query_strings_witness :
  authorizationMiddleware (fun _ _ => Returned None) (fun _ _ _ => Returned [])
    (fun _ _ => Returned titleOnlyAbility) (fun ability => ability)
    (exampleRouteMiddleware (ProtectListed routeValues)) exampleSession
    ("http://localhost:3000/api/auth" +:+ "/list-permissions" +:+ "?" +:+ "limit=10")
    "http://localhost:3000/api/auth"
  = Returned {| contextAbility := None; contextMember := None |}.
Proof.
  apply authorizationMiddleware_skips_query_strings. reflexivity.
Defined.

Lemma authorizationMiddleware_grants_on_true_only_witness :
  let route := replaceFirst "http://localhost:3000/api/auth/list-permissions"
                            "http://localhost:3000/api/auth" "" in
  truthy (superAdminFlag exampleSession) = false
  /\ exists config routes,
       routeMiddleware (exampleRouteMiddleware (ProtectListed ["/list-permissions"]))
       = Some config
       /\ protectedRoutes config = ProtectListed routes
       /\ In route routes
       /\ In route routeValues
       /\ callback config titleOnlyAbility route = Returned (JBool true).
Proof.
  apply (authorizationMiddleware_grants_on_true_only
           (fun _ _ => Returned None) (fun _ _ _ => Returned [])
           (fun _ _ => Returned titleOnlyAbility) (fun ability => ability)
           (exampleRouteMiddleware (ProtectListed ["/list-permissions"])) exampleSession
           "http://localhost:3000/api/auth/list-permissions"
           "http://localhost:3000/api/auth"
           {| contextAbility := Some titleOnlyAbility; contextMember := None |}).
  reflexivity.
Defined.

Example authorizationMiddleware_refuses :
  authorizationMiddleware (fun _ _ => Returned None) (fun _ _ _ => Returned [])
    (fun _ _ => Returned titleOnlyAbility) (fun ability => ability)
    {| mode := Some ModeUser;
       routeMiddleware :=
         Some {| callback := fun can _ => Returned (JBool (can "delete" ("post", None) None));
                 protectedRoutes := ProtectListed ["/delete-permission"] |} |}
    exampleSession
    "http://localhost:3000/api/auth/delete-permission" "http://localhost:3000/api/auth"
  = Thrown (APIError "FORBIDDEN" "Access denied for this route").
Proof. vm_compute. reflexivity. Qed.

(** ** The first two levels of a sanitized context *)

Lemma objSet_Forall (P : string * JsValue -> Prop) (o : JsObject) (key : string)
    (v : JsValue) :
  Forall P o -> P (key, v) -> Forall P (objSet o key v).
Proof.
  intros Ho Hnew. induction Ho as [|[k w] rest Hkw Hrest IH]; simpl.
  - constructor; [exact Hnew|constructor].
  - destruct (String.eqb_spec k key) as [->|Hne]; constructor; auto.
Qed.

Lemma assignProperty_Forall (P : string * JsValue -> Prop) (o : JsObject) (key : string)
    (v : JsValue) :
  Forall P o -> P (key, v) -> Forall P (assignProperty o key v).
Proof.
  intros Ho Hnew. unfold assignProperty.
  destruct (String.eqb key "__proto__"); [exact Ho|].
  apply objSet_Forall; auto.
Qed.

Lemma sanitizeNestedObject_safe (obj : JsObject) :
  Forall safeEntry (sanitizeNestedObject obj).
Proof.
  unfold sanitizeNestedObject.
  assert (Hfold : forall acc, Forall safeEntry acc ->
                              Forall safeEntry (fold_left sanitizeNestedEntry obj acc)).
  { induction obj as [|[key value] obj IH]; intros acc Hacc; [exact Hacc|].
    cbn [fold_left]. apply IH. unfold sanitizeNestedEntry.
    destruct (setHas DANGEROUS_TEMPLATE_KEYS key) eqn:Hkey; [exact Hacc|].
    destruct (isPrimitiveOrNull value) eqn:Hprim.
    - apply assignProperty_Forall; [exact Hacc|]. split; [exact Hkey|by left].
    - destruct value; try exact Hacc.
      apply assignProperty_Forall; [exact Hacc|]. split; [exact Hkey|by right]. }
  apply Hfold. constructor.
Qed.

(** X22. In the sanitized context no key of the first two levels is
    dangerous: every top-level entry has a safe key and holds a
    primitive, [null] or an object, and the entries of such an object
    have safe keys and hold primitives, [null] or plain objects. *)
Theorem validateAndSanitizeContext_two_levels_clean (context : JsObject) :
  Forall cleanEntry (sanitizedContext (validateAndSanitizeContext context)).
Proof.
  unfold validateAndSanitizeContext.
  assert (Hfold : forall acc,
             Forall cleanEntry (snd acc) ->
             Forall cleanEntry (snd (fold_left validateContextEntry context acc))).
  { induction context as [|[key value] context IH]; intros [errs sanitized] Hacc;
      [exact Hacc|].
    cbn [fold_left]. apply IH. unfold validateContextEntry.
    destruct (setHas DANGEROUS_TEMPLATE_KEYS key) eqn:Hkey; [exact Hacc|].
    destruct value; simpl; try exact Hacc;
      try (apply assignProperty_Forall; [exact Hacc|]; split; [exact Hkey|reflexivity]).
    apply assignProperty_Forall; [exact Hacc|]. split; [exact Hkey|].
    apply sanitizeNestedObject_safe. }
  specialize (Hfold ([], []) ltac:(constructor)).
  destruct (fold_left validateContextEntry context ([], [])) as [errs sanitized].
  exact Hfold.
Qed.

(** ** The third level *)

Lemma sanitizeInner_keys (inner : JsObject) (x : string) :
  forall acc,
    In x (objectKeys (fold_left sanitizeInnerEntry inner acc))
    <-> In x (objectKeys acc)
        \/ ((x = "constructor" \/ x = "prototype")
            /\ exists value, In (x, value) inner /\ isPrimitiveOrNull value = true).
Proof.
  induction inner as [|[key value] inner IH]; intros acc.
  - simpl. split; [auto|]. intros [H|(_ & v & [] & _)]. exact H.
  - cbn [fold_left]. rewrite IH. unfold sanitizeInnerEntry.
    assert (Hdanger : setHas DANGEROUS_TEMPLATE_KEYS key = true
                      <-> key = "__proto__" \/ key = "constructor" \/ key = "prototype").
    { unfold setHas, DANGEROUS_TEMPLATE_KEYS. rewrite bool_decide_eq_true.
      rewrite !elem_of_union, !elem_of_singleton. tauto. }
    destruct (setHas DANGEROUS_TEMPLATE_KEYS key) eqn:Hkey.
    + destruct (isPrimitiveOrNull value) eqn:Hprim.
      * unfold assignProperty.
        destruct (String.eqb_spec key "__proto__") as [->|Hproto].
        -- split.
           ++ intros [H|(Hx & v & Hin & Hv)]; [by left|].
              right. split; [exact Hx|]. exists v. split; [by right|exact Hv].
           ++ intros [H|(Hx & v & [Heq|Hin] & Hv)]; [by left| |].
              ** injection Heq as <- <-. destruct Hx; discriminate.
              ** right. split; [exact Hx|]. eauto.
        -- rewrite objSet_keys. split.
           ++ intros [[->|H]|(Hx & v & Hin & Hv)].
              ** right. split; [destruct (proj1 Hdanger eq_refl) as [?|?]; tauto|].
                 exists value. split; [by left|exact Hprim].
              ** by left.
              ** right. split; [exact Hx|]. exists v. split; [by right|exact Hv].
           ++ intros [H|(Hx & v & [Heq|Hin] & Hv)]; [left; by right| |].
              ** injection Heq as <- <-. left. by left.
              ** right. split; [exact Hx|]. eauto.
      * split.
        -- intros [H|(Hx & v & Hin & Hv)]; [by left|].
           right. split; [exact Hx|]. exists v. split; [by right|exact Hv].
        -- intros [H|(Hx & v & [Heq|Hin] & Hv)]; [by left| |].
           ++ injection Heq as <- <-. congruence.
           ++ right. split; [exact Hx|]. eauto.
    + split.
      * intros [H|(Hx & v & Hin & Hv)]; [by left|].
        right. split; [exact Hx|]. exists v. split; [by right|exact Hv].
      * intros [H|(Hx & v & [Heq|Hin] & Hv)]; [by left| |].
        -- injection Heq as <- <-. exfalso.
           assert (Htrue : false = true) by (apply Hdanger; tauto).
           discriminate Htrue.
        -- right. split; [exact Hx|]. eauto.
Qed.

(** X23. Inside an object nested in the context, an object keeps
    exactly its keys [constructor] and [prototype] that hold a primitive
    or [null]; every other key, in particular every safe one, is
    dropped. *)
Theorem sanitizeNestedObject_third_level (key : string) (inner : JsObject) :
  setHas DANGEROUS_TEMPLATE_KEYS key = false ->
  exists kept,
    sanitizeNestedObject [(key, JObject inner)] = [(key, JObject kept)]
    /\ forall x,
         In x (objectKeys kept)
         <-> (x = "constructor" \/ x = "prototype")
             /\ exists value, In (x, value) inner /\ isPrimitiveOrNull value = true.
Proof.
  intros Hkey. exists (fold_left sanitizeInnerEntry inner []). split.
  - unfold sanitizeNestedObject. simpl. rewrite Hkey. unfold assignProperty.
    destruct (String.eqb_spec key "__proto__") as [->|_]; [|reflexivity].
    vm_compute in Hkey. discriminate.
  - intros x. rewrite sanitizeInner_keys. simpl. tauto.
Qed.

Lemma sanitizeNestedObject_third_level_witness :
  exists kept,
    sanitizeNestedObject
      [("profile", JObject [("constructor", JString "x"); ("name", JString "John")])]
    = [("profile", JObject kept)]
    /\ ~ In "name" (objectKeys kept).
Proof.
  destruct (sanitizeNestedObject_third_level "profile"
              [("constructor", JString "x"); ("name", JString "John")] eq_refl)
    as (kept & Hrun & Hkeys).
  exists kept. split; [exact Hrun|].
  intros Hin. apply Hkeys in Hin as [[Habs|Habs] _]; discriminate.
Defined.

(** ** The reason of a denial *)

(** A pattern without the character [c] does not start inside [s] and
    end behind it when [c] follows [s]. *)
Lemma prefix_blocked (c : ascii) (pattern s post : string) :
  includes pattern (String c "") = false ->
  String.prefix pattern s = false ->
  String.prefix pattern (s +:+ String c post) = false.
Proof.
  revert s. induction pattern as [|x pattern IH]; intros s Hfree Hprefix.
  - destruct s; discriminate.
  - rewrite includes_char_cons in Hfree. apply orb_false_elim in Hfree as [Hx Hfree].
    destruct s as [|y s].
    + rewrite append_empty. simpl. destruct (ascii_dec x c) as [->|_]; [|reflexivity].
      rewrite Ascii.eqb_refl in Hx. discriminate.
    + rewrite append_cons. simpl in *. destruct (ascii_dec x y); [|reflexivity].
      by apply IH.
Qed.

Lemma replaceFirst_skip (c : ascii) (pattern replacement s post : string) :
  includes pattern (String c "") = false ->
  includes s pattern = false ->
  replaceFirst (s +:+ String c post) pattern replacement
  = s +:+ replaceFirst (String c post) pattern replacement.
Proof.
  intros Hfree. induction s as [|y s IH]; intros Hnot.
  - reflexivity.
  - rewrite includes_cons in Hnot. apply orb_false_elim in Hnot as [Hprefix Hrest].
    pose proof (prefix_blocked c pattern (String y s) post Hfree Hprefix) as Hblocked.
    rewrite !append_cons in *. cbn [replaceFirst]. rewrite Hblocked.
    f_equal. by apply IH.
Qed.

Section DenialReason.
Variable ability_can : string -> SubjectInstance -> option string -> bool.

(** X24. When the check denies and the action is free of the
    replacement patterns of [String.prototype.replace] (it holds no [$],
    and neither does the subject) and does not spell the placeholder of
    the subject, the reason reads
    [Access denied for action '<action>' on '<subject>'], with [all] for
    an absent subject. *)
Theorem checkPermissionHandler_denial_reason (sortedPermissions : list Rule)
    (action : string) (subject : option string) (resource : option JsObject)
    (fields : option (list string)) :
  let response :=
    checkPermissionHandler ability_can sortedPermissions action subject resource fields in
  let subjectToCheck := match subject with Some s => s | None => "all" end in
  allowed response = false ->
  includes action "{{subject}}" = false ->
  includes action "$" = false ->
  includes subjectToCheck "$" = false ->
  reason response
  = Some ("Access denied for action '" +:+ action +:+ "' on '" +:+ subjectToCheck +:+ "'").
Proof.
  intros response subjectToCheck Hdenied Haction _ _. subst response.
  unfold checkPermissionHandler in *. cbn [allowed reason] in *.
  fold subjectToCheck in Hdenied |- *. rewrite Hdenied.
  f_equal.
  change (replaceFirst ACCESS_DENIED_ACTION "{{action}}" action)
    with ("Access denied for action '" +:+ (action +:+ String "'" " on '{{subject}}'")).
  change ("Access denied for action '" +:+ action +:+ "' on '" +:+ subjectToCheck +:+ "'")
    with ("Access denied for action '"
          +:+ (action +:+ String "'" (" on '" +:+ subjectToCheck +:+ "'"))).
  set (tail := action +:+ String "'" " on '{{subject}}'").
  assert (Htail : replaceFirst tail "{{subject}}" subjectToCheck
                  = action +:+ String "'" (" on '" +:+ subjectToCheck +:+ "'")).
  { subst tail. rewrite replaceFirst_skip by (reflexivity || exact Haction).
    reflexivity. }
  rewrite <- Htail. reflexivity.
Qed.

End DenialReason.

Lemma checkPermissionHandler_denial_reason_witness :
  reason (checkPermissionHandler denyingAbility [] "delete" (Some "post") None None)
  = Some "Access denied for action 'delete' on 'post'".
Proof.
  apply (checkPermissionHandler_denial_reason denyingAbility [] "delete" (Some "post")
           None None); reflexivity.
Defined.

(** An action that spells the second placeholder receives the subject. *)
Example checkPermissionHandler_reason_placeholder_in_action :
  reason (checkPermissionHandler denyingAbility [] "{{subject}}" (Some "post") None None)
  = Some "Access denied for action 'post' on '{{subject}}'".
Proof. vm_compute. reflexivity. Qed.

(** ** Assignments and removals of the permission-set adapter *)

Section PermissionSetJunctions.
Context {S : Type}.
Variable adapter : Adapter S.
Variable rowsOf : S -> string -> list Row.



(** X26. Against a conforming store, each of the three batch removals
    of the permission-set adapter returns and removes from its junction
    relation exactly the rows that carry one of the named pairs; every
    other relation is untouched. *)
Theorem permission_set_removals_exact (permissionSetId : string) :
  ConformingAdapter adapter rowsOf ->
  RemovesExactly rowsOf "userPermissionSet"
    (fun userId => [WhereEq "permissionSetId" permissionSetId; WhereEq "userId" userId])
    (batchRemoveUsersFromPermissionSet adapter permissionSetId)
  /\ RemovesExactly rowsOf "memberPermissionSet"
       (fun memberId => [WhereEq "permissionSetId" permissionSetId;
                         WhereEq "memberId" memberId])
       (batchRemoveMembersFromPermissionSet adapter permissionSetId)
  /\ RemovesExactly rowsOf "permissionPermissionSet"
       (fun permissionId => [WhereEq "permissionSetId" permissionSetId;
                             WhereEq "permissionId" permissionId])
       (batchRemovePermissionsFromPermissionSet adapter permissionSetId).
Proof.
  intros Hconforming. split; [|split]; intros ids w.
  - destruct (batchRemove_removes adapter rowsOf Hconforming "userPermissionSet"
                (fun userId => [WhereEq "permissionSetId" permissionSetId;
                                WhereEq "userId" userId]) ids w)
      as (w' & Hrun & _ & Hrows & Hothers).
    exists w'. auto.
  - destruct (batchRemove_removes adapter rowsOf Hconforming "memberPermissionSet"
                (fun memberId => [WhereEq "permissionSetId" permissionSetId;
                                  WhereEq "memberId" memberId]) ids w)
      as (w' & Hrun & _ & Hrows & Hothers).
    exists w'. auto.
  - destruct (batchRemove_removes adapter rowsOf Hconforming "permissionPermissionSet"
                (fun permissionId => [WhereEq "permissionSetId" permissionSetId;
                                      WhereEq "permissionId" permissionId]) ids w)
      as (w' & Hrun & _ & Hrows & Hothers).
    exists w'. auto.
Qed.

End PermissionSetJunctions.


Lemma permission_set_removals_exact_witness :
  exists w',
    batchRemoveUsersFromPermissionSet (memoryAdapter false) "s1" ["u1"] seededSetWorld
    = (Returned tt, w')
    /\ memoryRows (store w') "userPermissionSet"
       = [ {[ "permissionSetId" := "s2"; "userId" := "u1" ]} ].
Proof.
  destruct (proj1 (permission_set_removals_exact (memoryAdapter false) memoryRows "s1"
                     (memoryAdapter_conforming false))
              ["u1"] seededSetWorld)
    as (w' & Hrun & Hrows & _).
  exists w'. split; [exact Hrun|]. rewrite Hrows. vm_compute. reflexivity.
Defined.
